(** * Splice File Organizer: a shallow embedding of splice_file_organizer.cpp

    The program walks a source directory, keeps the .wav/.mp3 files,
    picks a destination folder from substrings of the lowercased file
    name and copies the file there.  The embedding follows the source
    function by function: [to_lower], [is_audio_file],
    [file_already_processed], [append_index_to_filename],
    [create_parent_directories], [print_file_move_info], [organize_file],
    [process_directory] and [main].

    std::string is [string]; std::filesystem::path is a list of
    components; the global std::set<std::string> is a [gset string]; the
    file system, the set and the console form the state of a small
    state-and-exception monad, since std::filesystem calls throw.

    Part I holds the definitions, Part II the properties C1-C10 (with
    X22 and X23, which belong with C1 and C9), and Part III further
    properties of the same functions (X1-X21): edge cases, failures, and
    whole runs. *)

From Stdlib Require Import ZArith Ascii DecimalString.
From Stdlib Require DecimalZ DecimalPos.
From stdpp Require Import gmap strings list functions.

Open Scope Z_scope.

(** ** Part I. Definitions *)

(** *** std::string *)

(** [::tolower] in the "C" locale (the program never calls setlocale):
    'A'..'Z' go to 'a'..'z', every other byte stays. *)
Definition tolower (c : ascii) : ascii :=
  let n := N_of_ascii c in
  if ((65 <=? n) && (n <=? 90))%N then ascii_of_N (n + 32) else c.

(** std::transform over the characters of a string. *)
Fixpoint transform (f : ascii → ascii) (s : string) : string :=
  match s with
  | EmptyString => EmptyString
  | String c s' => String (f c) (transform f s')
  end.

Definition to_lower (str : string) : string := transform tolower str.

(** std::string::npos and std::string::find(const char* ) from position 0:
    the first position at which the needle starts, or npos. *)
Definition npos : option nat := None.

(** The needle is found at the front of [s]. *)
Fixpoint starts_with (needle s : string) : bool :=
  match needle with
  | EmptyString => true
  | String a needle' =>
      match s with
      | EmptyString => false
      | String b s' => Ascii.eqb a b && starts_with needle' s'
      end
  end.

Fixpoint find_from (pos : nat) (s needle : string) : option nat :=
  if starts_with needle s then Some pos
  else match s with
       | EmptyString => npos
       | String _ s' => find_from (S pos) s' needle
       end.

Definition find (s needle : string) : option nat := find_from 0 s needle.

(** [s.find(needle) != std::string::npos] *)
Definition found (s needle : string) : bool :=
  match find s needle with Some _ => true | None => false end.

(** std::string::rfind(char): the last position of the character. *)
Fixpoint rfind_from (pos : nat) (s : string) (c : ascii) : option nat :=
  match s with
  | EmptyString => npos
  | String a s' =>
      match rfind_from (S pos) s' c with
      | Some i => Some i
      | None => if Ascii.eqb a c then Some pos else npos
      end
  end.

Definition rfind (s : string) (c : ascii) : option nat := rfind_from 0 s c.

(** std::to_string(int) *)
Definition to_string (i : Z) : string := NilZero.string_of_int (Z.to_int i).

(** *** std::filesystem::path *)

(** A path is the list of its components; [operator/] appends one. *)
Abbreviation path := (list string).

Definition path_append (p : path) (name : string) : path := p ++ [name].
Infix "//" := path_append (at level 40, left associativity).

(** path::filename(): the last component. *)
Definition filename (p : path) : string := List.last p "".

(** path::parent_path() *)
Definition parent_path (p : path) : path := removelast p.

(** Where the extension of a file name starts (the standard's rule for
    path::extension and path::stem): nowhere for "." and "..", nowhere
    without a period, nowhere when the only period leads the name;
    otherwise at the rightmost period. *)
Definition extension_start (name : string) : option nat :=
  if String.eqb name "." || String.eqb name ".." then None
  else match rfind name "."%char with
       | Some 0%nat => None
       | Some i => Some i
       | None => None
       end.

Definition extension_of (name : string) : string :=
  match extension_start name with
  | Some i => String.substring i (String.length name - i) name
  | None => ""
  end.

Definition stem_of (name : string) : string :=
  match extension_start name with
  | Some i => String.substring 0 i name
  | None => name
  end.

Definition extension (p : path) : string := extension_of (filename p).
Definition stem (p : path) : string := stem_of (filename p).

(** *** The destination taxonomy *)

Inductive category : Type :=
| Drums_808 | Drums_Snare | Drums_Kick | Drums_Clap | Drums_Hat
| Drums_Other | Other_Loop | Other_Other.

Definition group (c : category) : string :=
  match c with
  | Other_Loop | Other_Other => "Other"
  | _ => "Drums"
  end.

Definition subgroup (c : category) : string :=
  match c with
  | Drums_808 => "808"
  | Drums_Snare => "Snare"
  | Drums_Kick => "Kick"
  | Drums_Clap => "Clap"
  | Drums_Hat => "Hat"
  | Drums_Other => "Other"
  | Other_Loop => "Loop"
  | Other_Other => "Other"
  end.

(** The if/else-if chain of organize_file (lines 120-162), on the
    lowercased file name the function computes first. *)
Definition category_of (filename : string) : category :=
  if found filename "808" then Drums_808
  else if found filename "snare" || found filename "_snr"
          || found filename "snr_" then Drums_Snare
  else if found filename "kick" || found filename "_kck"
          || found filename "kck_" then Drums_Kick
  else if found filename "clap" || found filename "_clp"
          || found filename "clp_" then Drums_Clap
  else if found filename "hat" || found filename "ht_"
          || found filename "_ht" then Drums_Hat
  else if found filename "drum" || found filename "_drm"
          || found filename "drm_" then Drums_Other
  else if found filename "loop" then Other_Loop
  else Other_Other.

(** Classification of a file name as organize_file performs it:
    [to_lower] first, then the chain. *)
Definition classify (name : string) : category := category_of (to_lower name).

(** The rule table of the header comment, in the order of the chain: the
    reading of "first match wins" that [category_of] is compared with. *)
Definition rules : list (list string * category) :=
  [ (["808"], Drums_808);
    (["snare"; "_snr"; "snr_"], Drums_Snare);
    (["kick"; "_kck"; "kck_"], Drums_Kick);
    (["clap"; "_clp"; "clp_"], Drums_Clap);
    (["hat"; "ht_"; "_ht"], Drums_Hat);
    (["drum"; "_drm"; "drm_"], Drums_Other);
    (["loop"], Other_Loop) ].

Fixpoint first_match (rs : list (list string * category)) (s : string)
  : category :=
  match rs with
  | [] => Other_Other
  | (needles, c) :: rs' =>
      if existsb (found s) needles then c else first_match rs' s
  end.

(** [sub] occurs in [s]. *)
Definition occurs_in (sub s : string) : Prop :=
  ∃ pre post : string, s = pre +:+ sub +:+ post.

(** *** The file system and the state of a run *)

(** A regular file with its bytes, or a directory with the names of its
    entries. *)
Inductive node : Type :=
| File (data : string)
| Dir (names : list string).

(** The std::filesystem calls the program makes; the environment may
    refuse any of them (permission denied, I/O error, path too long). *)
Inductive fs_call : Type :=
| Call_exists (p : path)
| Call_create_directories (p : path)
| Call_copy_file (from to : path)
| Call_remove (p : path)
| Call_directory_iterator (p : path)
| Call_is_directory (p : path).

(** What the program writes to std::cout and std::cerr. *)
Inductive output : Type :=
| Banner
| Source_folder_does_not_exist
| Request (source dest_path : path)
| Moved (source destination : path)
| Error_copying_file (what : string)
| Error_processing_file_system (what : string)
| Splice_Files_organized_successfully
| Press_Enter_to_exit.

(** Ghost record of a run: the calls of organize_file, the calls of
    fs::remove and the copies fs::copy_file completed. *)
Inductive action : Type :=
| Organize (source : path)
| Remove (p : path)
| Copy (from to : path).

(** [ignore_case]: the volume compares names ignoring ASCII case (NTFS,
    APFS) or not (ext4).  [store]: the node at each canonical path, the
    empty path being the working directory.  [fault]: the what() of the
    filesystem_error the environment raises for a call, if any.
    [processed_files]: the global set of the source. *)
Record world : Type := World {
  ignore_case : bool;
  fault : fs_call → option string;
  store : path → option node;
  processed_files : gset string;
  console : list output;
  history : list action
}.

Definition with_store (s : path → option node) (w : world) : world :=
  World (ignore_case w) (fault w) s (processed_files w) (console w)
        (history w).

Definition with_processed_files (r : gset string) (w : world) : world :=
  World (ignore_case w) (fault w) (store w) r (console w) (history w).

Definition with_console (c : list output) (w : world) : world :=
  World (ignore_case w) (fault w) (store w) (processed_files w) c
        (history w).

Definition with_history (h : list action) (w : world) : world :=
  World (ignore_case w) (fault w) (store w) (processed_files w)
        (console w) h.

(** The canonical form of a path on the volume. *)
Definition canon (ci : bool) (p : path) : path :=
  if ci then map to_lower p else p.

Definition key (w : world) (p : path) : path := canon (ignore_case w) p.

Definition lookup_path (w : world) (p : path) : option node :=
  store w (key w p).

Definition same_name (w : world) (a b : string) : bool :=
  bool_decide (key w [a] = key w [b]).

(** Writing node [n] at [p] and entering the name in the parent [names]. *)
Definition link (w : world) (p : path) (n : node) (names : list string)
  : world :=
  with_store
    (<[key w p := Some n]>
       (<[key w (parent_path p) := Some (Dir (names ++ [filename p]))]>
          (store w))) w.

(** Dropping the node at [p] and its name from the parent, if any. *)
Definition unlink (w : world) (p : path) : world :=
  let s := match lookup_path w (parent_path p) with
           | Some (Dir names) =>
               <[key w (parent_path p) :=
                   Some (Dir (List.filter
                                (λ m, negb (same_name w m (filename p)))
                                names))]> (store w)
           | _ => store w
           end in
  with_store (<[key w p := None]> s) w.

(** *** The monad: state, filesystem_error, and running out of fuel *)

Inductive outcome (A : Type) : Type :=
| Normal (a : A)
| Throw (what : string)
| Out_of_fuel.
Arguments Normal {A} a.
Arguments Throw {A} what.
Arguments Out_of_fuel {A}.

Definition M (A : Type) : Type := world → outcome A * world.

#[global] Instance M_ret : MRet M := λ A a w, (Normal a, w).

#[global] Instance M_bind : MBind M := λ A B f m w,
  match m w with
  | (Normal a, w') => f a w'
  | (Throw e, w') => (Throw e, w')
  | (Out_of_fuel, w') => (Out_of_fuel, w')
  end.

Definition throw {A : Type} (what : string) : M A := λ w, (Throw what, w).

(** try { body } catch (const fs::filesystem_error& e) { handler } *)
Definition try_catch (body : M unit) (handler : string → M unit) : M unit :=
  λ w, match body w with
       | (Throw e, w') => handler e w'
       | r => r
       end.

Definition when (b : bool) (m : M unit) : M unit :=
  if b then m else mret tt.

Definition print (o : output) : M unit :=
  λ w, (Normal tt, with_console (console w ++ [o]) w).

Definition note (a : action) : M unit :=
  λ w, (Normal tt, with_history (history w ++ [a]) w).

(** A call either faults in the environment or runs [m]. *)
Definition guarded {A : Type} (c : fs_call) (m : M A) : M A :=
  λ w, match fault w c with
       | Some what => (Throw what, w)
       | None => m w
       end.

(** *** std::filesystem *)

(** Something is at [p]: what fs::exists answers. *)
Definition occupied (w : world) (p : path) : bool :=
  match lookup_path w p with Some _ => true | None => false end.

Definition fs_exists (p : path) : M bool :=
  guarded (Call_exists p) (λ w, (Normal (occupied w p), w)).

(** fs::create_directories: every missing directory along [p] is made,
    outermost first; a regular file in the way is an error.  The result
    tells whether the last directory was created by this call. *)
Fixpoint make_directories (made : path) (rest : list string)
    (created : bool) : M bool :=
  match rest with
  | [] => mret created
  | name :: rest' =>
      let q := made // name in
      λ w, match lookup_path w q with
           | Some (Dir _) => make_directories q rest' false w
           | Some (File _) => (Throw "Not a directory", w)
           | None =>
               match lookup_path w made with
               | Some (Dir names) =>
                   make_directories q rest' true (link w q (Dir []) names)
               | _ => (Throw "No such file or directory", w)
               end
           end
  end.

(** The empty path names nothing: fs::create_directories("") is an
    error (invalid argument), and nothing is made. *)
Definition fs_create_directories (p : path) : M bool :=
  guarded (Call_create_directories p)
    (match p with
     | [] => throw "Invalid argument"
     | _ :: _ => make_directories [] p false
     end).

(** fs::copy_file(from, to) with copy_options::none: [from] must be a
    regular file, [to] must not exist, its directory must.

    The text carried by a [Throw] of these operations names the error
    condition only.  The what() of a real filesystem_error is
    implementation-defined text around it (the operation and the paths
    are added); no property depends on the text of an error raised
    here, only on there being one. *)
Definition fs_copy_file (from to : path) : M bool :=
  guarded (Call_copy_file from to)
    (λ w, match lookup_path w from with
          | Some (File data) =>
              match lookup_path w to with
              | Some _ => (Throw "File exists", w)
              | None =>
                  match lookup_path w (parent_path to) with
                  | Some (Dir names) =>
                      (Normal true,
                       with_history (history w ++ [Copy from to])
                         (link w to (File data) names))
                  | _ => (Throw "No such file or directory", w)
                  end
              end
          | _ => (Throw "No such file or directory", w)
          end).

(** fs::remove(p): false when nothing is there; a directory must be
    empty. *)
Definition fs_remove (p : path) : M bool :=
  note (Remove p) ;;
  guarded (Call_remove p)
    (λ w, match lookup_path w p with
          | None => (Normal false, w)
          | Some (Dir (_ :: _)) => (Throw "Directory not empty", w)
          | Some _ => (Normal true, unlink w p)
          end).

(** fs::directory_iterator(p): the entries of the directory as they are
    when it is opened. *)
Definition directory_iterator (p : path) : M (list path) :=
  guarded (Call_directory_iterator p)
    (λ w, match lookup_path w p with
          | Some (Dir names) => (Normal (map (path_append p) names), w)
          | Some (File _) => (Throw "Not a directory", w)
          | None => (Throw "No such file or directory", w)
          end).

(** directory_entry::is_directory() *)
Definition is_directory (entry : path) : M bool :=
  guarded (Call_is_directory entry)
    (λ w, (Normal (match lookup_path w entry with
                   | Some (Dir _) => true
                   | _ => false
                   end), w)).

(** *** The program *)

(** Check if a file is an audio file (wav or mp3) *)
Definition is_audio_file (file_path : path) : bool :=
  let extension := to_lower (extension file_path) in
  String.eqb extension ".wav" || String.eqb extension ".mp3".

(** Check if a file has already been processed *)
Definition file_already_processed (file_path : path) : M bool :=
  λ w, let filename := to_lower (filename file_path) in
       (Normal (bool_decide (filename ∈ processed_files w)), w).

(** Append an index to a filename *)
Definition append_index_to_filename (filename : string) (index : Z) : string :=
  let base_name := stem_of filename in
  let extension := extension_of filename in
  base_name +:+ "_" +:+ to_string index +:+ extension.

(** Create parent directories for a file *)
Definition create_parent_directories (file_path : path) : M unit :=
  fs_create_directories (parent_path file_path) ;; mret tt.

(** Print information about a file move *)
Definition print_file_move_info (source destination : path) : M unit :=
  print (Moved source destination).

(** processed_files.insert(name) *)
Definition processed_files_insert (name : string) : M unit :=
  λ w, (Normal tt, with_processed_files ({[name]} ∪ processed_files w) w).

(** The bound of the for loop of organize_file, and the number of
    iterations it leaves when [i] starts at 0. *)
Definition index_bound : Z := 999999.

Definition index_iterations : nat := Z.to_nat (index_bound - 0).

(** for (int i = ...; i < 999999; ++i) with [n] iterations left, that is
    [n = 999999 - i]; copying is followed by break. *)
Fixpoint indexed_copy (n : nat) (i : Z) (source destination : path)
    (print_info : bool) : M unit :=
  match n with
  | O => mret tt
  | S n' =>
      let indexed_dest_path :=
        destination // append_index_to_filename (filename source) i in
      e ← fs_exists indexed_dest_path;
      if negb e then
        fs_copy_file source indexed_dest_path ;;
        when print_info (print_file_move_info source indexed_dest_path)
      else indexed_copy n' (i + 1) source destination print_info
  end.

(** The destination computed by lines 116-162. *)
Definition candidate (source destination : path) : path :=
  let filename_ := to_lower (filename source) in
  let c := category_of filename_ in
  destination // group c // subgroup c // filename source.

(** The try block of organize_file (lines 165-196). *)
Definition place (source destination dest_path : path) (print_info : bool)
  : M unit :=
  create_parent_directories dest_path ;;
  when print_info (print (Request source dest_path)) ;;
  e ← fs_exists dest_path;
  (if negb e then
     fs_copy_file source dest_path ;;
     when print_info (print_file_move_info source dest_path)
   else
     p ← file_already_processed dest_path;
     if negb p then
       fs_remove dest_path ;;
       fs_copy_file source dest_path ;;
       when print_info (print_file_move_info source dest_path)
     else
       indexed_copy index_iterations 0 source destination print_info) ;;
  processed_files_insert (to_lower (filename source)).

(** Organize a file based on its content *)
Definition organize_file (source destination : path) (print_info : bool)
  : M unit :=
  note (Organize source) ;;
  if negb (is_audio_file source) then mret tt
  else
    let dest_path := candidate source destination in
    try_catch (place source destination dest_path print_info)
      (λ what, print (Error_copying_file what)).

(** The body of the range-for of process_directory over the entries. *)
Fixpoint for_each (entries : list path) (body : path → M unit) : M unit :=
  match entries with
  | [] => mret tt
  | entry :: rest => body entry ;; for_each rest body
  end.

(** What the range-for of process_directory does with one entry;
    [recurse] is process_directory itself, one level further down. *)
Definition visit_entry (recurse : path → M unit) (destination : path)
    (print_info : bool) (entry : path) : M unit :=
  d ← is_directory entry;
  if d : bool then recurse entry
  else organize_file entry destination print_info.

(** Process a directory and organize its files.  [fuel] bounds the depth
    of the recursion. *)
Fixpoint process_directory (fuel : nat) (source destination : path)
    (print_info : bool) : M unit :=
  match fuel with
  | O => λ w, (Out_of_fuel, w)
  | S fuel' =>
      try_catch
        (entries ← directory_iterator source;
         for_each entries
           (visit_entry
              (λ entry, process_directory fuel' entry destination print_info)
              destination print_info))
        (λ what, print (Error_processing_file_system what))
  end.

(** main, from the point where the three answers have been read. *)
Definition main (fuel : nat) (source_folder destination_folder : path)
    (print_info : bool) : M Z :=
  print Banner ;;
  e ← fs_exists source_folder;
  if negb e then print Source_folder_does_not_exist ;; mret 1
  else
    let source_path := source_folder in
    let destination_path := destination_folder in
    fs_create_directories (destination_path // "Drums" // "808") ;;
    fs_create_directories (destination_path // "Drums" // "Snare") ;;
    fs_create_directories (destination_path // "Drums" // "Kick") ;;
    fs_create_directories (destination_path // "Drums" // "Clap") ;;
    fs_create_directories (destination_path // "Drums" // "Hat") ;;
    fs_create_directories (destination_path // "Drums" // "Other") ;;
    fs_create_directories (destination_path // "Other" // "Loop") ;;
    fs_create_directories (destination_path // "Other" // "Other") ;;
    process_directory fuel source_path destination_path print_info ;;
    print Splice_Files_organized_successfully ;;
    print Press_Enter_to_exit ;;
    mret 0.

(** The state in which the program starts on a given volume. *)
Definition start (ci : bool) (flt : fs_call → option string)
    (s : path → option node) : world :=
  World ci flt s ∅ [] [].

(** A store given by a finite table of canonical paths. *)
Fixpoint table (l : list (path * node)) : path → option node :=
  match l with
  | [] => λ _, None
  | (k, n) :: l' => <[k := Some n]> (table l')
  end.

Definition no_fault : fs_call → option string := λ _, None.

(** *** Worlds used in the examples *)

(** A sample library under s/ and the eight folders under d/. *)
Definition library : list (path * node) :=
  [ (["s"], Dir ["a"; "b"; "notes.txt"; "Hat_Loop.MP3"]);
    (["s"; "a"], Dir ["kick.wav"]);
    (["s"; "b"], Dir ["kick.wav"; "808_kick.wav"; "kick.mp3"]);
    (["s"; "a"; "kick.wav"], File "A");
    (["s"; "b"; "kick.wav"], File "B");
    (["s"; "b"; "808_kick.wav"], File "C");
    (["s"; "b"; "kick.mp3"], File "F");
    (["s"; "notes.txt"], File "D");
    (["s"; "Hat_Loop.MP3"], File "E") ].

Definition shelves : list (path * node) :=
  [ (["d"], Dir ["Drums"; "Other"]);
    (["d"; "Drums"], Dir ["808"; "Snare"; "Kick"; "Clap"; "Hat"; "Other"]);
    (["d"; "Drums"; "808"], Dir []);
    (["d"; "Drums"; "Snare"], Dir []);
    (["d"; "Drums"; "Kick"], Dir []);
    (["d"; "Drums"; "Clap"], Dir []);
    (["d"; "Drums"; "Hat"], Dir []);
    (["d"; "Drums"; "Other"], Dir []);
    (["d"; "Other"], Dir ["Loop"; "Other"]);
    (["d"; "Other"; "Loop"], Dir []);
    (["d"; "Other"; "Other"], Dir []) ].

(** Before the first run: no destination yet. *)
Definition fresh_store : path → option node :=
  table ((@nil string, Dir ["s"]) :: library).

(** The destination folders exist and are empty. *)
Definition ready_store : path → option node :=
  table ((@nil string, Dir ["s"; "d"]) :: library ++ shelves).

(** A file of an earlier run is still in d/Drums/Kick. *)
Definition stale_store : path → option node :=
  table ((["d"; "Drums"; "Kick"; "kick.wav"], File "old")
         :: (["d"; "Drums"; "Kick"], Dir ["kick.wav"])
         :: (@nil string, Dir ["s"; "d"]) :: library ++ shelves).

(** The destination is the source folder itself, organized before. *)
Definition inplace_store : path → option node :=
  table [ (@nil string, Dir ["s"]);
          (["s"], Dir ["Drums"]);
          (["s"; "Drums"], Dir ["Kick"]);
          (["s"; "Drums"; "Kick"], Dir ["kick.wav"]);
          (["s"; "Drums"; "Kick"; "kick.wav"], File "A") ].

(** Two files whose names differ in case only, on a volume that
    ignores case ([ci = true]) or not. *)
Definition mixed_case_store (ci : bool) : path → option node :=
  table (map (λ e, (canon ci e.1, e.2))
           ([ (@nil string, Dir ["s"; "d"]);
              (["s"], Dir ["a"; "b"]);
              (["s"; "a"], Dir ["Kick.WAV"]);
              (["s"; "b"], Dir ["kick.wav"]);
              (["s"; "a"; "Kick.WAV"], File "A");
              (["s"; "b"; "kick.wav"], File "B") ] ++ shelves)).

(** d/ already holds kick_0.wav up to kick_999998.wav. *)
Definition crowd_names : list string :=
  map (append_index_to_filename "kick.wav") (seqZ 0 index_bound).

Definition crowded_base : list (path * node) :=
  (@nil string, Dir ["s"; "d"])
  :: (["d"], Dir (["Drums"; "Other"] ++ crowd_names))
  :: library ++ shelves.

Definition crowded_store : path → option node :=
  λ k, if bool_decide (k ∈ map (path_append ["d"]) crowd_names)
       then Some (File "old")
       else table crowded_base k.

(** The crowded volume after s/a/kick.wav has been placed. *)
Definition crowded_midrun : world :=
  (organize_file ["s"; "a"; "kick.wav"] ["d"] false
     (start false no_fault crowded_store)).2.

(** The copy of s/a/kick.wav is refused by the environment. *)
Definition refuse_one : fs_call → option string :=
  λ c, match c with
       | Call_copy_file from _ =>
           if bool_decide (from = ["s"; "a"; "kick.wav"])
           then Some "Permission denied" else None
       | _ => None
       end.

(** *** Vocabulary of the statements *)

(** The extensions the filter accepts, without the period. *)
Definition audio_suffix (e : string) : Prop :=
  to_lower e = "wav" ∨ to_lower e = "mp3".

(** No call is refused by the environment. *)
Definition calm (w : world) : Prop := ∀ c, fault w c = None.

Definition is_dir (w : world) (p : path) : Prop :=
  ∃ names, lookup_path w p = Some (Dir names).

(** Every directory along [p], the working directory included, exists. *)
Definition dirs_exist (w : world) (p : path) : Prop :=
  ∀ q, q `prefix_of` p → is_dir w q.

(** [p] lies below the directory [d]. *)
Definition below (d p : path) : Prop := ∃ name rest, p = d ++ name :: rest.

(** One of the two canonical paths is an ancestor of the other, or they
    are equal. *)
Definition near (d k : path) : Prop := k `prefix_of` d ∨ d `prefix_of` k.

(** What an action may touch when the destination root is [d]. *)
Definition targets (d : path) (a : action) : Prop :=
  match a with
  | Organize _ => True
  | Remove p => below d p
  | Copy _ to => below d to
  end.

(** No canonical path of the store is longer than [L]. *)
Definition shallow (L : nat) (w : world) : Prop :=
  ∀ k, store w k ≠ None → (length k ≤ L)%nat.


(** What any stretch of a run with destination root [d] does to the
    state; [ok] holds of the actions it adds to the history. *)
Record evolves (ok : action → Prop) (d : path) (L : nat) (w w' : world)
  : Prop := Evolves {
  ev_case : ignore_case w' = ignore_case w;
  ev_fault : fault w' = fault w;
  ev_processed : processed_files w ⊆ processed_files w';
  ev_frame : ∀ k, ¬ near (key w d) k → store w' k = store w k;
  ev_shallow : shallow L w → shallow L w';
  ev_history : ∃ h, history w' = history w ++ h ∧ Forall ok h;
  ev_console : ∃ c, console w' = console w ++ c
}.

(** A computation whose every run is related by [R]. *)
Definition respects (R : relation world) {A : Type} (m : M A) : Prop :=
  ∀ w r w', m w = (r, w') → R w w'.

(** A computation that lets no filesystem_error escape. *)
Definition catches_all {A : Type} (m : M A) : Prop :=
  ∀ w what w', m w ≠ (Throw what, w').

(** The copies completed so far, and the files handed to organize_file. *)
Definition copies (w : world) : list (path * path) :=
  omap (λ a, match a with Copy from to => Some (from, to) | _ => None end)
       (history w).

Definition visits (w : world) : list path :=
  omap (λ a, match a with Organize p => Some p | _ => None end) (history w).

(** The invariant of the registry: the names in it are those of the
    files copied so far. *)
Definition registry_sound (w : world) : Prop :=
  ∀ name, name ∈ processed_files w ↔
          ∃ from to, (from, to) ∈ copies w ∧ to_lower (filename from) = name.

(** Neither the registry nor the list of copies changes. *)
Definition ghost_neutral (w w' : world) : Prop :=
  processed_files w' = processed_files w ∧ copies w' = copies w.

Definition keeps_registry_sound (w w' : world) : Prop :=
  processed_files w ⊆ processed_files w'
  ∧ (registry_sound w → registry_sound w').

(** The ghost effect of placing [source]: on a normal end, one copy of
    [source] was added, or none was and its name was registered before;
    otherwise no copy was added.  The registry is untouched. *)
Definition placed (source : path) (w : world) {A : Type} (r : outcome A)
    (w' : world) : Prop :=
  processed_files w' = processed_files w
  ∧ match r with
    | Normal _ =>
        (∃ to, copies w' = copies w ++ [(source, to)])
        ∨ (copies w' = copies w
           ∧ to_lower (filename source) ∈ processed_files w)
    | _ => copies w' = copies w
    end.

(** The states organize_file passes through when no call is refused:
    [announce] is the effect of an optional print, [entered] the state at
    the test of line 174, [copied] the state after a copy and its
    report, [registered] the state after line 196. *)
Definition announce (print_info : bool) (o : output) (w : world) : world :=
  if print_info then with_console (console w ++ [o]) w else w.

Definition entered (source dest_path : path) (print_info : bool)
    (w : world) : world :=
  announce print_info (Request source dest_path)
    (with_history (history w ++ [Organize source]) w).

Definition copied (source to : path) (data : string) (names : list string)
    (print_info : bool) (w : world) : world :=
  announce print_info (Moved source to)
    (with_history (history w ++ [Copy source to])
       (link w to (File data) names)).

Definition removed (p : path) (w : world) : world :=
  unlink (with_history (history w ++ [Remove p]) w) p.

Definition registered (source : path) (w : world) : world :=
  with_processed_files
    ({[to_lower (filename source)]} ∪ processed_files w) w.

(** The name tried at index [i] for [source]. *)
Definition indexed_path (source destination : path) (i : Z) : path :=
  destination // append_index_to_filename (filename source) i.

(** *** Directory trees *)

(** A finite directory tree: what lies at and below a path. *)
Inductive tree : Type :=
| Leaf (data : string)
| Folder (entries : forest)
with forest : Type :=
| No_entries
| Entry (name : string) (t : tree) (rest : forest).

Scheme tree_forest_ind := Induction for tree Sort Prop
  with forest_tree_ind := Induction for forest Sort Prop.

Combined Scheme tree_forest_mutind from tree_forest_ind, forest_tree_ind.

Fixpoint names_of (f : forest) : list string :=
  match f with
  | No_entries => []
  | Entry name _ rest => name :: names_of rest
  end.

(** The tree [t] is what the store holds at [p]. *)
Fixpoint mounted (w : world) (p : path) (t : tree) : Prop :=
  match t with
  | Leaf data => lookup_path w p = Some (File data)
  | Folder entries =>
      lookup_path w p = Some (Dir (names_of entries))
      ∧ mounted_all w p entries
  end
with mounted_all (w : world) (p : path) (f : forest) : Prop :=
  match f with
  | No_entries => True
  | Entry name t rest => mounted w (p // name) t ∧ mounted_all w p rest
  end.

(** The files of the tree, as paths, in the order of the listings. *)
Fixpoint files_of (p : path) (t : tree) : list path :=
  match t with
  | Leaf _ => [p]
  | Folder entries => files_in p entries
  end
with files_in (p : path) (f : forest) : list path :=
  match f with
  | No_entries => []
  | Entry name t rest => files_of (p // name) t ++ files_in p rest
  end.

Fixpoint height (t : tree) : nat :=
  match t with
  | Leaf _ => 0
  | Folder entries => S (height_all entries)
  end
with height_all (f : forest) : nat :=
  match f with
  | No_entries => 0
  | Entry _ t rest => Nat.max (height t) (height_all rest)
  end.




(** The calls of the walk itself are not refused. *)
Definition listing_calm (w : world) : Prop :=
  ∀ p, fault w (Call_directory_iterator p) = None
       ∧ fault w (Call_is_directory p) = None.

(** Source and destination roots are apart: neither canonical path is
    an ancestor of, or equal to, the other. *)
Definition apart (w : world) (source d : path) : Prop :=
  ¬ near (key w d) (key w source).

(** The ancestors of a path, itself included, and a check that they
    are all directories. *)
Fixpoint prefixes (p : path) : list path :=
  match p with
  | [] => [[]]
  | name :: p' => [] :: map (cons name) (prefixes p')
  end.

Definition dirs_check (w : world) (p : path) : bool :=
  forallb (λ q, match lookup_path w q with Some (Dir _) => true | _ => false end)
          (prefixes p).

Definition depth_check (L : nat) (l : list (path * node)) : bool :=
  forallb (λ e, (length e.1 <=? L)%nat) l.

(** The ready volume after s/a/kick.wav has been placed. *)
Definition ready_midrun : world :=
  (organize_file ["s"; "a"; "kick.wav"] ["d"] false
     (start false no_fault ready_store)).2.

(** The sample library as a tree. *)
Definition library_tree : forest :=
  Entry "a" (Folder (Entry "kick.wav" (Leaf "A") No_entries))
    (Entry "b"
       (Folder (Entry "kick.wav" (Leaf "B")
                  (Entry "808_kick.wav" (Leaf "C")
                     (Entry "kick.mp3" (Leaf "F") No_entries))))
       (Entry "notes.txt" (Leaf "D")
          (Entry "Hat_Loop.MP3" (Leaf "E") No_entries))).

(** The case-ignoring volume after s/a/Kick.WAV has been placed. *)
Definition mixed_midrun : world :=
  (organize_file ["s"; "a"; "Kick.WAV"] ["d"] false
     (start true no_fault (mixed_case_store true))).2.


(** The loop body of a walk that has [fuel] left below the directory it
    is listing. *)
Definition visit (fuel : nat) (d : path) (print_info : bool)
  : path → M unit :=
  visit_entry (λ entry, process_directory fuel entry d print_info)
    d print_info.

(** *** Vocabulary of the further properties *)

(** An upper-case letter of the "C" locale. *)
Definition upper_case (c : ascii) : Prop := (65 ≤ N_of_ascii c ≤ 90)%N.

(** The character [c] does not occur in [s]. *)
Fixpoint free_of (c : ascii) (s : string) : bool :=
  match s with
  | EmptyString => true
  | String a s' => negb (Ascii.eqb a c) && free_of c s'
  end.

(** Some needle of the rule occurs in [s]. *)
Definition matches (needles : list string) (s : string) : Prop :=
  ∃ needle, needle ∈ needles ∧ occurs_in needle s.

(** All needles of the chain. *)
Definition needles_of_rules : list string := concat (map fst rules).

(** Two states that differ in the console at most. *)
Definition same_but_console (w1 w2 : world) : Prop :=
  ignore_case w1 = ignore_case w2 ∧ fault w1 = fault w2
  ∧ store w1 = store w2 ∧ processed_files w1 = processed_files w2
  ∧ history w1 = history w2.

(** Two computations that, from such states, end with the same outcome
    in such states. *)
Definition alike {A : Type} (m1 m2 : M A) : Prop :=
  ∀ w1 w2, same_but_console w1 w2 →
           (m1 w1).1 = (m2 w2).1 ∧ same_but_console (m1 w1).2 (m2 w2).2.

(** The pairs reported as "Moved: From: ... To: ..." so far. *)
Definition moves (w : world) : list (path * path) :=
  omap (λ o, match o with Moved s t => Some (s, t) | _ => None end)
       (console w).

(** A stretch of a run that copies nothing and reports no move. *)
Definition quiet (w w' : world) : Prop :=
  copies w' = copies w ∧ moves w' = moves w.

(** A stretch of a run that reports the copies it makes, in order, when
    [print_info] is set, and none otherwise. *)
Definition reports (print_info : bool) (w w' : world) : Prop :=
  ∃ l, copies w' = copies w ++ l
       ∧ moves w' = moves w ++ (if print_info then l else []).

(** The files of a list that organize_file accepts. *)
Definition audio_files (files : list path) : list path :=
  List.filter is_audio_file files.

(** What a run prints for the files it places when every copy succeeds. *)
Definition placement_log (d : path) (print_info : bool) (files : list path)
  : list output :=
  if print_info
  then flat_map (λ p, [Request p (candidate p d); Moved p (candidate p d)])
                (audio_files files)
  else [].

(** The categories in the order in which main makes their folders
    (lines 252-259), and the folder of a category. *)
Definition categories : list category :=
  [Drums_808; Drums_Snare; Drums_Kick; Drums_Clap; Drums_Hat; Drums_Other;
   Other_Loop; Other_Other].

Definition folder (d : path) (c : category) : path :=
  d // group c // subgroup c.

(** fs::create_directories on each path of a list in turn, then [k]:
    the shape of lines 252-262. *)
Fixpoint after_creating {A : Type} (ps : list path) (k : M A) : M A :=
  match ps with
  | [] => k
  | p :: ps' => fs_create_directories p ;; after_creating ps' k
  end.

(** What main does once the folders are made (lines 262-270). *)
Definition main_after_folders (fuel : nat) (source_path destination_path : path)
    (print_info : bool) : M Z :=
  process_directory fuel source_path destination_path print_info ;;
  print Splice_Files_organized_successfully ;;
  print Press_Enter_to_exit ;;
  mret 0.

(** No regular file lies on the way to [p]. *)
Definition way_check (w : world) (p : path) : bool :=
  forallb (λ q, match lookup_path w q with
                | Some (File _) => false
                | _ => true
                end)
          (prefixes p).

(** *** Further worlds used in the examples *)

(** The status of s/b cannot be read. *)
Definition refuse_status : fs_call → option string :=
  λ c, match c with
       | Call_is_directory p =>
           if bool_decide (p = ["s"; "b"])
           then Some "Input/output error" else None
       | _ => None
       end.

(** Copying s/a/kick.wav onto d/Drums/Kick/kick.wav is refused. *)
Definition refuse_overwrite : fs_call → option string :=
  λ c, match c with
       | Call_copy_file from to =>
           if bool_decide (from = ["s"; "a"; "kick.wav"])
              && bool_decide (to = ["d"; "Drums"; "Kick"; "kick.wav"])
           then Some "No space left on device" else None
       | _ => None
       end.

(** A library in which no two files share a name, as a table and as a
    tree. *)
Definition tidy_library : list (path * node) :=
  [ (["s"], Dir ["drums"; "readme.txt"; "Vox_Chop.MP3"]);
    (["s"; "drums"], Dir ["Kick_01.wav"; "snare_loop.wav"]);
    (["s"; "drums"; "Kick_01.wav"], File "K");
    (["s"; "drums"; "snare_loop.wav"], File "S");
    (["s"; "readme.txt"], File "R");
    (["s"; "Vox_Chop.MP3"], File "V") ].

Definition tidy_tree : forest :=
  Entry "drums"
    (Folder (Entry "Kick_01.wav" (Leaf "K")
               (Entry "snare_loop.wav" (Leaf "S") No_entries)))
    (Entry "readme.txt" (Leaf "R")
       (Entry "Vox_Chop.MP3" (Leaf "V") No_entries)).

(** That library with the eight folders in place ... *)
Definition tidy_store : path → option node :=
  table ((@nil string, Dir ["s"; "d"]) :: tidy_library ++ shelves).

(** ... and before the first run, without a destination. *)
Definition bare_store : path → option node :=
  table ((@nil string, Dir ["s"]) :: tidy_library).

(** Three files called kick.wav in three folders. *)
Definition triplets_library : list (path * node) :=
  [ (["s"], Dir ["a"; "b"; "c"]);
    (["s"; "a"], Dir ["kick.wav"]);
    (["s"; "b"], Dir ["kick.wav"]);
    (["s"; "c"], Dir ["kick.wav"]);
    (["s"; "a"; "kick.wav"], File "1");
    (["s"; "b"; "kick.wav"], File "2");
    (["s"; "c"; "kick.wav"], File "3") ].

Definition triplets_tree : forest :=
  Entry "a" (Folder (Entry "kick.wav" (Leaf "1") No_entries))
    (Entry "b" (Folder (Entry "kick.wav" (Leaf "2") No_entries))
       (Entry "c" (Folder (Entry "kick.wav" (Leaf "3") No_entries))
          No_entries)).

Definition triplets_store : path → option node :=
  table ((@nil string, Dir ["s"; "d"]) :: triplets_library ++ shelves).



(** A folder called kick.wav, with an entry, sits where the file is to
    go. *)
Definition blocked_store : path → option node :=
  table ((["d"; "Drums"; "Kick"; "kick.wav"; "take1.txt"], File "x")
         :: (["d"; "Drums"; "Kick"; "kick.wav"], Dir ["take1.txt"])
         :: (["d"; "Drums"; "Kick"], Dir ["kick.wav"])
         :: (@nil string, Dir ["s"; "d"]) :: library ++ shelves).



(** ** Part II. Properties *)

Lemma index_iterations_bound : Z.of_nat index_iterations = index_bound.
Proof. unfold index_iterations, index_bound. lia. Qed.

#[global] Opaque index_iterations.

(** *** Strings *)

Lemma tolower_idem (c : ascii) : tolower (tolower c) = tolower c.
Proof. destruct c as [[] [] [] [] [] [] [] []]; reflexivity. Qed.

Lemma to_lower_idem (s : string) : to_lower (to_lower s) = to_lower s.
Proof.
  unfold to_lower. induction s as [|c s IH]; simpl; [reflexivity|].
  by rewrite tolower_idem, IH.
Qed.

Lemma append_cons (c : ascii) (a b : string) :
  String c a +:+ b = String c (a +:+ b).
Proof. reflexivity. Qed.

Lemma starts_with_iff (a s : string) :
  starts_with a s = true ↔ ∃ post, s = a +:+ post.
Proof.
  revert s. induction a as [|x a IH]; intros s; simpl.
  - split; [intros _; exists s; reflexivity | done].
  - destruct s as [|y s].
    + split; [done | intros [post H]; discriminate H].
    + rewrite andb_true_iff, IH, Ascii.eqb_eq.
      split.
      * intros [-> [post ->]]. exists post. by rewrite append_cons.
      * intros [post H]. rewrite append_cons in H.
        injection H as -> ->. eauto.
Qed.

Lemma occurs_in_here (needle s : string) :
  starts_with needle s = true → occurs_in needle s.
Proof. intros [post ->]%starts_with_iff. exists "", post. reflexivity. Qed.

Lemma find_from_iff (pos : nat) (s needle : string) :
  is_Some (find_from pos s needle) ↔ occurs_in needle s.
Proof.
  revert pos. induction s as [|c s IH]; intros pos; simpl.
  - destruct (starts_with needle "") eqn:E.
    + split; [intros _; by apply occurs_in_here | by eauto].
    + split; [by intros [? [=]] |].
      intros ([|? pre] & post & H).
      * assert (starts_with needle "" = true) as E'
          by (apply starts_with_iff; exists post; exact H).
        congruence.
      * rewrite append_cons in H. discriminate H.
  - destruct (starts_with needle (String c s)) eqn:E.
    + split; [intros _; by apply occurs_in_here | by eauto].
    + rewrite IH. split.
      * intros (pre & post & ->). exists (String c pre), post.
        by rewrite append_cons.
      * intros ([|x pre] & post & H).
        -- assert (starts_with needle (String c s) = true) as E'
             by (apply starts_with_iff; exists post; exact H).
           congruence.
        -- rewrite append_cons in H. injection H as _ ->. by exists pre, post.
Qed.

Lemma found_iff (s needle : string) :
  found s needle = true ↔ occurs_in needle s.
Proof.
  unfold found, find. rewrite <- (find_from_iff 0).
  destruct (find_from 0 s needle); split; try done; eauto.
Qed.

Lemma found_false_iff (s needle : string) :
  found s needle = false ↔ ¬ occurs_in needle s.
Proof. rewrite <- found_iff. by destruct (found s needle). Qed.

(** *** The classifier *)

Lemma category_of_first_match (s : string) :
  category_of s = first_match rules s.
Proof.
  unfold category_of, rules; simpl.
  repeat match goal with
         | |- context [found s ?n] => destruct (found s n); simpl; try reflexivity
         end.
Qed.

Lemma classify_808 (name : string) :
  occurs_in "808" (to_lower name) → classify name = Drums_808.
Proof.
  intros H%found_iff. unfold classify, category_of. by rewrite H.
Qed.

Lemma first_match_none (rs : list (list string * category)) (s : string) :
  (∀ needles c needle,
     (needles, c) ∈ rs → needle ∈ needles → ¬ occurs_in needle s) →
  first_match rs s = Other_Other.
Proof.
  induction rs as [|[needles c] rs IH]; intros H; simpl; [reflexivity|].
  destruct (existsb (found s) needles) eqn:E.
  - apply existsb_exists in E as (needle & Hin & Hf).
    apply found_iff in Hf. exfalso.
    eapply (H needles c needle); [left | by apply list_elem_of_In | done].
  - apply IH. intros ns c' n Hin. apply (H ns c' n). by right.
Qed.

(** *** File names and extensions *)

Lemma length_append (a b : string) :
  String.length (a +:+ b) = (String.length a + String.length b)%nat.
Proof.
  induction a as [|x a IH]; [reflexivity|].
  rewrite append_cons. simpl. by rewrite IH.
Qed.

Lemma substring_all (t : string) : String.substring 0 (String.length t) t = t.
Proof. induction t as [|x t IH]; simpl; [reflexivity|]. by rewrite IH. Qed.

Lemma substring_skip (a t : string) (n : nat) :
  String.substring (String.length a) n (a +:+ t) = String.substring 0 n t.
Proof.
  induction a as [|x a IH]; [reflexivity|].
  rewrite append_cons. simpl. apply IH.
Qed.

Lemma substring_take (a t : string) :
  String.substring 0 (String.length a) (a +:+ t) = a.
Proof.
  induction a as [|x a IH]; [by destruct t|].
  rewrite append_cons. simpl. by rewrite IH.
Qed.

Lemma rfind_from_split (pos : nat) (s : string) (c : ascii) (i : nat) :
  rfind_from pos s c = Some i →
  ∃ a b, s = a +:+ String c b ∧ i = (pos + String.length a)%nat.
Proof.
  revert pos. induction s as [|x s IH]; intros pos; simpl; [done|].
  destruct (rfind_from (S pos) s c) as [j|] eqn:E.
  - intros [= ->]. destruct (IH _ E) as (a & b & -> & ->).
    exists (String x a), b. rewrite append_cons. split; [done|]. simpl. lia.
  - destruct (Ascii.eqb x c) eqn:Ex; [|done].
    apply Ascii.eqb_eq in Ex as ->. intros [= <-].
    exists "", s. split; [done|]. simpl. lia.
Qed.

Lemma rfind_from_None_pos (p q : nat) (s : string) (c : ascii) :
  rfind_from p s c = None → rfind_from q s c = None.
Proof.
  revert p q. induction s as [|x s IH]; intros p q; simpl; [done|].
  destruct (rfind_from (S p) s c) eqn:E; [done|].
  rewrite (IH _ (S q) E). by destruct (Ascii.eqb x c).
Qed.

Lemma rfind_from_last (pos : nat) (a b : string) (c : ascii) :
  rfind_from 0 b c = None →
  rfind_from pos (a +:+ String c b) c = Some (pos + String.length a)%nat.
Proof.
  intros Hb. revert pos. induction a as [|x a IH]; intros pos.
  - simpl. rewrite (rfind_from_None_pos 0 (S pos) _ _ Hb).
    rewrite Ascii.eqb_refl. f_equal. lia.
  - rewrite append_cons. simpl. rewrite IH. f_equal. lia.
Qed.

Lemma audio_suffix_no_period (e : string) :
  audio_suffix e → rfind_from 0 e "."%char = None ∧ String.length e = 3%nat.
Proof.
  unfold audio_suffix, to_lower.
  destruct e as [|x [|y [|z [|? ?]]]]; simpl; try (intros [H|H]; discriminate H).
  intros H.
  assert (tolower x ≠ "."%char ∧ tolower y ≠ "."%char ∧ tolower z ≠ "."%char)
    as (Hx & Hy & Hz).
  { destruct H as [H|H]; injection H as -> -> ->; done. }
  assert (∀ a, tolower a ≠ "."%char → Ascii.eqb a "." = false) as Hne.
  { intros a Ha. apply Ascii.eqb_neq. by intros ->. }
  by rewrite (Hne x), (Hne y), (Hne z).
Qed.

Lemma extension_of_split (stem_ e : string) :
  stem_ ≠ "" → audio_suffix e →
  extension_of (stem_ +:+ "." +:+ e) = "." +:+ e.
Proof.
  intros Hs He. destruct (audio_suffix_no_period e He) as [Hdot Hlen].
  unfold extension_of, extension_start.
  assert (String.eqb (stem_ +:+ "." +:+ e) "." = false
          ∧ String.eqb (stem_ +:+ "." +:+ e) ".." = false) as [-> ->].
  { split; apply String.eqb_neq; intros H;
      apply (f_equal String.length) in H;
      rewrite !length_append, Hlen in H; simpl in H; lia. }
  simpl. unfold rfind.
  change ("." +:+ e) with (String "."%char e).
  rewrite (rfind_from_last 0 stem_ e "." Hdot). simpl.
  destruct (String.length stem_) eqn:El.
  { destruct stem_; [done | discriminate El]. }
  rewrite <- El, length_append.
  replace (String.length stem_ + String.length (String "." e)
           - String.length stem_)%nat
    with (String.length (String "."%char e)) by lia.
  by rewrite substring_skip, substring_all.
Qed.

Lemma extension_of_nonempty (name : string) :
  extension_of name ≠ "" →
  ∃ stem_ e, name = stem_ +:+ "." +:+ e ∧ stem_ ≠ ""
             ∧ extension_of name = "." +:+ e ∧ stem_of name = stem_.
Proof.
  unfold extension_of, stem_of, extension_start.
  destruct (String.eqb name "." || String.eqb name ".."); [done|].
  unfold rfind. destruct (rfind_from 0 name ".") as [[|i]|] eqn:E; try done.
  intros _. apply rfind_from_split in E as (a & b & -> & Hi). simpl in Hi.
  exists a, b. rewrite Hi. split; [done|]. split.
  { intros ->. discriminate Hi. }
  rewrite length_append.
  replace (String.length a + String.length (String "." b)
           - String.length a)%nat
    with (String.length (String "."%char b)) by lia.
  by rewrite substring_skip, substring_all, substring_take.
Qed.

Lemma is_audio_file_iff (p : path) :
  is_audio_file p = true ↔
  ∃ stem_ e, filename p = stem_ +:+ "." +:+ e ∧ stem_ ≠ "" ∧ audio_suffix e.
Proof.
  unfold is_audio_file, extension. rewrite orb_true_iff, !String.eqb_eq.
  split.
  - intros H.
    destruct (extension_of_nonempty (filename p)) as (s & e & Hn & Hs & He & _).
    { intros Hx. rewrite Hx in H. destruct H as [H|H]; discriminate H. }
    exists s, e. split; [done|]. split; [done|].
    rewrite He in H. unfold audio_suffix.
    change ("." +:+ e) with (String "."%char e) in H.
    unfold to_lower in *. simpl in H.
    destruct H as [H|H]; injection H as H; auto.
  - intros (s & e & -> & Hs & He). rewrite (extension_of_split s e Hs He).
    change ("." +:+ e) with (String "."%char e). unfold to_lower. simpl.
    destruct He as [He|He]; unfold to_lower in He; rewrite He; auto.
Qed.

(** *** Paths *)

Lemma canon_app (ci : bool) (p q : path) :
  canon ci (p ++ q) = canon ci p ++ canon ci q.
Proof. destruct ci; simpl; [apply fmap_app | reflexivity]. Qed.

Lemma length_canon (ci : bool) (p : path) : length (canon ci p) = length p.
Proof. destruct ci; simpl; [apply length_fmap | reflexivity]. Qed.

Lemma canon_prefix (ci : bool) (p q : path) :
  p `prefix_of` q → canon ci p `prefix_of` canon ci q.
Proof. intros [k ->]. rewrite canon_app. by apply prefix_app_r. Qed.

Lemma parent_path_snoc (p : path) (name : string) :
  parent_path (p // name) = p.
Proof. apply removelast_last. Qed.

Lemma filename_snoc (p : path) (name : string) : filename (p // name) = name.
Proof. apply last_last. Qed.

Lemma parent_path_prefix (p : path) : parent_path p `prefix_of` p.
Proof.
  destruct (decide (p = [])) as [->|Hne]; [done|].
  exists [List.last p ""]. by apply app_removelast_last.
Qed.

Lemma below_snoc (d : path) (name : string) : below d (d // name).
Proof. by exists name, []. Qed.

Lemma below_trans (d p : path) (name : string) :
  below d p → below d (p // name).
Proof.
  intros (n & rest & ->). exists n, (rest ++ [name]).
  unfold path_append. by rewrite <- app_assoc.
Qed.

Lemma below_prefix (d p : path) : below d p → d `prefix_of` p.
Proof. intros (n & rest & ->). by apply prefix_app_r. Qed.

Lemma below_parent (d p : path) : below d p → d `prefix_of` parent_path p.
Proof.
  intros (n & rest & ->). unfold parent_path.
  rewrite removelast_app by done. by apply prefix_app_r.
Qed.

Lemma candidate_below (source destination : path) :
  below destination (candidate source destination).
Proof. unfold candidate. do 2 apply below_trans. apply below_snoc. Qed.

Lemma candidate_length (source destination : path) :
  length (candidate source destination) = (length destination + 3)%nat.
Proof. unfold candidate, path_append. rewrite !length_app. simpl. lia. Qed.

Lemma candidate_filename (source destination : path) :
  filename (candidate source destination) = filename source.
Proof. unfold candidate. apply filename_snoc. Qed.

(** *** The monad *)

Section Respects.
Context (R : relation world) `{!PreOrder R}.

Lemma respects_ret {A : Type} (a : A) : respects R (mret a).
Proof. intros w r w' [= <- <-]. reflexivity. Qed.

Lemma respects_bind {A B : Type} (m : M A) (f : A → M B) :
    respects R m → (∀ a, respects R (f a)) → respects R (m ≫= f).
Proof.
    intros Hm Hf w r w'. unfold mbind, M_bind.
    destruct (m w) as [[a|e|] w1] eqn:E; intros H.
    - transitivity w1; [by eapply Hm | by eapply Hf].
    - injection H as <- <-. by eapply Hm.
    - injection H as <- <-. by eapply Hm.
Qed.

Lemma respects_try_catch (m : M unit) (h : string → M unit) :
    respects R m → (∀ e, respects R (h e)) → respects R (try_catch m h).
Proof.
    intros Hm Hh w r w'. unfold try_catch.
    destruct (m w) as [[a|e|] w1] eqn:E; intros H.
    - injection H as <- <-. by eapply Hm.
    - transitivity w1; [by eapply Hm | by eapply Hh].
    - injection H as <- <-. by eapply Hm.
Qed.

Lemma respects_when (b : bool) (m : M unit) :
    respects R m → respects R (when b m).
Proof. destruct b; [done | intros _; apply respects_ret]. Qed.

Lemma respects_guarded {A : Type} (c : fs_call) (m : M A) :
    respects R m → respects R (guarded c m).
Proof.
    intros Hm w r w'. unfold guarded. destruct (fault w c).
    - intros [= <- <-]. reflexivity.
    - apply Hm.
Qed.

Lemma respects_for_each (entries : list path) (body : path → M unit) :
    (∀ entry, respects R (body entry)) → respects R (for_each entries body).
Proof.
    intros Hb. induction entries as [|entry rest IH]; simpl.
    - apply respects_ret.
    - apply respects_bind; [apply Hb | intros _; apply IH].
Qed.

Lemma respects_fs_exists (p : path) : respects R (fs_exists p).
Proof.
    apply respects_guarded. intros w r w' [= <- <-]. reflexivity.
Qed.

Lemma respects_is_directory (p : path) : respects R (is_directory p).
Proof.
    apply respects_guarded. intros w r w' [= <- <-]. reflexivity.
Qed.

Lemma respects_directory_iterator (p : path) :
    respects R (directory_iterator p).
Proof.
    apply respects_guarded. intros w r w'.
    destruct (lookup_path w p) as [[|]|]; intros [= <- <-]; reflexivity.
Qed.

Lemma respects_file_already_processed (p : path) :
    respects R (file_already_processed p).
Proof. intros w r w' [= <- <-]. reflexivity. Qed.
End Respects.

(** *** How a run changes the state *)

Section Evolves.
Context (ok : action → Prop) (d : path) (L : nat).

Lemma evolves_refl (w : world) : evolves ok d L w w.
Proof.
  split; try done.
  - exists []. by rewrite app_nil_r.
  - exists []. by rewrite app_nil_r.
Qed.

Lemma evolves_trans (w1 w2 w3 : world) :
  evolves ok d L w1 w2 → evolves ok d L w2 w3 → evolves ok d L w1 w3.
Proof.
  intros [c1 f1 p1 s1 l1 (h1 & Hh1 & Ht1) (o1 & Ho1)]
         [c2 f2 p2 s2 l2 (h2 & Hh2 & Ht2) (o2 & Ho2)].
  split.
  - congruence.
  - congruence.
  - set_solver.
  - intros k Hk. rewrite s2, s1; [done | done |].
    unfold key. rewrite c1. exact Hk.
  - auto.
  - exists (h1 ++ h2). split; [by rewrite Hh2, Hh1, app_assoc |].
    by apply Forall_app.
  - exists (o1 ++ o2). by rewrite Ho2, Ho1, app_assoc.
Qed.

#[global] Instance evolves_preorder :
  PreOrder (evolves ok d L).
Proof. split; [intros w; apply evolves_refl | intros ???; apply evolves_trans]. Qed.

Lemma evolves_print (o : output) :
  respects (evolves ok d L) (print o).
Proof.
  intros w r w' [= <- <-]. split; try done.
  - exists []. by rewrite app_nil_r.
  - by exists [o].
Qed.

Lemma evolves_note (a : action) :
  ok a → respects (evolves ok d L) (note a).
Proof.
  intros Ha w r w' [= <- <-]. split; try done.
  - exists [a]. split; [done | by constructor].
  - exists []. by rewrite app_nil_r.
Qed.

Lemma evolves_with_store (w : world)
    (s : path → option node) :
  (∀ k, ¬ near (key w d) k → s k = store w k) →
  (∀ k, s k ≠ None → store w k ≠ None ∨ (length k ≤ L)%nat) →
  evolves ok d L w (with_store s w).
Proof.
  intros Hf Hl. split; try done.
  - intros Hs k Hk. destruct (Hl k Hk) as [H|H]; [by apply Hs | done].
  - exists []. by rewrite app_nil_r.
  - exists []. by rewrite app_nil_r.
Qed.

Lemma evolves_link (w : world) (p : path) (n : node)
    (names : list string) :
  d `prefix_of` p ∨ p `prefix_of` d →
  d `prefix_of` parent_path p ∨ parent_path p `prefix_of` d →
  (length p ≤ L)%nat →
  lookup_path w (parent_path p) ≠ None →
  evolves ok d L w (link w p n names).
Proof.
  intros Hp Hq Hl Hpar. apply evolves_with_store.
  - intros k Hk.
    rewrite fn_lookup_insert_ne, fn_lookup_insert_ne; [done | |].
    + intros <-. apply Hk. unfold near, key.
      destruct Hq; [right | left]; by apply canon_prefix.
    + intros <-. apply Hk. unfold near, key.
      destruct Hp; [right | left]; by apply canon_prefix.
  - intros k. destruct (decide (key w p = k)) as [<-|Hne].
    { intros _. right. unfold key. by rewrite length_canon. }
    rewrite fn_lookup_insert_ne by done.
    destruct (decide (key w (parent_path p) = k)) as [<-|Hne'].
    { intros _. by left. }
    rewrite fn_lookup_insert_ne by done. by left.
Qed.

Lemma evolves_unlink (w : world) (p : path) :
  below d p → evolves ok d L w (unlink w p).
Proof.
  intros Hp. unfold unlink. apply evolves_with_store.
  - intros k Hk. rewrite fn_lookup_insert_ne.
    2:{ intros <-. apply Hk. right. apply canon_prefix.
        by apply below_prefix. }
    destruct (lookup_path w (parent_path p)) as [[|names]|]; try done.
    rewrite fn_lookup_insert_ne; [done|].
    intros <-. apply Hk. right. apply canon_prefix. by apply below_parent.
  - intros k. destruct (decide (key w p = k)) as [<-|Hne].
    { by rewrite fn_lookup_insert. }
    rewrite fn_lookup_insert_ne by done.
    destruct (lookup_path w (parent_path p)) as [[|names]|] eqn:E; auto.
    destruct (decide (key w (parent_path p) = k)) as [<-|Hne'].
    + intros _. left. unfold lookup_path in E. by rewrite E.
    + rewrite fn_lookup_insert_ne by done. auto.
Qed.

Lemma evolves_make_directories (rest made : path) (created : bool) :
  d `prefix_of` made ++ rest → (length (made ++ rest) ≤ L)%nat →
  respects (evolves ok d L) (make_directories made rest created).
Proof.
  revert made created.
  induction rest as [|name rest IH]; intros made created Hd HL.
  { apply respects_ret. apply _. }
  assert ((made // name) ++ rest = made ++ name :: rest) as Eq.
  { unfold path_append. by rewrite <- app_assoc. }
  assert (made // name `prefix_of` made ++ name :: rest) as Hq.
  { rewrite <- Eq. by apply prefix_app_r. }
  intros w r w'. simpl.
  destruct (lookup_path w (made // name)) as [[data|names]|] eqn:E.
  - intros [= <- <-]. reflexivity.
  - apply IH; by rewrite Eq.
  - destruct (lookup_path w made) as [[data|names]|] eqn:E';
      try (intros [= <- <-]; reflexivity).
    intros H. transitivity (link w (made // name) (Dir []) names).
    + apply evolves_link.
      * destruct (prefix_weak_total _ _ _ Hd Hq); auto.
      * rewrite parent_path_snoc.
        assert (made `prefix_of` made ++ name :: rest) as Hm
          by by apply prefix_app_r.
        destruct (prefix_weak_total _ _ _ Hd Hm); auto.
      * apply prefix_length in Hq. lia.
      * rewrite parent_path_snoc, E'. done.
    + revert H. apply IH; by rewrite Eq.
Qed.

Lemma evolves_fs_create_directories (p : path) :
  d `prefix_of` p → (length p ≤ L)%nat →
  respects (evolves ok d L) (fs_create_directories p).
Proof.
  intros Hd HL. apply respects_guarded; [apply _|].
  destruct p as [|n p]; [intros w r w' [= <- <-]; reflexivity|].
  by apply evolves_make_directories.
Qed.

Hypothesis ok_copy : ∀ from to, below d to → ok (Copy from to).
Hypothesis ok_remove : ∀ p, below d p → ok (Remove p).

Lemma evolves_fs_copy_file (from to : path) :
  below d to → (length to ≤ L)%nat →
  respects (evolves ok d L) (fs_copy_file from to).
Proof.
  intros Hd HL. apply respects_guarded; [apply _|]. intros w r w'.
  destruct (lookup_path w from) as [[data|?]|];
    try (intros [= <- <-]; reflexivity).
  destruct (lookup_path w to); try (intros [= <- <-]; reflexivity).
  destruct (lookup_path w (parent_path to)) as [[?|names]|] eqn:E;
    try (intros [= <- <-]; reflexivity).
  intros [= <- <-].
  transitivity (link w to (File data) names).
  - apply evolves_link; auto using below_prefix, below_parent.
    by rewrite E.
  - by apply (evolves_note (Copy from to) (ok_copy from to Hd)
                (link w to (File data) names) (Normal tt)).
Qed.

Lemma evolves_fs_remove (p : path) :
  below d p → respects (evolves ok d L) (fs_remove p).
Proof.
  intros Hd. apply respects_bind; [apply _ | by apply evolves_note, ok_remove |].
  intros _. apply respects_guarded; [apply _|]. intros w r w'.
  destruct (lookup_path w p) as [[data|[|??]]|]; intros [= <- <-];
    try reflexivity; by apply evolves_unlink.
Qed.

Lemma evolves_processed_files_insert (name : string) :
  respects (evolves ok d L) (processed_files_insert name).
Proof.
  intros w r w' [= <- <-]. split; try done.
  - simpl. set_solver.
  - exists []. by rewrite app_nil_r.
  - exists []. by rewrite app_nil_r.
Qed.

Lemma evolves_indexed_copy (n : nat) (i : Z)
    (source : path) (print_info : bool) :
  (length d + 3 ≤ L)%nat →
  respects (evolves ok d L) (indexed_copy n i source d print_info).
Proof.
  intros HL. revert i. induction n as [|n IH]; intros i; simpl.
  { apply respects_ret. apply _. }
  apply respects_bind; [apply _ | apply respects_fs_exists; apply _ |].
  intros e. destruct e; simpl; [apply IH|].
  apply respects_bind; [apply _ | |].
  - apply evolves_fs_copy_file; [apply below_snoc|].
    unfold path_append. rewrite length_app. simpl. lia.
  - intros _. apply respects_when; [apply _ | apply evolves_print].
Qed.

Lemma evolves_place (source : path)
    (print_info : bool) :
  (length d + 3 ≤ L)%nat →
  respects (evolves ok d L)
    (place source d (candidate source d) print_info).
Proof.
  intros HL. pose proof (candidate_below source d) as Hb.
  pose proof (candidate_length source d) as Hlen.
  assert (∀ {A} (m : M A), respects (evolves ok d L) m →
            respects (evolves ok d L) (m ;; when print_info
              (print_file_move_info source (candidate source d)))) as Hcp.
  { intros A m Hm. apply respects_bind; [apply _ | done |].
    intros _. apply respects_when; [apply _ | apply evolves_print]. }
  unfold place, create_parent_directories.
  repeat (apply respects_bind; [apply _ | | intros ?]).
  - apply evolves_fs_create_directories; [by apply below_parent|].
    pose proof (prefix_length _ _ (parent_path_prefix (candidate source d))).
    lia.
  - apply respects_ret. apply _.
  - apply respects_when; [apply _ | apply evolves_print].
  - apply respects_fs_exists. apply _.
  - destruct a1; cbn [negb].
    + apply respects_bind; [apply _ | |].
      { apply respects_file_already_processed. apply _. }
      intros p. destruct p; cbn [negb].
      * by apply evolves_indexed_copy.
      * apply respects_bind; [apply _ | by apply evolves_fs_remove |].
        intros _. apply Hcp. apply evolves_fs_copy_file; [done | lia].
    + apply Hcp. apply evolves_fs_copy_file; [done | lia].
  - apply evolves_processed_files_insert.
Qed.
End Evolves.

Lemma evolves_organize_file (d : path) (L : nat) (source : path)
    (print_info : bool) :
  (length d + 3 ≤ L)%nat →
  respects (evolves (targets d) d L) (organize_file source d print_info).
Proof.
  intros HL. unfold organize_file.
  apply respects_bind; [apply _ | by apply evolves_note |]. intros _.
  destruct (negb (is_audio_file source)).
  - apply respects_ret. apply _.
  - apply respects_try_catch; [apply _ | by apply evolves_place |].
    intros e. apply evolves_print.
Qed.

Lemma respects_process_directory (R : relation world) `{!PreOrder R}
    (d : path) (print_info : bool) :
  (∀ o, respects R (print o)) →
  (∀ source, respects R (organize_file source d print_info)) →
  ∀ fuel source, respects R (process_directory fuel source d print_info).
Proof.
  intros Hprint Horg fuel.
  induction fuel as [|fuel IH]; intros source; simpl.
  { intros w r w' [= <- <-]. reflexivity. }
  apply respects_try_catch; [apply _ | | intros e; apply Hprint].
  apply respects_bind; [apply _ | by apply respects_directory_iterator |].
  intros entries. apply respects_for_each; [apply _|]. intros entry.
  unfold visit_entry.
  apply respects_bind; [apply _ | by apply respects_is_directory |].
  intros dir. destruct dir; [apply IH | apply Horg].
Qed.

Lemma evolves_process_directory (d : path) (L : nat) (fuel : nat)
    (source : path) (print_info : bool) :
  (length d + 3 ≤ L)%nat →
  respects (evolves (targets d) d L) (process_directory fuel source d print_info).
Proof.
  intros HL. apply respects_process_directory; [apply _ | |].
  - apply evolves_print.
  - intros s. by apply evolves_organize_file.
Qed.

Lemma evolves_main (d : path) (L : nat) (fuel : nat) (source : path)
    (print_info : bool) :
  (length d + 3 ≤ L)%nat →
  respects (evolves (targets d) d L) (main fuel source d print_info).
Proof.
  intros HL. unfold main.
  assert (∀ a b, respects (evolves (targets d) d L) (fs_create_directories (d // a // b)))
    as Hmk.
  { intros a b. apply evolves_fs_create_directories.
    - unfold path_append. rewrite <- app_assoc. by apply prefix_app_r.
    - unfold path_append. rewrite !length_app. simpl. lia. }
  apply respects_bind; [apply _ | apply evolves_print | intros _].
  apply respects_bind; [apply _ | apply respects_fs_exists; apply _ |].
  intros e. destruct e; cbn [negb].
  - repeat (apply respects_bind; [apply _ | try apply Hmk | intros _]);
      try apply evolves_print.
    + by apply evolves_process_directory.
    + apply respects_ret. apply _.
  - apply respects_bind; [apply _ | apply evolves_print | intros _].
    apply respects_ret. apply _.
Qed.

(** *** Inverting a run *)

Lemma bind_inv {A B : Type} (m : M A) (f : A → M B) (w : world)
    (r : outcome B) (w' : world) :
  (m ≫= f) w = (r, w') →
  (∃ a w1, m w = (Normal a, w1) ∧ f a w1 = (r, w'))
  ∨ (∃ e, m w = (Throw e, w') ∧ r = Throw e)
  ∨ (m w = (Out_of_fuel, w') ∧ r = Out_of_fuel).
Proof.
  unfold mbind, M_bind. destruct (m w) as [[a|e|] w1]; intros H.
  - left. eauto.
  - right. left. injection H as <- <-. eauto.
  - right. right. by injection H as <- <-.
Qed.

Lemma when_inv (b : bool) (m : M unit) (w : world) (r : outcome unit)
    (w' : world) :
  when b m w = (r, w') →
  (b = true ∧ m w = (r, w')) ∨ (b = false ∧ r = Normal tt ∧ w' = w).
Proof. destruct b; [by left | intros [= <- <-]; by right]. Qed.

Lemma guarded_calm {A : Type} (c : fs_call) (m : M A) (w : world) :
  fault w c = None → guarded c m w = m w.
Proof. unfold guarded. by intros ->. Qed.

(** A computation that never runs out of fuel. *)
Lemma halts_bind {A B : Type} (m : M A) (f : A → M B) :
  (∀ w w', m w ≠ (Out_of_fuel, w')) →
  (∀ a w w', f a w ≠ (Out_of_fuel, w')) →
  ∀ w w', (m ≫= f) w ≠ (Out_of_fuel, w').
Proof.
  intros Hm Hf w w' H.
  apply bind_inv in H as [(a & w1 & _ & H) | [(e & _ & H) | [H _]]].
  - by eapply Hf.
  - discriminate H.
  - by eapply Hm.
Qed.

Lemma halts_ret {A : Type} (a : A) (w w' : world) :
  (mret a : M A) w ≠ (Out_of_fuel, w').
Proof. intros [=]. Qed.

Lemma halts_guarded {A : Type} (c : fs_call) (m : M A) :
  (∀ w w', m w ≠ (Out_of_fuel, w')) →
  ∀ w w', guarded c m w ≠ (Out_of_fuel, w').
Proof. intros Hm w w'. unfold guarded. destruct (fault w c); [done | apply Hm]. Qed.

Lemma halts_when (b : bool) (m : M unit) :
  (∀ w w', m w ≠ (Out_of_fuel, w')) →
  ∀ w w', when b m w ≠ (Out_of_fuel, w').
Proof. intros Hm w w'. destruct b; [apply Hm | apply halts_ret]. Qed.

Lemma halts_print (o : output) (w w' : world) : print o w ≠ (Out_of_fuel, w').
Proof. intros [=]. Qed.

Lemma halts_make_directories (rest made : path) (created : bool)
    (w w' : world) :
  make_directories made rest created w ≠ (Out_of_fuel, w').
Proof.
  revert made created w.
  induction rest as [|name rest IH]; intros made created w; simpl.
  - apply halts_ret.
  - destruct (lookup_path w (made // name)) as [[?|?]|]; [done | apply IH |].
    destruct (lookup_path w made) as [[?|?]|]; [done | apply IH | done].
Qed.

Lemma halts_fs_create_directories (p : path) (w w' : world) :
  fs_create_directories p w ≠ (Out_of_fuel, w').
Proof.
  apply halts_guarded. destruct p as [|n p]; [by intros ?? [=]|].
  intros ??. apply halts_make_directories.
Qed.

Lemma halts_fs_exists (p : path) (w w' : world) :
  fs_exists p w ≠ (Out_of_fuel, w').
Proof. apply halts_guarded. by intros ?? [=]. Qed.

Lemma halts_fs_copy_file (from to : path) (w w' : world) :
  fs_copy_file from to w ≠ (Out_of_fuel, w').
Proof.
  apply halts_guarded. clear. intros w w'.
  destruct (lookup_path w from) as [[?|?]|]; try done.
  destruct (lookup_path w to); try done.
  by destruct (lookup_path w (parent_path to)) as [[?|?]|].
Qed.

Lemma halts_fs_remove (p : path) (w w' : world) :
  fs_remove p w ≠ (Out_of_fuel, w').
Proof.
  apply halts_bind; [by intros ?? [=]|]. intros _. apply halts_guarded.
  clear. intros w w'. by destruct (lookup_path w p) as [[?|[|??]]|].
Qed.

Lemma halts_copy_and_print (from to : path) (print_info : bool)
    (w w' : world) :
  (fs_copy_file from to ;;
   when print_info (print_file_move_info from to)) w ≠ (Out_of_fuel, w').
Proof.
  apply halts_bind; [apply halts_fs_copy_file|].
  intros _. apply halts_when. apply halts_print.
Qed.

Lemma halts_indexed_copy (n : nat) (i : Z) (source d : path)
    (print_info : bool) (w w' : world) :
  indexed_copy n i source d print_info w ≠ (Out_of_fuel, w').
Proof.
  revert i w w'. induction n as [|n IH]; intros i w w'; simpl.
  { apply halts_ret. }
  apply halts_bind; [apply halts_fs_exists|].
  intros e. destruct e; cbn [negb]; [apply IH|].
  apply halts_copy_and_print.
Qed.

Lemma halts_place (source d dest_path : path) (print_info : bool)
    (w w' : world) :
  place source d dest_path print_info w ≠ (Out_of_fuel, w').
Proof.
  unfold place, create_parent_directories.
  apply halts_bind.
  { apply halts_bind; [|intros ?; apply halts_ret].
    apply halts_fs_create_directories. }
  intros _. apply halts_bind; [apply halts_when, halts_print|].
  intros _. apply halts_bind; [apply halts_fs_exists|].
  intros e. apply halts_bind; [|by intros ??? [=]].
  destruct e; cbn [negb]; [|apply halts_copy_and_print].
  apply halts_bind; [by intros ?? [=]|].
  intros p. destruct p; cbn [negb]; [apply halts_indexed_copy|].
  apply halts_bind; [apply halts_fs_remove|].
  intros _. apply halts_copy_and_print.
Qed.

(** organize_file always returns: whatever its try block does is either
    a normal end or a filesystem_error, and the handler only prints. *)
Lemma organize_file_run (source d : path) (print_info : bool) (w : world) :
  let w0 := with_history (history w ++ [Organize source]) w in
  organize_file source d print_info w =
    if negb (is_audio_file source) then (Normal tt, w0)
    else match place source d (candidate source d) print_info w0 with
         | (Throw what, w1) =>
             (Normal tt,
              with_console (console w1 ++ [Error_copying_file what]) w1)
         | r => r
         end.
Proof.
  unfold organize_file, mbind, M_bind, note. cbn zeta.
  destruct (negb (is_audio_file source)); [done|].
  unfold try_catch.
  by destruct (place _ _ _ _ _) as [[[]|?|] ?].
Qed.

Lemma organize_file_returns (source d : path) (print_info : bool)
    (w : world) :
  ∃ w', organize_file source d print_info w = (Normal tt, w').
Proof.
  rewrite organize_file_run. cbn zeta.
  destruct (negb (is_audio_file source)); [by eauto|].
  destruct (place _ _ _ _ _) as [[[]|?|] w1] eqn:E; eauto.
  by apply halts_place in E.
Qed.

Lemma process_directory_catches_all (fuel : nat) (source d : path)
    (print_info : bool) :
  catches_all (process_directory fuel source d print_info).
Proof.
  intros w what w'. destruct fuel as [|fuel]; simpl; [done|].
  unfold try_catch.
  by destruct (_ ≫= _) as [[[]|?|] ?].
Qed.

(** *** The registry and the copies *)

#[global] Instance ghost_neutral_preorder : PreOrder ghost_neutral.
Proof.
  split; [by intros w | intros w1 w2 w3 [H1 H2] [H3 H4]].
  split; congruence.
Qed.

#[global] Instance keeps_registry_sound_preorder :
  PreOrder keeps_registry_sound.
Proof.
  split; [by intros w | intros w1 w2 w3 [H1 H2] [H3 H4]].
  split; [set_solver | auto].
Qed.

Lemma ghost_neutral_keeps (w w' : world) :
  ghost_neutral w w' → keeps_registry_sound w w'.
Proof.
  intros [Hp Hc]. split; [by rewrite Hp|].
  unfold registry_sound. by rewrite Hp, Hc.
Qed.

Lemma respects_neutral_keeps {A : Type} (m : M A) :
  respects ghost_neutral m → respects keeps_registry_sound m.
Proof. intros H w r w' E. apply ghost_neutral_keeps. by eapply H. Qed.

Lemma copies_snoc (w w' : world) (a : action) :
  history w' = history w ++ [a] →
  copies w' = copies w ++ match a with
                          | Copy from to => [(from, to)]
                          | _ => []
                          end.
Proof.
  intros H. unfold copies. rewrite H, omap_app.
  destruct a; simpl; by rewrite ?app_nil_r.
Qed.

Lemma neutral_print (o : output) : respects ghost_neutral (print o).
Proof. by intros w r w' [= <- <-]. Qed.

Lemma neutral_note (a : action) :
  (∀ from to, a ≠ Copy from to) → respects ghost_neutral (note a).
Proof.
  intros Ha w r w' [= <- <-]. split; [done|].
  rewrite (copies_snoc w _ a) by done.
  destruct a; rewrite ?app_nil_r; try done. by destruct (Ha from to).
Qed.

Lemma neutral_make_directories (rest made : path) (created : bool) :
  respects ghost_neutral (make_directories made rest created).
Proof.
  revert made created.
  induction rest as [|name rest IH]; intros made created w r w'; simpl.
  { by intros [= <- <-]. }
  destruct (lookup_path w (made // name)) as [[?|?]|];
    [by intros [= <- <-] | apply IH |].
  destruct (lookup_path w made) as [[?|names]|]; try by intros [= <- <-].
  intros H. apply IH in H. destruct H as [H1 H2]. by split.
Qed.

Lemma neutral_fs_create_directories (p : path) :
  respects ghost_neutral (fs_create_directories p).
Proof.
  apply respects_guarded; [apply _|].
  destruct p as [|n p]; [intros w r w' [= <- <-]; reflexivity|].
  apply neutral_make_directories.
Qed.

Lemma neutral_fs_remove (p : path) : respects ghost_neutral (fs_remove p).
Proof.
  apply respects_bind; [apply _ | by apply neutral_note |].
  intros _. apply respects_guarded; [apply _|]. intros w r w'.
  by destruct (lookup_path w p) as [[?|[|??]]|]; intros [= <- <-].
Qed.

Lemma placed_after_neutral (source : path) (w w1 w' : world) {A : Type}
    (r : outcome A) :
  ghost_neutral w w1 → placed source w1 r w' → placed source w r w'.
Proof.
  intros [Hp Hc] [Hp' H]. split; [congruence|].
  rewrite <- Hp, <- Hc. exact H.
Qed.

Lemma placed_then_neutral (source : path) (w w1 w' : world) {A : Type}
    (r : outcome A) :
  placed source w r w1 → ghost_neutral w1 w' → placed source w r w'.
Proof.
  intros [Hp' H] [Hp Hc]. split; [congruence|]. by rewrite Hc.
Qed.

Lemma fs_copy_file_ghost (from to : path) (w w' : world) (r : outcome bool) :
  fs_copy_file from to w = (r, w') →
  processed_files w' = processed_files w
  ∧ match r with
    | Normal _ => copies w' = copies w ++ [(from, to)]
    | _ => copies w' = copies w
    end.
Proof.
  unfold fs_copy_file, guarded. destruct (fault w _); [by intros [= <- <-]|].
  destruct (lookup_path w from) as [[data|?]|]; try by intros [= <- <-].
  destruct (lookup_path w to); try by intros [= <- <-].
  destruct (lookup_path w (parent_path to)) as [[?|names]|];
    try by intros [= <- <-].
  intros [= <- <-]. split; [done|].
  by rewrite (copies_snoc (link w to (File data) names) _ (Copy from to)).
Qed.

Lemma placed_copy_and_print (source to : path) (print_info : bool)
    (w w' : world) (r : outcome unit) :
  (fs_copy_file source to ;;
   when print_info (print_file_move_info source to)) w = (r, w') →
  placed source w r w'.
Proof.
  intros H. apply bind_inv in H as [(a & w1 & E & H) | [(e & E & ->) | [E ->]]].
  - apply fs_copy_file_ghost in E as [Hp Hc].
    assert (r = Normal tt ∧ ghost_neutral w1 w') as [-> Hn].
    { apply when_inv in H as [[_ H] | (_ & -> & ->)]; [|done].
      by injection H as <- <-. }
    apply (placed_then_neutral source w w1 w' (Normal tt)); [|done].
    split; [done|]. left. eauto.
  - by apply fs_copy_file_ghost in E.
  - by apply halts_fs_copy_file in E.
Qed.

Lemma indexed_copy_ghost (n : nat) (i : Z) (source d : path)
    (print_info : bool) (w w' : world) (r : outcome unit) :
  to_lower (filename source) ∈ processed_files w →
  indexed_copy n i source d print_info w = (r, w') →
  placed source w r w'.
Proof.
  intros Hin. revert i. induction n as [|n IH]; intros i; simpl.
  { intros [= <- <-]. split; [done|]. by right. }
  intros H. apply bind_inv in H as [(e & w1 & E & H) | [(e & E & ->) | [E ->]]].
  - apply (respects_fs_exists eq) in E as ->.
    destruct e; cbn [negb] in H; [by eapply IH|].
    by eapply placed_copy_and_print.
  - by apply (respects_fs_exists eq) in E as ->.
  - by apply halts_fs_exists in E.
Qed.

(** The ghost effect of the try block. *)
Lemma place_ghost (source d dest_path : path) (print_info : bool)
    (w w' : world) (r : outcome unit) :
  filename dest_path = filename source →
  place source d dest_path print_info w = (r, w') →
  match r with
  | Normal _ =>
      processed_files w' = {[to_lower (filename source)]} ∪ processed_files w
      ∧ ((∃ to, copies w' = copies w ++ [(source, to)])
         ∨ (copies w' = copies w
            ∧ to_lower (filename source) ∈ processed_files w))
  | _ => ghost_neutral w w'
  end.
Proof.
  intros Hname H. unfold place, create_parent_directories in H.
  apply bind_inv in H as [(a & w1 & E & H) | [(e & E & ->) | [E ->]]].
  2:{ by apply (respects_bind ghost_neutral) in E;
        [| apply neutral_fs_create_directories
         | intros ?; apply respects_ret; apply _]. }
  2:{ by apply (respects_bind ghost_neutral) in E;
        [| apply neutral_fs_create_directories
         | intros ?; apply respects_ret; apply _]. }
  apply (respects_bind ghost_neutral) in E;
    [| apply neutral_fs_create_directories
     | intros ?; apply respects_ret; apply _].
  apply bind_inv in H as [(a' & w2 & E' & H) | [(e & E' & ->) | [E' ->]]].
  2,3: apply (respects_when ghost_neutral) in E';
    [by transitivity w1 | apply neutral_print].
  apply (respects_when ghost_neutral) in E'; [|apply neutral_print].
  assert (ghost_neutral w w2) as Hn by by transitivity w1.
  clear E E' a a' w1.
  apply bind_inv in H as [(e & w3 & E & H) | [(e & E & ->) | [E ->]]].
  2,3: by apply (respects_fs_exists eq) in E as ->.
  apply (respects_fs_exists eq) in E as <-.
  apply bind_inv in H as [([] & w4 & E & H) | [(what & E & ->) | [E ->]]].
  - (* the copy step ended normally; the insert follows *)
    injection H as <- <-. simpl.
    assert (placed source w2 (Normal tt) w4) as [Hp Hc].
    { destruct e; cbn [negb] in E; [|by eapply placed_copy_and_print].
      apply bind_inv in E as [(p & w5 & E5 & E) | [(? & E5 & [=]) | [E5 [=]]]].
      injection E5 as <- <-. rewrite Hname in E.
      destruct (bool_decide _) eqn:Ep; cbn [negb] in E.
      - apply bool_decide_eq_true in Ep. by eapply indexed_copy_ghost.
      - apply bind_inv in E as [(b & w6 & E6 & E) | [(? & E6 & [=]) | [E6 [=]]]].
        apply neutral_fs_remove in E6.
        eapply placed_after_neutral; [done|].
        by eapply placed_copy_and_print. }
    destruct Hn as [Hn1 Hn2]. rewrite Hp, Hn1. split; [done|].
    rewrite <- Hn1, <- Hn2. exact Hc.
  - (* the copy step threw *)
    assert (placed source w2 (Throw (A:=unit) what) w') as [Hp Hc].
    { destruct e; cbn [negb] in E; [|by eapply placed_copy_and_print].
      apply bind_inv in E as [(p & w5 & E5 & E) | [(? & [=] & ?) | [[=] ?]]].
      injection E5 as <- <-. rewrite Hname in E.
      destruct (bool_decide _) eqn:Ep; cbn [negb] in E.
      - apply bool_decide_eq_true in Ep. by eapply indexed_copy_ghost.
      - apply bind_inv in E as [(b & w6 & E6 & E) | [(? & E6 & Ee) | [E6 [=]]]].
        + apply neutral_fs_remove in E6.
          eapply placed_after_neutral; [done|].
          by eapply placed_copy_and_print.
        + injection Ee as <-. apply neutral_fs_remove in E6.
          split; apply E6. }
    transitivity w2; [done | by split].
  - exfalso. destruct e; cbn [negb] in E;
      [|by apply halts_copy_and_print in E].
    revert E. apply halts_bind; [by intros ?? [=]|].
    intros p ??. destruct p; cbn [negb]; [apply halts_indexed_copy|].
    apply halts_bind; [apply halts_fs_remove|].
    intros _. apply halts_copy_and_print.
Qed.

Lemma organize_file_keeps (source d : path) (print_info : bool) :
  respects keeps_registry_sound (organize_file source d print_info).
Proof.
  intros w r w'. rewrite organize_file_run. cbn zeta.
  set (w0 := with_history (history w ++ [Organize source]) w).
  assert (ghost_neutral w w0) as H0.
  { by apply (neutral_note (Organize source)) with (r := Normal tt). }
  destruct (negb (is_audio_file source)).
  { intros [= <- <-]. by apply ghost_neutral_keeps. }
  destruct (place _ _ _ _ _) as [[[]|what|] w1] eqn:E; intros [= <- <-].
  - apply place_ghost in E as [Hp Hc]; [|apply candidate_filename].
    transitivity w0; [by apply ghost_neutral_keeps|].
    split; [rewrite Hp; apply union_subseteq_r|].
    intros Hs name. rewrite Hp.
    destruct Hc as [[to Hc] | [Hc Hin]]; rewrite Hc.
    + rewrite elem_of_union, elem_of_singleton, (Hs name). split.
      * intros [->|(from & to' & Hin & Hn)].
        -- exists source, to. split; [|done].
           apply elem_of_app. right. by apply list_elem_of_singleton.
        -- exists from, to'. split; [|done]. apply elem_of_app. by left.
      * intros (from & to' & [Hin|Hin]%elem_of_app & Hn).
        -- right. eauto.
        -- left. apply list_elem_of_singleton in Hin. by injection Hin as -> _.
    + rewrite <- (Hs name), elem_of_union, elem_of_singleton.
      split; [intros [->|?]; done | by right].
  - apply place_ghost in E; [|apply candidate_filename].
    apply ghost_neutral_keeps. transitivity w0; [done|].
    transitivity w1; [done | by split].
  - by apply halts_place in E.
Qed.

Lemma process_directory_keeps (fuel : nat) (source d : path)
    (print_info : bool) :
  respects keeps_registry_sound (process_directory fuel source d print_info).
Proof.
  apply respects_process_directory; [apply _ | |].
  - intros o. apply respects_neutral_keeps, neutral_print.
  - intros s. apply organize_file_keeps.
Qed.

Lemma main_keeps (fuel : nat) (source d : path) (print_info : bool) :
  respects keeps_registry_sound (main fuel source d print_info).
Proof.
  unfold main.
  assert (∀ o, respects keeps_registry_sound (print o)) as Hpr.
  { intros o. apply respects_neutral_keeps, neutral_print. }
  apply respects_bind; [apply _ | apply Hpr | intros _].
  apply respects_bind; [apply _ | apply respects_fs_exists; apply _ |].
  intros e. destruct e; cbn [negb].
  - repeat (apply respects_bind;
            [apply _
            | try apply respects_neutral_keeps, neutral_fs_create_directories
            | intros _]); try apply Hpr.
    + apply process_directory_keeps.
    + apply respects_ret. apply _.
  - apply respects_bind; [apply _ | apply Hpr | intros _].
    apply respects_ret. apply _.
Qed.

Lemma start_registry_sound (ci : bool) (flt : fs_call → option string)
    (s : path → option node) :
  registry_sound (start ci flt s).
Proof.
  intros name. unfold start, copies. simpl. split; [set_solver|].
  intros (from & to & Hin & _). by apply elem_of_nil in Hin.
Qed.

(** *** Runs in which no call is refused *)

Lemma bind_run {A B : Type} (m : M A) (f : A → M B) (w w1 : world) (a : A) :
  m w = (Normal a, w1) → (m ≫= f) w = f a w1.
Proof. unfold mbind, M_bind. by intros ->. Qed.

Lemma when_print_run (print_info : bool) (o : output) (w : world) :
  when print_info (print o) w = (Normal tt, announce print_info o w).
Proof. by destruct print_info. Qed.

Lemma fs_exists_run (p : path) (w : world) :
  fault w (Call_exists p) = None →
  fs_exists p w = (Normal (occupied w p), w).
Proof. intros H. unfold fs_exists. by rewrite guarded_calm. Qed.

Lemma candidate_parent_nonempty (source d : path) :
  parent_path (candidate source d) ≠ [].
Proof.
  unfold candidate, path_append, parent_path.
  rewrite removelast_app by done. simpl. rewrite app_nil_r.
  by destruct d.
Qed.

Lemma make_directories_ready (rest made : path) (created : bool)
    (w : world) :
  dirs_exist w (made ++ rest) →
  ∃ b, make_directories made rest created w = (Normal b, w).
Proof.
  revert made created.
  induction rest as [|name rest IH]; intros made created H; [by eexists|].
  simpl. destruct (H (made // name)) as [names ->].
  { unfold path_append. exists rest. by rewrite <- app_assoc. }
  apply IH. unfold path_append. by rewrite <- app_assoc.
Qed.

Lemma create_parent_directories_run (p : path) (w : world) :
  parent_path p ≠ [] →
  fault w (Call_create_directories (parent_path p)) = None →
  dirs_exist w (parent_path p) →
  create_parent_directories p w = (Normal tt, w).
Proof.
  intros Hp Hf Hd. unfold create_parent_directories, fs_create_directories.
  destruct (make_directories_ready (parent_path p) [] false w Hd) as [b E].
  erewrite bind_run; [done|].
  rewrite guarded_calm by done. by destruct (parent_path p).
Qed.

Lemma copy_and_print_run (source to : path) (data : string)
    (names : list string) (print_info : bool) (w : world) :
  fault w (Call_copy_file source to) = None →
  lookup_path w source = Some (File data) →
  lookup_path w to = None →
  lookup_path w (parent_path to) = Some (Dir names) →
  (fs_copy_file source to ;;
   when print_info (print_file_move_info source to)) w
  = (Normal tt, copied source to data names print_info w).
Proof.
  intros Hf Hs Ht Hp.
  erewrite bind_run; [apply when_print_run|].
  unfold fs_copy_file. rewrite guarded_calm by done.
  by rewrite Hs, Ht, Hp.
Qed.

Lemma fs_remove_run (p : path) (old : string) (w : world) :
  fault w (Call_remove p) = None →
  lookup_path w p = Some (File old) →
  fs_remove p w = (Normal true, removed p w).
Proof.
  intros Hf Hp. unfold fs_remove.
  erewrite bind_run; [|reflexivity].
  rewrite guarded_calm by done.
  change (lookup_path (with_history (history w ++ [Remove p]) w) p)
    with (lookup_path w p).
  by rewrite Hp.
Qed.

Lemma indexed_copy_first_free (k : nat) (n : nat) (i : Z) (source d : path)
    (print_info : bool) (w : world) :
  (k < n)%nat →
  (∀ j, i ≤ j ≤ i + Z.of_nat k →
        fault w (Call_exists (indexed_path source d j)) = None) →
  (∀ j, i ≤ j < i + Z.of_nat k →
        occupied w (indexed_path source d j) = true) →
  occupied w (indexed_path source d (i + Z.of_nat k)) = false →
  indexed_copy n i source d print_info w
  = (fs_copy_file source (indexed_path source d (i + Z.of_nat k)) ;;
     when print_info
       (print_file_move_info source
          (indexed_path source d (i + Z.of_nat k)))) w.
Proof.
  revert n i. induction k as [|k IH]; intros n i Hn Hf Ho Hfree.
  - destruct n as [|n]; [lia|]. simpl.
    replace (i + Z.of_nat 0) with i in * by lia.
    erewrite bind_run; [|apply fs_exists_run, Hf; lia].
    fold (indexed_path source d i). by rewrite Hfree.
  - destruct n as [|n]; [lia|]. simpl.
    erewrite bind_run; [|apply fs_exists_run, Hf; lia].
    fold (indexed_path source d i). rewrite Ho by lia. cbn [negb].
    replace (i + Z.of_nat (S k)) with (i + 1 + Z.of_nat k) in * by lia.
    apply IH; [lia | | | done]; intros j Hj; [apply Hf | apply Ho]; lia.
Qed.

Lemma indexed_copy_exhausted (n : nat) (i : Z) (source d : path)
    (print_info : bool) (w : world) :
  (∀ j, i ≤ j < i + Z.of_nat n →
        fault w (Call_exists (indexed_path source d j)) = None
        ∧ occupied w (indexed_path source d j) = true) →
  indexed_copy n i source d print_info w = (Normal tt, w).
Proof.
  revert i. induction n as [|n IH]; intros i H; [done|]. simpl.
  destruct (H i) as [Hf Ho]; [lia|].
  erewrite bind_run; [|by apply fs_exists_run].
  fold (indexed_path source d i). rewrite Ho. cbn [negb].
  apply IH. intros j Hj. apply H. lia.
Qed.

Lemma entered_fields (source dest_path : path) (print_info : bool)
    (w : world) :
  ignore_case (entered source dest_path print_info w) = ignore_case w
  ∧ fault (entered source dest_path print_info w) = fault w
  ∧ store (entered source dest_path print_info w) = store w
  ∧ processed_files (entered source dest_path print_info w)
    = processed_files w
  ∧ history (entered source dest_path print_info w)
    = history w ++ [Organize source].
Proof. unfold entered. by destruct print_info. Qed.

Lemma lookup_entered (source dest_path : path) (print_info : bool)
    (w : world) (p : path) :
  lookup_path (entered source dest_path print_info w) p = lookup_path w p.
Proof. unfold entered. by destruct print_info. Qed.

Lemma occupied_entered (source dest_path : path) (print_info : bool)
    (w : world) (p : path) :
  occupied (entered source dest_path print_info w) p = occupied w p.
Proof. unfold occupied. by rewrite lookup_entered. Qed.

Section Placement.
Variables (source d : path) (print_info : bool) (w : world).
Hypothesis Hcalm : calm w.
Hypothesis Haudio : is_audio_file source = true.
Hypothesis Hdirs : dirs_exist w (parent_path (candidate source d)).

  (** Up to the test of line 174. *)
Lemma organize_file_enter :
    organize_file source d print_info w =
    match
      (e ← fs_exists (candidate source d);
       (if negb e then
          fs_copy_file source (candidate source d) ;;
          when print_info
            (print_file_move_info source (candidate source d))
        else
          p ← file_already_processed (candidate source d);
          if negb p then
            fs_remove (candidate source d) ;;
            fs_copy_file source (candidate source d) ;;
            when print_info
              (print_file_move_info source (candidate source d))
          else
            indexed_copy index_iterations 0 source d print_info) ;;
       processed_files_insert (to_lower (filename source)))
        (entered source (candidate source d) print_info w)
    with
    | (Throw what, w1) =>
        (Normal tt,
         with_console (console w1 ++ [Error_copying_file what]) w1)
    | r => r
    end.
Proof.
    rewrite organize_file_run. cbn zeta. rewrite Haudio. cbn [negb].
    unfold place.
    erewrite bind_run;
      [|apply create_parent_directories_run;
        [apply candidate_parent_nonempty | apply Hcalm | exact Hdirs]].
    erewrite bind_run; [|apply when_print_run].
    reflexivity.
Qed.

Lemma organize_file_fresh (data : string) (names : list string) :
    lookup_path w source = Some (File data) →
    lookup_path w (candidate source d) = None →
    lookup_path w (parent_path (candidate source d)) = Some (Dir names) →
    organize_file source d print_info w
    = (Normal tt,
       registered source
         (copied source (candidate source d) data names print_info
            (entered source (candidate source d) print_info w))).
Proof.
    intros Hs Hc Hp. rewrite organize_file_enter.
    destruct (entered_fields source (candidate source d) print_info w)
      as (_ & Hf & _).
    erewrite bind_run; [|apply fs_exists_run; rewrite Hf; apply Hcalm].
    unfold occupied. rewrite lookup_entered, Hc. cbn [negb].
    erewrite bind_run; [reflexivity|].
    apply copy_and_print_run; rewrite ?lookup_entered, ?Hf; done.
Qed.

Lemma organize_file_exhausted :
    occupied w (candidate source d) = true →
    to_lower (filename source) ∈ processed_files w →
    (∀ j, 0 ≤ j < index_bound →
          occupied w (indexed_path source d j) = true) →
    organize_file source d print_info w
    = (Normal tt,
       registered source (entered source (candidate source d) print_info w)).
Proof.
    intros Hc Hin Hall. rewrite organize_file_enter.
    destruct (entered_fields source (candidate source d) print_info w)
      as (_ & Hf & _ & Hpf & _).
    erewrite bind_run; [|apply fs_exists_run; rewrite Hf; apply Hcalm].
    rewrite occupied_entered, Hc. cbn [negb].
    erewrite bind_run; [reflexivity|].
    erewrite bind_run; [|reflexivity].
    rewrite candidate_filename, Hpf, bool_decide_eq_true_2 by done.
    cbn [negb]. apply indexed_copy_exhausted.
    intros j Hj. rewrite Hf, occupied_entered. split; [done|].
    apply Hall. pose proof index_iterations_bound. lia.
Qed.

Lemma organize_file_indexed (data : string) (names : list string) (n : Z) :
    lookup_path w source = Some (File data) →
    occupied w (candidate source d) = true →
    to_lower (filename source) ∈ processed_files w →
    0 ≤ n < index_bound →
    (∀ j, 0 ≤ j < n → occupied w (indexed_path source d j) = true) →
    lookup_path w (indexed_path source d n) = None →
    lookup_path w d = Some (Dir names) →
    organize_file source d print_info w
    = (Normal tt,
       registered source
         (copied source (indexed_path source d n) data names print_info
            (entered source (candidate source d) print_info w))).
Proof.
    intros Hs Hc Hin Hn Hocc Hfree Hd. rewrite organize_file_enter.
    destruct (entered_fields source (candidate source d) print_info w)
      as (_ & Hf & _ & Hpf & _).
    erewrite bind_run; [|apply fs_exists_run; rewrite Hf; apply Hcalm].
    rewrite occupied_entered, Hc. cbn [negb].
    erewrite bind_run; [reflexivity|].
    erewrite bind_run; [|reflexivity].
    rewrite candidate_filename, Hpf, bool_decide_eq_true_2 by done.
    cbn [negb].
    rewrite (indexed_copy_first_free (Z.to_nat n)).
    - replace (0 + Z.of_nat (Z.to_nat n)) with n by lia.
      apply copy_and_print_run; rewrite ?lookup_entered, ?Hf; try done.
      unfold indexed_path. by rewrite parent_path_snoc.
    - pose proof index_iterations_bound. lia.
    - intros j Hj. by rewrite Hf.
    - intros j Hj. rewrite occupied_entered. apply Hocc. lia.
    - replace (0 + Z.of_nat (Z.to_nat n)) with n by lia.
      unfold occupied. by rewrite lookup_entered, Hfree.
Qed.
End Placement.

Lemma key_parent_ne (w : world) (p : path) (name : string) :
  key w (parent_path (p // name)) ≠ key w (p // name).
Proof.
  rewrite parent_path_snoc. intros H. apply (f_equal length) in H.
  unfold key, path_append in H. rewrite !length_canon, length_app in H.
  simpl in H. lia.
Qed.

Lemma lookup_unlink_here (w : world) (p : path) :
  lookup_path (unlink w p) p = None.
Proof. unfold unlink, lookup_path. apply fn_lookup_insert. Qed.

Lemma lookup_unlink_parent (w : world) (p : path) (name : string)
    (names : list string) :
  lookup_path w p = Some (Dir names) →
  lookup_path (unlink w (p // name)) p
  = Some (Dir (List.filter (λ m, negb (same_name w m name)) names)).
Proof.
  intros Hp. pose proof (key_parent_ne w p name) as Hne.
  rewrite parent_path_snoc in Hne.
  unfold unlink. rewrite parent_path_snoc, Hp, filename_snoc.
  unfold lookup_path.
  change (key (with_store ?s w)) with (key w).
  change (store (with_store ?s w)) with s.
  rewrite fn_lookup_insert_ne by done. apply fn_lookup_insert.
Qed.

Lemma lookup_unlink_other (w : world) (p q : path) :
  key w q ≠ key w p → key w q ≠ key w (parent_path p) →
  lookup_path (unlink w p) q = lookup_path w q.
Proof.
  intros H1 H2. unfold unlink, lookup_path at 1.
  change (key (with_store ?s w)) with (key w).
  change (store (with_store ?s w)) with s.
  rewrite fn_lookup_insert_ne by done.
  destruct (lookup_path w (parent_path p)) as [[?|?]|]; try done.
  by rewrite fn_lookup_insert_ne.
Qed.

Lemma lookup_removed_here (w : world) (p : path) :
  lookup_path (removed p w) p = None.
Proof. apply lookup_unlink_here. Qed.

Lemma lookup_removed_parent (w : world) (p : path) (name : string)
    (names : list string) :
  lookup_path w p = Some (Dir names) →
  lookup_path (removed (p // name) w) p
  = Some (Dir (List.filter (λ m, negb (same_name w m name)) names)).
Proof.
  intros Hp.
  exact (lookup_unlink_parent
           (with_history (history w ++ [Remove (p // name)]) w) p name
           names Hp).
Qed.

Lemma lookup_removed_other (w : world) (p q : path) :
  key w q ≠ key w p → key w q ≠ key w (parent_path p) →
  lookup_path (removed p w) q = lookup_path w q.
Proof.
  intros H1 H2.
  exact (lookup_unlink_other
           (with_history (history w ++ [Remove p]) w) p q H1 H2).
Qed.

Lemma organize_file_overwrite (source d : path) (print_info : bool)
    (w : world) (data old : string) (names : list string) :
  calm w →
  is_audio_file source = true →
  dirs_exist w (parent_path (candidate source d)) →
  lookup_path w source = Some (File data) →
  lookup_path w (candidate source d) = Some (File old) →
  to_lower (filename source) ∉ processed_files w →
  key w source ≠ key w (candidate source d) →
  lookup_path w (parent_path (candidate source d)) = Some (Dir names) →
  organize_file source d print_info w
  = (Normal tt,
     registered source
       (copied source (candidate source d) data
          (List.filter (λ m, negb (same_name w m (filename source))) names)
          print_info
          (removed (candidate source d)
             (entered source (candidate source d) print_info w)))).
Proof.
  intros Hcalm Haudio Hdirs Hs Hc Hnin Hne Hp.
  rewrite organize_file_enter by done.
  set (w1 := entered source (candidate source d) print_info w).
  destruct (entered_fields source (candidate source d) print_info w)
    as (Hci & Hf & _ & Hpf & _). fold w1 in Hci, Hf, Hpf.
  assert (∀ q, lookup_path w1 q = lookup_path w q) as Hl
    by (intros q; apply lookup_entered).
  assert (key w1 = key w) as Hk by (unfold key; by rewrite Hci).
  erewrite bind_run; [|apply fs_exists_run; rewrite Hf; apply Hcalm].
  unfold occupied. rewrite Hl, Hc. cbn [negb].
  erewrite bind_run; [reflexivity|].
  erewrite bind_run; [|reflexivity].
  rewrite candidate_filename, Hpf, bool_decide_eq_false_2 by done.
  cbn [negb].
  erewrite bind_run;
    [|apply (fs_remove_run _ old); [rewrite Hf; apply Hcalm | by rewrite Hl]].
  assert (fault (removed (candidate source d) w1) = fault w) as Hf'
    by exact Hf.
  replace (λ m, negb (same_name w m (filename source)))
    with (λ m, negb (same_name w1 m (filename source)))
    by (unfold same_name; by rewrite Hk).
  apply copy_and_print_run.
  - rewrite Hf'. apply Hcalm.
  - rewrite lookup_removed_other, Hl; [done | by rewrite Hk |].
    rewrite Hk. intros E. unfold lookup_path in Hs, Hp.
    rewrite E, Hp in Hs. discriminate Hs.
  - apply lookup_removed_here.
  - unfold candidate in *. cbn zeta in *.
    rewrite parent_path_snoc in *.
    apply lookup_removed_parent. by rewrite Hl.
Qed.

(** *** The walk returns *)

Lemma is_directory_inv (entry : path) (w w' : world) (b : bool) :
  is_directory entry w = (Normal b, w') →
  w' = w ∧ (b = true → is_dir w entry) ∧ (b = false → ¬ is_dir w entry).
Proof.
  unfold is_directory, guarded. destruct (fault w _); [done|].
  intros [= <- <-]. split; [done|].
  destruct (lookup_path w entry) as [[?|names]|] eqn:E; split; try done;
    try (intros _ [? H]; unfold lookup_path in *; congruence).
  intros _. by exists names.
Qed.

Lemma directory_iterator_inv (p : path) (w w' : world) (entries : list path) :
  directory_iterator p w = (Normal entries, w') →
  w' = w ∧ ∃ names, lookup_path w p = Some (Dir names)
                   ∧ entries = map (path_append p) names.
Proof.
  unfold directory_iterator, guarded. destruct (fault w _); [done|].
  destruct (lookup_path w p) as [[?|names]|]; try done.
  intros [= <- <-]. eauto.
Qed.

Lemma for_each_outcome (I : world → Prop) (body : path → M unit)
    (entries : list path) :
  (∀ entry w r w', entry ∈ entries → I w → body entry w = (r, w') →
                   r ≠ Out_of_fuel ∧ I w') →
  ∀ w r w', I w → for_each entries body w = (r, w') →
            r ≠ Out_of_fuel ∧ I w'.
Proof.
  induction entries as [|entry rest IH]; intros Hb w r w' Hw; simpl.
  { by intros [= <- <-]. }
  intros H. apply bind_inv in H as [([] & w1 & E & H) | [(e & E & ->) | [E ->]]].
  - destruct (Hb entry w _ _ (list_elem_of_here _ _) Hw E) as [_ Hw1].
    revert H. apply IH; [|done].
    intros e' w2 r2 w3 Hin. apply Hb. by right.
  - by destruct (Hb entry w _ _ (list_elem_of_here _ _) Hw E).
  - by destruct (Hb entry w _ _ (list_elem_of_here _ _) Hw E).
Qed.

Lemma is_dir_length (L : nat) (w : world) (p : path) :
  shallow L w → is_dir w p → (length p ≤ L)%nat.
Proof.
  intros Hs [names H]. rewrite <- (length_canon (ignore_case w) p).
  apply Hs. unfold lookup_path, key in H. by rewrite H.
Qed.

Lemma process_directory_returns (d : path) (L : nat) (print_info : bool) :
  (length d + 3 ≤ L)%nat →
  ∀ fuel source w,
    shallow L w → (1 ≤ fuel)%nat → (L < fuel + length source)%nat →
    ∃ w', process_directory fuel source d print_info w = (Normal tt, w').
Proof.
  intros HL fuel. induction fuel as [|fuel IH]; intros source w Hw H1 Hf.
  { lia. }
  simpl. unfold try_catch.
  destruct (_ ≫= _) as [[[]|what|] w1] eqn:E; [by eauto | by eauto |].
  exfalso.
  apply bind_inv in E as [(entries & w2 & E1 & E) | [(e & _ & [=]) | [E1 _]]].
  2:{ revert E1. apply halts_guarded. intros w3 w4.
      by destruct (lookup_path w3 source) as [[?|?]|]. }
  apply directory_iterator_inv in E1 as (-> & names & _ & ->).
  eapply (for_each_outcome (shallow L)) in E; [by destruct E | | done].
  clear E. intros entry w2 r w3 Hin Hw2 E.
  apply list_elem_of_fmap in Hin as (name & -> & _).
  unfold visit_entry in E.
  apply bind_inv in E as [(b & w4 & E1 & E) | [(e & E1 & ->) | [E1 _]]].
  - apply is_directory_inv in E1 as (-> & Hb & _). destruct b.
    + pose proof (is_dir_length L w2 _ Hw2 (Hb eq_refl)) as Hlen.
      unfold path_append in Hlen. rewrite length_app in Hlen. simpl in Hlen.
      destruct (IH (source // name) w2 Hw2) as [w5 E5]; [lia | |].
      { unfold path_append. rewrite length_app. simpl. lia. }
      rewrite E5 in E. injection E as <- <-. split; [done|].
      by eapply (evolves_process_directory d L), ev_shallow in E5.
    + destruct (organize_file_returns (source // name) d print_info w2)
        as [w5 E5].
      rewrite E5 in E. injection E as <- <-. split; [done|].
      by eapply (evolves_organize_file d L), ev_shallow in E5.
  - split; [done|]. by apply (respects_is_directory eq) in E1 as ->.
  - exfalso. revert E1. apply halts_guarded. by intros ?? [=].
Qed.

Lemma history_make_directories (rest made : path) (created : bool)
    (w w' : world) (r : outcome bool) :
  make_directories made rest created w = (r, w') → history w' = history w.
Proof.
  revert made created w.
  induction rest as [|name rest IH]; intros made created w; simpl.
  { by intros [= <- <-]. }
  destruct (lookup_path w (made // name)) as [[?|?]|];
    [by intros [= <- <-] | apply IH |].
  destruct (lookup_path w made) as [[?|names]|]; try by intros [= <- <-].
  intros H. by apply IH in H.
Qed.

Lemma history_fs_create_directories (p : path) (w w' : world)
    (r : outcome bool) :
  fs_create_directories p w = (r, w') → history w' = history w.
Proof.
  unfold fs_create_directories, guarded.
  destruct (fault w _); [by intros [= <- <-]|].
  destruct p as [|n p]; [by intros [= <- <-]|].
  apply history_make_directories.
Qed.

Lemma fs_create_directories_then (d : path) (L : nat) (a b : string)
    (k : M Z) (h : list action) (w w' : world) (r : outcome Z) :
  (length d + 3 ≤ L)%nat →
  (fs_create_directories (d // a // b) ;; k) w = (r, w') →
  shallow L w → history w = h →
  (∃ e, r = Throw e ∧ history w' = h)
  ∨ (∃ w1, shallow L w1 ∧ history w1 = h ∧ k w1 = (r, w')).
Proof.
  intros HL H Hw Hh.
  apply bind_inv in H as [(x & w1 & E & H) | [(e & E & ->) | [E ->]]].
  - right. exists w1. split; [|split; [|done]].
    + eapply (evolves_fs_create_directories (targets d) d L) in E.
      * by apply E.
      * unfold path_append. rewrite <- app_assoc. by apply prefix_app_r.
      * unfold path_append. rewrite !length_app. simpl. lia.
    + apply history_fs_create_directories in E. congruence.
  - left. exists e. split; [done|].
    apply history_fs_create_directories in E. congruence.
  - exfalso. revert E. apply halts_fs_create_directories.
Qed.

Lemma main_outcome (d : path) (L fuel : nat) (source : path)
    (print_info : bool) (w w' : world) (r : outcome Z) :
  (length d + 3 ≤ L)%nat → shallow L w →
  (1 ≤ fuel)%nat → (L < fuel + length source)%nat →
  main fuel source d print_info w = (r, w') →
  match r with
  | Normal code =>
      (code = 1 ∧ occupied w source = false ∧ visits w' = visits w)
      ∨ (code = 0
         ∧ ∃ c, console w' = c ++ [Splice_Files_organized_successfully;
                                   Press_Enter_to_exit])
  | Throw _ => visits w' = visits w
  | Out_of_fuel => False
  end.
Proof.
  intros HL Hw H1 Hf H. unfold main in H.
  apply bind_inv in H as [([] & w1 & E & H) | [(? & [=] & _) | [[=] _]]].
  injection E as <-.
  apply bind_inv in H as [(e & w1 & E & H) | [(e & E & ->) | [E ->]]].
  2:{ by apply (respects_fs_exists eq) in E as <-. }
  2:{ by apply halts_fs_exists in E. }
  unfold fs_exists, guarded in E. destruct (fault _ _); [done|].
  injection E as <- <-.
  destruct (occupied _ source) eqn:Eo; cbn [negb] in H.
  2:{ injection H as <- <-. by left. }
  clear Eo.
  set (w0 := with_console (console w ++ [Banner]) w) in *.
  assert (shallow L w0) as Hw0 by exact Hw.
  assert (history w0 = history w) as Hh0 by done.
  clearbody w0.
  assert (∀ w1, history w1 = history w → visits w1 = visits w) as Hv.
  { intros w1 Hx. unfold visits. by rewrite Hx. }
  repeat (apply (fs_create_directories_then d L _ _ _ (history w)) in H
            as [(e & -> & Hh) | (w1 & Hw1 & Hh1 & H)];
          [by apply Hv | clear w0 Hw0 Hh0; rename w1 into w0;
                         rename Hw1 into Hw0; rename Hh1 into Hh0
          | done | done | done]).
  destruct (process_directory_returns d L print_info HL fuel source w0)
    as [w1 E1]; [done..|].
  erewrite bind_run in H by exact E1.
  injection H as <- <-. right. split; [done|].
  exists (console w1). cbn. by rewrite <- app_assoc.
Qed.

(** *** The walk visits every file once *)



Lemma apart_below (w : world) (root d p : path) (k : path) :
  apart w root d → key w root `prefix_of` k → ¬ near (key w d) k.
Proof.
  intros Ha Hk [H|H]; apply Ha.
  - left. by transitivity k.
  - destruct (prefix_weak_total _ _ _ H Hk); [by right | by left].
Qed.

Lemma mounted_evolves (ok : action → Prop) (d : path) (L : nat)
    (root : path) (w w' : world) :
  evolves ok d L w w' → apart w root d →
  (∀ t p, root `prefix_of` p → mounted w p t → mounted w' p t)
  ∧ (∀ f p, root `prefix_of` p → mounted_all w p f → mounted_all w' p f).
Proof.
  intros He Ha.
  assert (∀ p, root `prefix_of` p → lookup_path w' p = lookup_path w p) as Hl.
  { intros p Hp. unfold lookup_path, key. rewrite (ev_case _ _ _ _ _ He).
    apply (ev_frame _ _ _ _ _ He).
    apply (apart_below w root d p); [done|]. by apply canon_prefix. }
  apply tree_forest_mutind.
  - intros data p Hp. simpl. by rewrite Hl.
  - intros f IH p Hp [H1 H2]. simpl. rewrite Hl by done. auto.
  - done.
  - intros name t IHt rest IHr p Hp [H1 H2]. simpl. split; [|auto].
    apply IHt; [|done]. by apply prefix_app_r.
Qed.

Lemma is_directory_run (p : path) (w : world) :
  fault w (Call_is_directory p) = None →
  is_directory p w
  = (Normal (match lookup_path w p with Some (Dir _) => true | _ => false end),
     w).
Proof. intros H. unfold is_directory. by rewrite guarded_calm. Qed.

Section Walk.
Variables (root d : path) (print_info : bool).

End Walk.


Lemma files_prefix :
  (∀ t p q, q ∈ files_of p t → p `prefix_of` q)
  ∧ (∀ f p q, q ∈ files_in p f →
              ∃ name, name ∈ names_of f ∧ (p // name) `prefix_of` q).
Proof.
  apply tree_forest_mutind; simpl.
  - intros data p q ->%list_elem_of_singleton. done.
  - intros f IH p q Hq. destruct (IH p q Hq) as (name & _ & H).
    etransitivity; [|exact H]. by apply prefix_app_r.
  - intros p q Hq. by apply elem_of_nil in Hq.
  - intros name t IHt rest IHr p q [Hq|Hq]%elem_of_app.
    + exists name. split; [by left | by apply IHt].
    + destruct (IHr p q Hq) as (n & Hn & H). exists n. split; [by right | done].
Qed.






(** *** The states after a copy *)

Lemma copied_fields (source to : path) (data : string) (names : list string)
    (print_info : bool) (w : world) :
  ignore_case (copied source to data names print_info w) = ignore_case w
  ∧ fault (copied source to data names print_info w) = fault w
  ∧ store (copied source to data names print_info w)
    = <[key w to := Some (File data)]>
        (<[key w (parent_path to) := Some (Dir (names ++ [filename to]))]>
           (store w))
  ∧ processed_files (copied source to data names print_info w)
    = processed_files w
  ∧ history (copied source to data names print_info w)
    = history w ++ [Copy source to].
Proof. unfold copied. by destruct print_info. Qed.

Lemma lookup_copied_here (source to : path) (data : string)
    (names : list string) (print_info : bool) (w : world) :
  lookup_path (copied source to data names print_info w) to
  = Some (File data).
Proof.
  destruct (copied_fields source to data names print_info w)
    as (Hc & _ & Hs & _).
  unfold lookup_path, key. rewrite Hs, Hc. apply fn_lookup_insert.
Qed.

Lemma lookup_copied_other (source to : path) (data : string)
    (names : list string) (print_info : bool) (w : world) (q : path) :
  key w q ≠ key w to → key w q ≠ key w (parent_path to) →
  lookup_path (copied source to data names print_info w) q
  = lookup_path w q.
Proof.
  intros H1 H2.
  destruct (copied_fields source to data names print_info w)
    as (Hc & _ & Hs & _).
  unfold lookup_path. replace (key (copied _ _ _ _ _ _)) with (key w)
    by (unfold key; by rewrite Hc).
  rewrite Hs. by rewrite !fn_lookup_insert_ne.
Qed.

Lemma key_length_ne (w : world) (p q : path) :
  length p ≠ length q → key w p ≠ key w q.
Proof.
  intros H E. apply H. apply (f_equal length) in E.
  unfold key in E. by rewrite !length_canon in E.
Qed.

Lemma registered_already (source : path) (w : world) :
  to_lower (filename source) ∈ processed_files w →
  processed_files (registered source w) = processed_files w.
Proof.
  intros H. unfold registered. simpl. apply leibniz_equiv.
  intros x. rewrite elem_of_union, elem_of_singleton.
  split; [intros [->|?]; done | by right].
Qed.

(** *** Checks for concrete worlds *)

Lemma prefixes_complete (p q : path) : q `prefix_of` p → In q (prefixes p).
Proof.
  revert q. induction p as [|name p IH]; intros q Hq; simpl.
  - apply prefix_nil_inv in Hq as ->. by left.
  - destruct q as [|x q]; [by left|]. right.
    pose proof (prefix_cons_inv_1 _ _ _ _ Hq) as ->.
    apply prefix_cons_inv_2 in Hq. apply in_map. by apply IH.
Qed.

Lemma dirs_check_sound (w : world) (p : path) :
  dirs_check w p = true → dirs_exist w p.
Proof.
  unfold dirs_check. rewrite forallb_forall. intros H q Hq.
  specialize (H q (prefixes_complete p q Hq)). unfold is_dir.
  destruct (lookup_path w q) as [[?|names]|]; try done. by exists names.
Qed.

Lemma table_shallow (L : nat) (l : list (path * node)) (ci : bool)
    (flt : fs_call → option string) :
  depth_check L l = true → shallow L (start ci flt (table l)).
Proof.
  unfold depth_check, shallow. simpl. rewrite forallb_forall. intros H k.
  induction l as [|[k' n] l IH]; simpl; [done|].
  destruct (decide (k' = k)) as [->|Hne].
  - intros _. apply Nat.leb_le. apply (H (k, n)). by left.
  - rewrite fn_lookup_insert_ne by done. apply IH.
    intros e He. apply H. by right.
Qed.

(** *** C2: the order of the rules *)

(** C2 (counterexample).  A file name that contains both "kick" and
    "loop" is not always classified as Drums/Kick: with "808" in it as
    well the first rule wins. *)
Lemma kick_and_loop_but_808 :
  occurs_in "kick" (to_lower "808_Kick_Loop.wav")
  ∧ occurs_in "loop" (to_lower "808_Kick_Loop.wav")
  ∧ classify "808_Kick_Loop.wav" = Drums_808
  ∧ classify "808_Kick_Loop.wav" ≠ Drums_Kick.
Proof.
  split; [by apply found_iff|]. split; [by apply found_iff|]. by split.
Qed.

(** C2 (amended).  Classification is the first matching rule of the
    table, Other/Other when none matches: a name containing "808"
    (ignoring case) yields Drums/808 whatever else it contains; a name
    containing "kick" and "loop" and neither "808" nor a snare pattern
    yields Drums/Kick; a name containing none of the listed substrings
    yields Other/Other. *)
Theorem classify_first_match_wins (name : string) :
  classify name = first_match rules (to_lower name)
  ∧ (occurs_in "808" (to_lower name) → classify name = Drums_808)
  ∧ (occurs_in "kick" (to_lower name) → occurs_in "loop" (to_lower name) →
     ¬ occurs_in "808" (to_lower name) →
     ¬ occurs_in "snare" (to_lower name) →
     ¬ occurs_in "_snr" (to_lower name) →
     ¬ occurs_in "snr_" (to_lower name) →
     classify name = Drums_Kick)
  ∧ ((∀ needles c needle,
        (needles, c) ∈ rules → needle ∈ needles →
        ¬ occurs_in needle (to_lower name)) →
     classify name = Other_Other).
Proof.
  split; [apply category_of_first_match|].
  split; [apply classify_808|]. split.
  - intros Hk _ H8 H1 H2 H3. unfold classify, category_of.
    apply found_iff in Hk. apply found_false_iff in H8, H1, H2, H3.
    by rewrite H8, H1, H2, H3, Hk.
  - intros H. unfold classify. rewrite category_of_first_match.
    by apply first_match_none.
Qed.

Lemma classify_first_match_wins_witness :
  classify "Deep_808_Kick.wav" = Drums_808
  ∧ classify "Kick_Loop_120bpm.wav" = Drums_Kick
  ∧ classify "Vox_Chop.mp3" = Other_Other.
Proof.
  split; [|split].
  - apply (classify_first_match_wins "Deep_808_Kick.wav").
    by apply found_iff.
  - apply (classify_first_match_wins "Kick_Loop_120bpm.wav");
      try (by apply found_iff); by apply found_false_iff.
  - apply (classify_first_match_wins "Vox_Chop.mp3").
    intros needles c needle Hr Hn. apply found_false_iff.
    unfold rules in Hr.
    repeat (apply elem_of_cons in Hr as [[= -> ->]|Hr];
            [repeat (apply elem_of_cons in Hn as [->|Hn]; [reflexivity|]);
             by apply elem_of_nil in Hn|]).
    by apply elem_of_nil in Hr.
Defined.

(** *** C7: case does not matter *)

(** C7.  Classification does not depend on the case of its input:
    classify f = classify (to_lower f) for every f, so "KICK.wav",
    "Kick.wav" and "kick.wav" are classified alike. *)
Theorem classify_ignores_case (f : string) :
  classify f = classify (to_lower f)
  ∧ classify "KICK.wav" = classify "kick.wav"
  ∧ classify "Kick.wav" = classify "kick.wav".
Proof.
  split; [|by split]. unfold classify. by rewrite to_lower_idem.
Qed.

(** *** C6: the filter *)

(** C6.  An entry is eligible exactly when its extension, lowercased,
    is .wav or .mp3; for any other entry organize_file changes neither
    the file system nor the registry nor the console: nothing is copied
    and nothing is printed. *)
Theorem non_audio_is_skipped (source d : path) (print_info : bool)
    (w : world) :
  (is_audio_file source = true ↔
   to_lower (extension source) = ".wav" ∨ to_lower (extension source) = ".mp3")
  ∧ (is_audio_file source = true ↔
     ∃ stem_ e, filename source = stem_ +:+ "." +:+ e ∧ stem_ ≠ ""
                ∧ audio_suffix e)
  ∧ (is_audio_file source = false →
     ∃ w', organize_file source d print_info w = (Normal tt, w')
           ∧ store w' = store w
           ∧ processed_files w' = processed_files w
           ∧ console w' = console w
           ∧ history w' = history w ++ [Organize source]
           ∧ copies w' = copies w).
Proof.
  split; [|split].
  - unfold is_audio_file. by rewrite orb_true_iff, !String.eqb_eq.
  - apply is_audio_file_iff.
  - intros H. rewrite organize_file_run. cbn zeta. rewrite H. cbn [negb].
    eexists. split; [reflexivity|]. repeat split.
    by rewrite (copies_snoc w _ (Organize source)), app_nil_r.
Qed.

Lemma non_audio_is_skipped_witness :
  is_audio_file ["s"; "notes.txt"] = false
  ∧ ∃ w', organize_file ["s"; "notes.txt"] ["d"] true
            (start false no_fault ready_store) = (Normal tt, w')
          ∧ store w' = store (start false no_fault ready_store)
          ∧ console w' = [].
Proof.
  split; [reflexivity|].
  destruct (proj2 (proj2 (non_audio_is_skipped ["s"; "notes.txt"] ["d"] true
                            (start false no_fault ready_store))) eq_refl)
    as (w' & E & Hs & _ & Hc & _).
  exists w'. by repeat split.
Defined.

(** *** C1: the three branches *)

Lemma removed_fields (p : path) (w : world) :
  ignore_case (removed p w) = ignore_case w
  ∧ fault (removed p w) = fault w
  ∧ processed_files (removed p w) = processed_files w
  ∧ history (removed p w) = history w ++ [Remove p].
Proof. done. Qed.

Lemma occupied_false (w : world) (p : path) :
  occupied w p = false ↔ lookup_path w p = None.
Proof. unfold occupied. by destruct (lookup_path w p). Qed.

Lemma occupied_true (w : world) (p : path) :
  occupied w p = true ↔ lookup_path w p ≠ None.
Proof. unfold occupied. by destruct (lookup_path w p). Qed.

Lemma indexed_path_length (source d : path) (i : Z) :
  length (indexed_path source d i) = (length d + 1)%nat.
Proof. unfold indexed_path, path_append. by rewrite length_app. Qed.

Lemma organize_file_indexed_effect (source d : path) (print_info : bool)
    (w : world) (data : string) (n : Z) :
  calm w →
  is_audio_file source = true →
  dirs_exist w (parent_path (candidate source d)) →
  lookup_path w source = Some (File data) →
  occupied w (candidate source d) = true →
  to_lower (filename source) ∈ processed_files w →
  0 ≤ n < index_bound →
  (∀ j, 0 ≤ j < n → occupied w (indexed_path source d j) = true) →
  occupied w (indexed_path source d n) = false →
  ∃ w', organize_file source d print_info w = (Normal tt, w')
        ∧ lookup_path w' (indexed_path source d n) = Some (File data)
        ∧ lookup_path w' (candidate source d)
          = lookup_path w (candidate source d)
        ∧ processed_files w' = processed_files w
        ∧ history w'
          = history w ++ [Organize source;
                          Copy source (indexed_path source d n)].
Proof.
  intros Hcalm Haudio Hdirs Hsrc Hocc Hin Hn Hall Hfree.
  set (w1 := entered source (candidate source d) print_info w).
  destruct (entered_fields source (candidate source d) print_info w)
    as (Hci & Hf & Hst & Hpf & Hh). fold w1 in Hci, Hf, Hst, Hpf, Hh.
  assert (key w1 = key w) as Hk by (unfold key; by rewrite Hci).
  destruct (Hdirs d) as [dnames Hd].
  { apply below_parent, candidate_below. }
  apply occupied_false in Hfree.
  eexists. split; [by eapply organize_file_indexed|].
  fold w1. split; [apply lookup_copied_here|].
  destruct (copied_fields source (indexed_path source d n) data dnames
              print_info w1) as (_ & _ & _ & Hpf' & Hh').
  split; [|split].
  - change (lookup_path (registered ?s ?x)) with (lookup_path x).
    rewrite lookup_copied_other.
    + apply lookup_entered.
    + rewrite Hk. apply key_length_ne.
      rewrite candidate_length, indexed_path_length. lia.
    + rewrite Hk. apply key_length_ne.
      unfold indexed_path. rewrite parent_path_snoc, candidate_length. lia.
  - rewrite registered_already; [by rewrite Hpf', Hpf|].
    by rewrite Hpf', Hpf.
  - change (history (registered ?s ?x)) with (history x).
    by rewrite Hh', Hh, <- app_assoc.
Qed.

(** X22.  When no call is refused, the source is a regular file with
    an audio extension and the category folder of its candidate exists,
    organize_file returns normally and takes the first applicable of
    three branches: (1) the candidate does not exist: the source is
    copied to the candidate and its lowercased name recorded; (2) the
    candidate is a regular file, the name is not in the registry and
    the source is another file than its candidate: the candidate is
    removed and replaced by a copy of the source, and the name
    recorded; (3) the candidate exists, the name is in the registry and
    the indexed paths 0 ... n-1 are taken while that of n < 999999 is
    free: the file is copied to stem_n + extension directly under the
    destination root, the candidate and the registry being left as
    they are. *)
Theorem collision_resolution (source d : path) (print_info : bool)
    (w : world) (data : string) :
  calm w →
  is_audio_file source = true →
  dirs_exist w (parent_path (candidate source d)) →
  lookup_path w source = Some (File data) →
  (lookup_path w (candidate source d) = None →
   ∃ w', organize_file source d print_info w = (Normal tt, w')
         ∧ lookup_path w' (candidate source d) = Some (File data)
         ∧ processed_files w'
           = {[to_lower (filename source)]} ∪ processed_files w
         ∧ history w'
           = history w ++ [Organize source; Copy source (candidate source d)])
  ∧ (∀ old,
       lookup_path w (candidate source d) = Some (File old) →
       to_lower (filename source) ∉ processed_files w →
       key w source ≠ key w (candidate source d) →
       ∃ w', organize_file source d print_info w = (Normal tt, w')
             ∧ lookup_path w' (candidate source d) = Some (File data)
             ∧ processed_files w'
               = {[to_lower (filename source)]} ∪ processed_files w
             ∧ history w'
               = history w ++ [Organize source; Remove (candidate source d);
                               Copy source (candidate source d)])
  ∧ (∀ n,
       occupied w (candidate source d) = true →
       to_lower (filename source) ∈ processed_files w →
       0 ≤ n < index_bound →
       (∀ j, 0 ≤ j < n → occupied w (indexed_path source d j) = true) →
       occupied w (indexed_path source d n) = false →
       ∃ w', organize_file source d print_info w = (Normal tt, w')
             ∧ indexed_path source d n
               = d // (stem_of (filename source) +:+ "_" +:+ to_string n
                       +:+ extension_of (filename source))
             ∧ lookup_path w' (indexed_path source d n) = Some (File data)
             ∧ lookup_path w' (candidate source d)
               = lookup_path w (candidate source d)
             ∧ processed_files w' = processed_files w
             ∧ history w'
               = history w ++ [Organize source;
                               Copy source (indexed_path source d n)]).
Proof.
  intros Hcalm Haudio Hdirs Hsrc.
  destruct (Hdirs (parent_path (candidate source d))) as [names Hnames];
    [done|].
  set (w1 := entered source (candidate source d) print_info w).
  destruct (entered_fields source (candidate source d) print_info w)
    as (Hci & Hf & Hst & Hpf & Hh). fold w1 in Hci, Hf, Hst, Hpf, Hh.
  assert (key w1 = key w) as Hk by (unfold key; by rewrite Hci).
  split; [|split].
  - intros Hnone. eexists. split; [by eapply organize_file_fresh|].
    fold w1. split; [apply lookup_copied_here|].
    destruct (copied_fields source (candidate source d) data names
                print_info w1) as (_ & _ & _ & Hpf' & Hh').
    split.
    + unfold registered. simpl. by rewrite Hpf', Hpf.
    + change (history (registered ?s ?x)) with (history x).
      by rewrite Hh', Hh, <- app_assoc.
  - intros old Hold Hnin Hne.
    eexists. split; [by eapply organize_file_overwrite|].
    fold w1. split; [apply lookup_copied_here|].
    destruct (copied_fields source (candidate source d) data
                (List.filter (λ m, negb (same_name w m (filename source)))
                   names)
                print_info (removed (candidate source d) w1))
      as (_ & _ & _ & Hpf' & Hh').
    destruct (removed_fields (candidate source d) w1)
      as (_ & _ & Hpf'' & Hh'').
    split.
    + unfold registered. simpl. by rewrite Hpf', Hpf'', Hpf.
    + change (history (registered ?s ?x)) with (history x).
      by rewrite Hh', Hh'', Hh, <- !app_assoc.
  - intros n Hocc Hin Hn Hall Hfree.
    destruct (organize_file_indexed_effect source d print_info w data n)
      as (w' & E & H1 & H2 & H3 & H4); try done.
    exists w'. by repeat split.
Qed.

Lemma collision_resolution_witness :
  (∃ w', organize_file ["s"; "a"; "kick.wav"] ["d"] false
           (start false no_fault ready_store) = (Normal tt, w')
         ∧ lookup_path w' ["d"; "Drums"; "Kick"; "kick.wav"]
           = Some (File "A"))
  ∧ (∃ w', organize_file ["s"; "a"; "kick.wav"] ["d"] false
             (start false no_fault stale_store) = (Normal tt, w')
           ∧ lookup_path w' ["d"; "Drums"; "Kick"; "kick.wav"]
             = Some (File "A")
           ∧ history w'
             = [Organize ["s"; "a"; "kick.wav"];
                Remove ["d"; "Drums"; "Kick"; "kick.wav"];
                Copy ["s"; "a"; "kick.wav"]
                     ["d"; "Drums"; "Kick"; "kick.wav"]])
  ∧ (∃ w', organize_file ["s"; "b"; "kick.wav"] ["d"] false ready_midrun
           = (Normal tt, w')
           ∧ lookup_path w' ["d"; "kick_0.wav"] = Some (File "B")).
Proof.
  split; [|split].
  - destruct (collision_resolution ["s"; "a"; "kick.wav"] ["d"] false
                (start false no_fault ready_store) "A") as (H & _ & _).
    + intros c. reflexivity.
    + reflexivity.
    + apply dirs_check_sound. vm_compute. reflexivity.
    + reflexivity.
    + destruct H as (w' & E & Hl & _); [reflexivity|].
      exists w'. split; [exact E | exact Hl].
  - destruct (collision_resolution ["s"; "a"; "kick.wav"] ["d"] false
                (start false no_fault stale_store) "A") as (_ & H & _).
    + intros c. reflexivity.
    + reflexivity.
    + apply dirs_check_sound. vm_compute. reflexivity.
    + reflexivity.
    + destruct (H "old") as (w' & E & Hl & _ & Hh).
      * reflexivity.
      * apply (bool_decide_unpack _). vm_compute. exact I.
      * intros Hk. discriminate Hk.
      * exists w'. split; [exact E|]. split; [exact Hl | exact Hh].
  - destruct (collision_resolution ["s"; "b"; "kick.wav"] ["d"] false
                ready_midrun "B") as (_ & _ & H).
    + intros c. vm_compute. reflexivity.
    + reflexivity.
    + apply dirs_check_sound. vm_compute. reflexivity.
    + vm_compute. reflexivity.
    + destruct (H 0) as (w' & E & _ & Hl & _).
      * vm_compute. reflexivity.
      * apply (bool_decide_unpack _). vm_compute. exact I.
      * unfold index_bound. lia.
      * intros j Hj. lia.
      * vm_compute. reflexivity.
      * exists w'. split; [exact E | exact Hl].
Defined.

(** C1.  The second branch removes the candidate without looking
    whether it is the source file itself.  When organize_file is given a
    file that sits at its own candidate (the destination root is the
    source root, the file was sorted by an earlier run) and whose name is
    not registered, the candidate exists, so the file is removed; the
    copy then has no source and fails, the error is printed, nothing is
    copied and the name is not recorded: the existing file is deleted
    and not replaced. *)
Lemma overwrite_in_place_loses_the_file :
  let w := start false no_fault inplace_store in
  let source := ["s"; "Drums"; "Kick"; "kick.wav"] in
  let r := organize_file source ["s"] false w in
  is_audio_file source = true
  ∧ candidate source ["s"] = source
  ∧ lookup_path w (candidate source ["s"]) = Some (File "A")
  ∧ (to_lower (filename source) ∉ processed_files w)
  ∧ r.1 = Normal tt
  ∧ lookup_path r.2 (candidate source ["s"]) = None
  ∧ (to_lower (filename source) ∉ processed_files r.2)
  ∧ copies r.2 = []
  ∧ history r.2 = [Organize source; Remove source]
  ∧ ∃ what, console r.2 = [Error_copying_file what].
Proof.
  intros w source r.
  split; [vm_compute; reflexivity|].
  split; [vm_compute; reflexivity|].
  split; [vm_compute; reflexivity|].
  split; [apply not_elem_of_empty|].
  split; [vm_compute; reflexivity|].
  split; [vm_compute; reflexivity|].
  split.
  { assert (processed_files r.2 = ∅) as -> by (vm_compute; reflexivity).
    apply not_elem_of_empty. }
  split; [vm_compute; reflexivity|].
  split; [vm_compute; reflexivity|].
  vm_compute. by eexists.
Qed.

(** *** The crowded volume *)

Lemma crowd_names_spec (name : string) :
  name ∈ crowd_names ↔
  ∃ i, 0 ≤ i < index_bound ∧ name = append_index_to_filename "kick.wav" i.
Proof.
  unfold crowd_names. rewrite list_elem_of_fmap. split.
  - intros (i & -> & Hi). apply elem_of_seqZ in Hi. exists i. split; [lia|done].
  - intros (i & Hi & ->). exists i. split; [done|]. apply elem_of_seqZ. lia.
Qed.

#[global] Opaque crowd_names.

Lemma crowded_taken (j : Z) :
  0 ≤ j < index_bound →
  crowded_store (["d"] // append_index_to_filename "kick.wav" j)
  = Some (File "old").
Proof.
  intros Hj. unfold crowded_store. rewrite bool_decide_eq_true_2; [done|].
  apply list_elem_of_fmap. eexists. split; [reflexivity|].
  apply crowd_names_spec. eauto.
Qed.

Lemma crowded_elsewhere (k : path) :
  (∀ name, k = ["d"; name] → ∀ rest, name ≠ String "k" rest) →
  crowded_store k = table crowded_base k.
Proof.
  intros Hk. unfold crowded_store. rewrite bool_decide_eq_false_2; [done|].
  intros (name & -> & Hin)%list_elem_of_fmap.
  apply crowd_names_spec in Hin as (i & _ & ->).
  by eapply (Hk _ eq_refl).
Qed.

Lemma crowded_midrun_eq :
  crowded_midrun
  = registered ["s"; "a"; "kick.wav"]
      (copied ["s"; "a"; "kick.wav"] ["d"; "Drums"; "Kick"; "kick.wav"] "A" []
         false
         (entered ["s"; "a"; "kick.wav"] ["d"; "Drums"; "Kick"; "kick.wav"]
            false (start false no_fault crowded_store))).
Proof.
  unfold crowded_midrun.
  rewrite (organize_file_fresh ["s"; "a"; "kick.wav"] ["d"] false
             (start false no_fault crowded_store)) with (data := "A")
                                                        (names := []);
    [reflexivity | done | reflexivity | | | |].
  - change (parent_path (candidate ["s"; "a"; "kick.wav"] ["d"]))
      with ["d"; "Drums"; "Kick"].
    intros q Hq%prefixes_complete. unfold is_dir, lookup_path.
    simpl in Hq. destruct Hq as [<-|[<-|[<-|[<-|[]]]]]; simpl;
      (rewrite crowded_elsewhere; [eexists; reflexivity|]);
      by intros name [= <-].
  - unfold lookup_path. simpl. rewrite crowded_elsewhere; [done|].
    intros name [=].
  - unfold lookup_path. simpl. rewrite crowded_elsewhere; [done|].
    intros name [=].
  - unfold lookup_path. simpl. rewrite crowded_elsewhere; [done|].
    intros name [=].
Qed.

Lemma crowded_midrun_facts :
  calm crowded_midrun
  ∧ dirs_exist crowded_midrun
      (parent_path (candidate ["s"; "b"; "kick.wav"] ["d"]))
  ∧ occupied crowded_midrun (candidate ["s"; "b"; "kick.wav"] ["d"]) = true
  ∧ to_lower (filename ["s"; "b"; "kick.wav"])
    ∈ processed_files crowded_midrun
  ∧ (∀ j, 0 ≤ j < index_bound →
          occupied crowded_midrun
            (indexed_path ["s"; "b"; "kick.wav"] ["d"] j) = true)
  ∧ console crowded_midrun = []
  ∧ copies crowded_midrun
    = [(["s"; "a"; "kick.wav"], ["d"; "Drums"; "Kick"; "kick.wav"])].
Proof.
  rewrite crowded_midrun_eq.
  set (w0 := start false no_fault crowded_store).
  set (w1 := entered ["s"; "a"; "kick.wav"]
               ["d"; "Drums"; "Kick"; "kick.wav"] false w0).
  assert (∀ q, length q ≠ 4%nat → length q ≠ 3%nat →
               lookup_path
                 (copied ["s"; "a"; "kick.wav"]
                    ["d"; "Drums"; "Kick"; "kick.wav"] "A" [] false w1) q
               = crowded_store q) as Hother.
  { intros q H4 H3. rewrite lookup_copied_other; [done | |];
      apply key_length_ne; simpl; done. }
  change (lookup_path (registered ?s ?x)) with (lookup_path x) in *.
  split; [|split; [|split; [|split; [|split; [|split]]]]].
  - intros c. reflexivity.
  - change (parent_path (candidate ["s"; "b"; "kick.wav"] ["d"]))
      with ["d"; "Drums"; "Kick"].
    intros q Hq%prefixes_complete. unfold is_dir.
    change (lookup_path (registered ?s ?x)) with (lookup_path x).
    simpl in Hq. destruct Hq as [<-|[<-|[<-|[<-|[]]]]].
    + rewrite Hother by done. rewrite crowded_elsewhere; [eexists; reflexivity|].
      by intros name [= <-].
    + rewrite Hother by done. rewrite crowded_elsewhere; [eexists; reflexivity|].
      by intros name [= <-].
    + rewrite Hother by done. rewrite crowded_elsewhere; [eexists; reflexivity|].
      by intros name [= <-].
    + eexists. unfold lookup_path. reflexivity.
  - apply occupied_true.
    change (lookup_path (registered ?s ?x)) with (lookup_path x).
    change (candidate ["s"; "b"; "kick.wav"] ["d"])
      with ["d"; "Drums"; "Kick"; "kick.wav"].
    by rewrite lookup_copied_here.
  - unfold registered. simpl. apply elem_of_union. left.
    by apply elem_of_singleton.
  - intros j Hj. apply occupied_true.
    change (lookup_path (registered ?s ?x)) with (lookup_path x).
    rewrite Hother by (rewrite indexed_path_length; simpl; lia).
    change (indexed_path ["s"; "b"; "kick.wav"] ["d"] j)
      with (["d"] // append_index_to_filename "kick.wav" j).
    by rewrite crowded_taken.
  - reflexivity.
  - reflexivity.
Qed.

#[global] Opaque crowded_midrun.

(** *** C4: the bound of the indexed search *)

Lemma exhausted_state_quiet (source dest_path : path) (w : world) :
  console (registered source (entered source dest_path false w)) = console w
  ∧ copies (registered source (entered source dest_path false w))
    = copies w.
Proof.
  split; [reflexivity|].
  by rewrite (copies_snoc w _ (Organize source)), app_nil_r.
Qed.

(** C4 (counterexample).  On a volume whose destination root already
    holds kick_0.wav ... kick_999998.wav, the second kick.wav of a run
    exhausts the search; it is not copied, and nothing at all is printed
    for it: no error is reported. *)
Lemma exhausted_search_reports_nothing :
  let source := ["s"; "b"; "kick.wav"] in
  let w' := (organize_file source ["d"] false crowded_midrun).2 in
  occupied crowded_midrun (candidate source ["d"]) = true
  ∧ to_lower (filename source) ∈ processed_files crowded_midrun
  ∧ (∀ j, 0 ≤ j < 999999 →
          occupied crowded_midrun (indexed_path source ["d"] j) = true)
  ∧ copies w' = copies crowded_midrun
  ∧ console w' = []
  ∧ ¬ (∃ what, Error_copying_file what ∈ console w'
               ∨ Error_processing_file_system what ∈ console w').
Proof.
  intros source w'.
  destruct crowded_midrun_facts as (Hc & Hd & Ho & Hin & Hall & Hcon & Hcp).
  assert (w' = registered source
                 (entered source (candidate source ["d"]) false
                    crowded_midrun)) as ->.
  { unfold w'.
    rewrite (organize_file_exhausted source ["d"] false crowded_midrun
               Hc eq_refl Hd Ho Hin Hall).
    reflexivity. }
  destruct (exhausted_state_quiet source (candidate source ["d"])
              crowded_midrun) as [H1 H2].
  rewrite H1, H2, Hcon.
  split; [exact Ho|]. split; [exact Hin|]. split; [exact Hall|].
  split; [reflexivity|]. split; [reflexivity|].
  intros (what & [H|H]); by apply elem_of_nil in H.
Qed.

(** C4 (amended).  The indexed search tries the indices 0 ... 999998
    only.  When the candidate exists, the name is registered and all
    those paths exist, organize_file returns normally, copies nothing,
    leaves the file system and the registry as they were and prints no
    error: the console gains at most the Request record. *)
Theorem exhausted_search_is_bounded_and_silent (source d : path)
    (print_info : bool) (w : world) :
  calm w →
  is_audio_file source = true →
  dirs_exist w (parent_path (candidate source d)) →
  occupied w (candidate source d) = true →
  to_lower (filename source) ∈ processed_files w →
  (∀ j, 0 ≤ j < index_bound → occupied w (indexed_path source d j) = true) →
  index_bound = 999999
  ∧ ∃ w', organize_file source d print_info w = (Normal tt, w')
          ∧ store w' = store w
          ∧ copies w' = copies w
          ∧ processed_files w' = processed_files w
          ∧ history w' = history w ++ [Organize source]
          ∧ console w'
            = console w ++ (if print_info
                            then [Request source (candidate source d)]
                            else []).
Proof.
  intros Hc Ha Hd Ho Hin Hall. split; [reflexivity|].
  eexists. split; [apply organize_file_exhausted; assumption|].
  destruct (entered_fields source (candidate source d) print_info w)
    as (_ & _ & Hs & Hp & Hh).
  split; [exact Hs|]. split; [|split; [|split]].
  - rewrite (copies_snoc w
               (registered source
                  (entered source (candidate source d) print_info w))
               (Organize source) Hh).
    apply app_nil_r.
  - rewrite registered_already; by rewrite Hp.
  - exact Hh.
  - unfold registered, entered, announce. simpl.
    destruct print_info; simpl; [done | by rewrite app_nil_r].
Qed.

Lemma exhausted_search_is_bounded_and_silent_witness :
  ∃ w', organize_file ["s"; "b"; "kick.wav"] ["d"] false crowded_midrun
        = (Normal tt, w')
        ∧ store w' = store crowded_midrun
        ∧ copies w' = copies crowded_midrun.
Proof.
  destruct crowded_midrun_facts as (Hc & Hd & Ho & Hin & Hall & _).
  destruct (exhausted_search_is_bounded_and_silent
              ["s"; "b"; "kick.wav"] ["d"] false crowded_midrun
              Hc eq_refl Hd Ho Hin Hall) as (_ & w' & E & Hs & Hcp & _).
  exists w'. split; [exact E|]. split; [exact Hs | exact Hcp].
Defined.

(** *** C3: the registry *)

(** C3.  The registry is empty when the program starts; a call of
    organize_file, a walk of process_directory and a whole run of main
    only ever add names to it; and each of them keeps the invariant
    that a name is in the registry if and only if a file with that
    lowercased name has been copied in this run. *)
Theorem registry_grows_and_is_sound (fuel : nat) (source d : path)
    (print_info : bool) (w : world) :
  (∀ ci flt s, processed_files (start ci flt s) = ∅
               ∧ registry_sound (start ci flt s))
  ∧ (let w' := (organize_file source d print_info w).2 in
     processed_files w ⊆ processed_files w'
     ∧ (registry_sound w → registry_sound w'))
  ∧ (let w' := (process_directory fuel source d print_info w).2 in
     processed_files w ⊆ processed_files w'
     ∧ (registry_sound w → registry_sound w'))
  ∧ (let w' := (main fuel source d print_info w).2 in
     processed_files w ⊆ processed_files w'
     ∧ (registry_sound w → registry_sound w')).
Proof.
  split; [|split; [|split]].
  - intros ci flt s. split; [reflexivity | apply start_registry_sound].
  - destruct (organize_file source d print_info w) as [r w'] eqn:E.
    by apply organize_file_keeps in E.
  - destruct (process_directory fuel source d print_info w) as [r w'] eqn:E.
    by apply process_directory_keeps in E.
  - destruct (main fuel source d print_info w) as [r w'] eqn:E.
    by apply main_keeps in E.
Qed.

Lemma registry_grows_and_is_sound_witness :
  registry_sound (main 6 ["s"] ["d"] false
                    (start false no_fault fresh_store)).2
  ∧ "kick.wav" ∈ processed_files
                   (main 6 ["s"] ["d"] false
                      (start false no_fault fresh_store)).2.
Proof.
  split.
  - destruct (registry_grows_and_is_sound 6 ["s"] ["d"] false
                (start false no_fault fresh_store)) as (H0 & _ & _ & [_ H]).
    apply H. apply H0.
  - apply (bool_decide_unpack _). vm_compute. exact I.
Defined.

(** *** C5: failures do not stop the run *)

(** C5.  organize_file always returns normally; when a file system call
    of its try block (create directories, remove, copy) throws, the
    state is the one the throw left, with the line "Error copying file:
    what" added to the console, what being the message of the error;
    the loop of process_directory then goes on with the next entry.
    process_directory lets no error escape either, and on a file system
    of bounded depth it returns, given fuel for that depth.  main, once
    its own set-up calls have passed, ends by printing the success
    message and returns 0, whatever failed for single files; its only
    other ends are the exit with 1 for a missing source and an error
    thrown by the set-up calls, before any file was looked at. *)
Theorem failures_are_caught (source d : path) (print_info : bool)
    (w : world) :
  (∃ w', organize_file source d print_info w = (Normal tt, w'))
  ∧ (∀ what w1,
       is_audio_file source = true →
       place source d (candidate source d) print_info
         (with_history (history w ++ [Organize source]) w)
       = (Throw what, w1) →
       organize_file source d print_info w
       = (Normal tt,
          with_console (console w1 ++ [Error_copying_file what]) w1))
  ∧ (∀ fuel rest,
       fault w (Call_is_directory source) = None → ¬ is_dir w source →
       for_each (source :: rest) (visit fuel d print_info) w
       = for_each rest (visit fuel d print_info)
           (organize_file source d print_info w).2)
  ∧ (∀ fuel what w',
       process_directory fuel source d print_info w ≠ (Throw what, w'))
  ∧ (∀ L fuel,
       shallow L w → (length d + 3 ≤ L)%nat →
       (1 ≤ fuel)%nat → (L < fuel + length source)%nat →
       (∃ w', process_directory fuel source d print_info w = (Normal tt, w'))
       ∧ match (main fuel source d print_info w).1 with
         | Normal code =>
             (code = 1 ∧ occupied w source = false
              ∧ visits (main fuel source d print_info w).2 = visits w)
             ∨ (code = 0
                ∧ ∃ c, console (main fuel source d print_info w).2
                       = c ++ [Splice_Files_organized_successfully;
                               Press_Enter_to_exit])
         | Throw _ => visits (main fuel source d print_info w).2 = visits w
         | Out_of_fuel => False
         end).
Proof.
  split; [apply organize_file_returns|]. split; [|split; [|split]].
  - intros what w1 Ha E. rewrite organize_file_run. cbn zeta.
    by rewrite Ha, E.
  - intros fuel rest Hf Hd.
    assert (visit fuel d print_info source w
            = organize_file source d print_info w) as Hv.
    { unfold visit, visit_entry.
      erewrite bind_run; [|by apply is_directory_run].
      destruct (lookup_path w source) as [[?|names]|] eqn:El; try done.
      destruct Hd. by exists names. }
    destruct (organize_file_returns source d print_info w) as [w' E].
    simpl. erewrite bind_run; [|rewrite Hv; exact E]. by rewrite E.
  - intros fuel what w'. apply process_directory_catches_all.
  - intros L fuel Hs HL H1 Hf. split.
    + by apply (process_directory_returns d L).
    + destruct (main fuel source d print_info w) as [r w'] eqn:E.
      by apply (main_outcome d L fuel source print_info w w' r).
Qed.

Lemma failures_are_caught_witness :
  let w := start false refuse_one ready_store in
  (∃ w', process_directory 6 ["s"] ["d"] true w = (Normal tt, w'))
  ∧ (main 6 ["s"] ["d"] true w).1 = Normal 0
  ∧ console (main 6 ["s"] ["d"] true w).2
    = [Banner;
       Request ["s"; "a"; "kick.wav"] ["d"; "Drums"; "Kick"; "kick.wav"];
       Error_copying_file "Permission denied";
       Request ["s"; "b"; "kick.wav"] ["d"; "Drums"; "Kick"; "kick.wav"];
       Moved ["s"; "b"; "kick.wav"] ["d"; "Drums"; "Kick"; "kick.wav"];
       Request ["s"; "b"; "808_kick.wav"]
         ["d"; "Drums"; "808"; "808_kick.wav"];
       Moved ["s"; "b"; "808_kick.wav"]
         ["d"; "Drums"; "808"; "808_kick.wav"];
       Request ["s"; "b"; "kick.mp3"] ["d"; "Drums"; "Kick"; "kick.mp3"];
       Moved ["s"; "b"; "kick.mp3"] ["d"; "Drums"; "Kick"; "kick.mp3"];
       Request ["s"; "Hat_Loop.MP3"] ["d"; "Drums"; "Hat"; "Hat_Loop.MP3"];
       Moved ["s"; "Hat_Loop.MP3"] ["d"; "Drums"; "Hat"; "Hat_Loop.MP3"];
       Splice_Files_organized_successfully; Press_Enter_to_exit]
  ∧ ∃ w', organize_file ["s"; "a"; "kick.wav"] ["d"] true w
          = (Normal tt, w')
          ∧ console w'
            = [Request ["s"; "a"; "kick.wav"]
                 ["d"; "Drums"; "Kick"; "kick.wav"];
               Error_copying_file "Permission denied"].
Proof.
  intros w.
  destruct (failures_are_caught ["s"] ["d"] true w) as (_ & _ & _ & _ & H).
  destruct (H 4%nat 6%nat) as [H1 _].
  { apply table_shallow. vm_compute. reflexivity. }
  { simpl. lia. }
  { lia. }
  { simpl. lia. }
  split; [exact H1|]. split; [vm_compute; reflexivity|].
  split; [vm_compute; reflexivity|].
  destruct (failures_are_caught ["s"; "a"; "kick.wav"] ["d"] true w)
    as (_ & H2 & _).
  set (thrown := place ["s"; "a"; "kick.wav"] ["d"]
                   (candidate ["s"; "a"; "kick.wav"] ["d"]) true
                   (with_history
                      (history w ++ [Organize ["s"; "a"; "kick.wav"]]) w)).
  exists (with_console
            (console thrown.2 ++ [Error_copying_file "Permission denied"])
            thrown.2).
  split.
  - apply (H2 "Permission denied" thrown.2); [reflexivity|].
    rewrite (surjective_pairing thrown) at 1. f_equal.
  - vm_compute. reflexivity.
Defined.

(** *** C8: every file is visited once *)




(** *** C9: the source tree *)

(** C9.  The overwrite branch removes the candidate without looking
    whether it is the source file itself.  When the destination root is
    the source root and holds a sorted file of an earlier run, the
    candidate of that file is the file: the run removes it, the copy
    that follows has nothing left to copy and fails, the error is
    printed and the run ends with code 0.  A file under the source root
    is gone and nothing replaces it. *)
Lemma in_place_run_deletes_a_source_file :
  let w := start false no_fault inplace_store in
  let w' := (main 6 ["s"] ["s"] false w).2 in
  (main 6 ["s"] ["s"] false w).1 = Normal 0
  ∧ lookup_path w ["s"; "Drums"; "Kick"; "kick.wav"] = Some (File "A")
  ∧ lookup_path w' ["s"; "Drums"; "Kick"; "kick.wav"] = None
  ∧ history w' = [Organize ["s"; "Drums"; "Kick"; "kick.wav"];
                  Remove ["s"; "Drums"; "Kick"; "kick.wav"]]
  ∧ ∃ what,
      console w' = [Banner; Error_copying_file what;
                    Splice_Files_organized_successfully; Press_Enter_to_exit].
Proof. vm_compute. repeat split. by eexists. Qed.

(** X23.  Every fs::remove a run of main issues and every copy it
    makes targets a path below the destination root, whatever the
    outcome of the run.  When neither of the source and destination
    roots lies inside the other, nor are they equal, nothing at or
    below the source root is changed by the run: every path there holds
    after the run what it held before, so a tree mounted at the source
    root is still mounted there. *)
Theorem source_tree_is_left_intact (fuel : nat) (source d : path)
    (print_info : bool) (w : world) :
  let w' := (main fuel source d print_info w).2 in
  (∃ h, history w' = history w ++ h
        ∧ ∀ a, a ∈ h → match a with
                       | Organize _ => True
                       | Remove p => below d p
                       | Copy _ to => below d to
                       end)
  ∧ (apart w source d →
     (∀ p, source `prefix_of` p → lookup_path w' p = lookup_path w p)
     ∧ (∀ t, mounted w source t → mounted w' source t)).
Proof.
  destruct (main fuel source d print_info w) as [r w'] eqn:E. simpl.
  apply (evolves_main d (length d + 3)) in E; [|done].
  split.
  - destruct (ev_history _ _ _ _ _ E) as (h & Hh & Hf).
    exists h. split; [done|]. intros a Ha.
    rewrite List.Forall_forall in Hf. apply list_elem_of_In in Ha.
    exact (Hf a Ha).
  - intros Ha. split.
    + intros p Hp. unfold lookup_path, key. rewrite (ev_case _ _ _ _ _ E).
      apply (ev_frame _ _ _ _ _ E).
      apply (apart_below w source d p); [done|]. by apply canon_prefix.
    + intros t Ht. by apply (mounted_evolves _ _ _ source w w' E Ha).
Qed.

Lemma source_tree_is_left_intact_witness :
  let w := start false no_fault ready_store in
  let w' := (main 6 ["s"] ["d"] false w).2 in
  lookup_path w' ["s"; "a"; "kick.wav"] = Some (File "A")
  ∧ mounted w' ["s"] (Folder library_tree).
Proof.
  intros w w'.
  destruct (source_tree_is_left_intact 6 ["s"] ["d"] false w) as [_ H].
  destruct H as [H1 H2].
  { intros [H|H]; apply prefix_cons_inv_1 in H; discriminate H. }
  split.
  - unfold w'. rewrite H1; [reflexivity|]. by exists ["a"; "kick.wav"].
  - apply H2. simpl. repeat split; reflexivity.
Defined.

(** *** C10: what the registry is keyed by *)

Lemma copy_and_print_copies (from to : path) (print_info : bool)
    (w w' : world) (r : outcome unit) :
  (fs_copy_file from to ;;
   when print_info (print_file_move_info from to)) w = (r, w') →
  processed_files w' = processed_files w
  ∧ (copies w' = copies w ∨ copies w' = copies w ++ [(from, to)]).
Proof.
  intros H. apply bind_inv in H as [(a & w1 & E & H) | [(e & E & ->) | [E ->]]].
  - apply fs_copy_file_ghost in E as [Hp Hc].
    assert (ghost_neutral w1 w') as [Hp' Hc'].
    { apply when_inv in H as [[_ H] | (_ & -> & ->)]; [|done].
      by injection H as <- <-. }
    split; [congruence|]. right. congruence.
  - apply fs_copy_file_ghost in E as [Hp Hc]. auto.
  - by apply halts_fs_copy_file in E.
Qed.

Lemma place_unregistered (source d dest_path : path) (print_info : bool)
    (w w' : world) (r : outcome unit) :
  filename dest_path = filename source →
  to_lower (filename source) ∉ processed_files w →
  place source d dest_path print_info w = (r, w') →
  copies w' = copies w ∨ copies w' = copies w ++ [(source, dest_path)].
Proof.
  intros Hname Hnin H. unfold place, create_parent_directories in H.
  assert (∀ w1 w2 (x : outcome unit),
            ghost_neutral w w1 →
            processed_files w2 = processed_files w1
            ∧ (copies w2 = copies w1
               ∨ copies w2 = copies w1 ++ [(source, dest_path)]) →
            ∀ w3, copies w3 = copies w2 →
            copies w3 = copies w ∨ copies w3 = copies w ++ [(source, dest_path)])
    as Hfin.
  { intros w1 w2 x [_ H1] [_ H2] w3 H3. rewrite H3, <- H1. exact H2. }
  apply bind_inv in H as [(a & w1 & E & H) | [(e & E & ->) | [E ->]]].
  2,3: left; apply (respects_bind ghost_neutral) in E;
    [apply E | apply neutral_fs_create_directories
     | intros ?; apply respects_ret; apply _].
  apply (respects_bind ghost_neutral) in E;
    [| apply neutral_fs_create_directories
     | intros ?; apply respects_ret; apply _].
  apply bind_inv in H as [(a' & w2 & E' & H) | [(e & E' & ->) | [E' ->]]].
  2,3: left; apply (respects_when ghost_neutral) in E';
    [by destruct E as [_ <-]; apply E' | apply neutral_print].
  apply (respects_when ghost_neutral) in E'; [|apply neutral_print].
  assert (ghost_neutral w w2) as Hn by by transitivity w1.
  clear E E' a a' w1.
  apply bind_inv in H as [(e & w3 & E & H) | [(e & E & ->) | [E ->]]].
  2,3: left; apply (respects_fs_exists eq) in E as ->; apply Hn.
  apply (respects_fs_exists eq) in E as <-.
  assert (∀ x w4,
            (if negb e then
               fs_copy_file source dest_path ;;
               when print_info (print_file_move_info source dest_path)
             else
               p ← file_already_processed dest_path;
               if negb p then
                 fs_remove dest_path ;;
                 fs_copy_file source dest_path ;;
                 when print_info (print_file_move_info source dest_path)
               else indexed_copy index_iterations 0 source d print_info)
              w2 = (x, w4) →
            processed_files w4 = processed_files w2
            ∧ (copies w4 = copies w2
               ∨ copies w4 = copies w2 ++ [(source, dest_path)])) as Hmid.
  { intros x w4 E. destruct e; cbn [negb] in E;
      [|by eapply copy_and_print_copies].
    apply bind_inv in E as [(p & w5 & E5 & E) | [(? & [=] & _) | [[=] _]]].
    injection E5 as <- <-. rewrite Hname in E.
    rewrite bool_decide_eq_false_2 in E.
    2:{ destruct Hn as [-> _]. exact Hnin. }
    cbn [negb] in E.
    apply bind_inv in E as [(b & w6 & E6 & E) | [(? & E6 & ->) | [E6 ->]]].
    - apply neutral_fs_remove in E6 as [Hp6 Hc6].
      apply copy_and_print_copies in E as [Hp Hc].
      split; [congruence|]. rewrite <- Hc6. exact Hc.
    - apply neutral_fs_remove in E6 as [Hp6 Hc6]. auto.
    - by apply halts_fs_remove in E6. }
  apply bind_inv in H as [([] & w4 & E & H) | [(what & E & ->) | [E ->]]].
  - injection H as <- <-. apply Hmid in E.
    by apply (Hfin w2 w4 (Normal tt) Hn E).
  - apply Hmid in E. by apply (Hfin w2 w' (Normal tt) Hn E).
  - apply Hmid in E. by apply (Hfin w2 w' (Normal tt) Hn E).
Qed.

Lemma organize_file_unregistered (source d : path) (print_info : bool)
    (w : world) :
  to_lower (filename source) ∉ processed_files w →
  let w' := (organize_file source d print_info w).2 in
  copies w' = copies w
  ∨ copies w' = copies w ++ [(source, candidate source d)].
Proof.
  intros Hnin. rewrite organize_file_run. cbn zeta.
  set (w0 := with_history (history w ++ [Organize source]) w).
  assert (copies w0 = copies w) as H0.
  { by rewrite (copies_snoc w w0 (Organize source)), app_nil_r. }
  destruct (negb (is_audio_file source)); [by left|].
  destruct (place _ _ _ _ _) as [r w1] eqn:E.
  apply place_unregistered in E; [|apply candidate_filename | exact Hnin].
  rewrite H0 in E. by destruct r as [[]|what|].
Qed.

Lemma candidate_key_ignore_case (s1 s2 d : path) (w : world) :
  ignore_case w = true →
  to_lower (filename s1) = to_lower (filename s2) →
  key w (candidate s1 d) = key w (candidate s2 d).
Proof.
  intros Hci Hn. unfold key, candidate, path_append. rewrite Hci. cbn zeta.
  simpl. rewrite !fmap_app. simpl. by rewrite Hn.
Qed.

(** C10 (counterexample).  On a volume that distinguishes case, Kick.WAV
    and kick.wav of two source folders share the registry entry
    "kick.wav", yet the second one placed does not take the indexed
    path: its candidate d/Drums/Kick/kick.wav does not exist, so it is
    copied there. *)
Lemma case_twins_on_a_case_sensitive_volume :
  let w' := (main 6 ["s"] ["d"] false
               (start false no_fault (mixed_case_store false))).2 in
  to_lower "Kick.WAV" = to_lower "kick.wav"
  ∧ elements (processed_files w') = ["kick.wav"]
  ∧ history w'
    = [Organize ["s"; "a"; "Kick.WAV"];
       Copy ["s"; "a"; "Kick.WAV"] ["d"; "Drums"; "Kick"; "Kick.WAV"];
       Organize ["s"; "b"; "kick.wav"];
       Copy ["s"; "b"; "kick.wav"] ["d"; "Drums"; "Kick"; "kick.wav"]]
  ∧ lookup_path w' ["d"; "kick_0.wav"] = None.
Proof. vm_compute. by repeat split. Qed.

(** C10 (amended).  Membership in the registry is decided on the
    complete lowercased file name, extension included.  Two files whose
    names differ in case only share one entry, and the second one
    placed takes the indexed path whenever its candidate path exists,
    as it does on a volume that ignores case while the first copy is in
    place; where the volume distinguishes case and the candidate does
    not exist it is copied to the candidate instead.  Two files whose
    lowercased names differ, as kick.wav and kick.mp3 do, are distinct
    entries: placing one never makes the other take the indexed path,
    its copy, if any, goes to its candidate. *)
Theorem registry_is_keyed_by_lowercased_filename (s1 s2 d : path)
    (print_info : bool) (w : world) :
  file_already_processed s2 w
  = (Normal (bool_decide (to_lower (filename s2) ∈ processed_files w)), w)
  ∧ (to_lower (filename s1) = to_lower (filename s2) →
     processed_files (registered s2 (registered s1 w))
     = processed_files (registered s1 w)
     ∧ (ignore_case w = true →
        lookup_path w (candidate s2 d) = lookup_path w (candidate s1 d))
     ∧ (∀ data n,
          calm w → is_audio_file s2 = true →
          dirs_exist w (parent_path (candidate s2 d)) →
          lookup_path w s2 = Some (File data) →
          to_lower (filename s1) ∈ processed_files w →
          occupied w (candidate s2 d) = true →
          0 ≤ n < index_bound →
          (∀ j, 0 ≤ j < n → occupied w (indexed_path s2 d j) = true) →
          occupied w (indexed_path s2 d n) = false →
          ∃ w', organize_file s2 d print_info w = (Normal tt, w')
                ∧ history w'
                  = history w ++ [Organize s2;
                                  Copy s2 (indexed_path s2 d n)]))
  ∧ (to_lower (filename s1) ≠ to_lower (filename s2) →
     (processed_files w = ∅ →
      to_lower (filename s2) ∉ processed_files (registered s1 w))
     ∧ (to_lower (filename s2) ∉ processed_files w →
        let w' := (organize_file s2 d print_info w).2 in
        copies w' = copies w
        ∨ copies w' = copies w ++ [(s2, candidate s2 d)])).
Proof.
  split; [reflexivity|]. split.
  - intros Hn. split; [|split].
    + apply registered_already. unfold registered. simpl.
      rewrite <- Hn. apply elem_of_union. left. by apply elem_of_singleton.
    + intros Hci. unfold lookup_path.
      by rewrite (candidate_key_ignore_case s1 s2 d w Hci Hn).
    + intros data n Hc Ha Hd Hs Hin Ho Hb Hall Hfree.
      rewrite Hn in Hin.
      destruct (organize_file_indexed_effect s2 d print_info w data n)
        as (w' & E & _ & _ & _ & Hh); try done.
      by exists w'.
  - intros Hne. split.
    + intros Hw. unfold registered. simpl. rewrite Hw.
      intros [H|H]%elem_of_union.
      * apply elem_of_singleton in H. by apply Hne.
      * by apply elem_of_empty in H.
    + apply organize_file_unregistered.
Qed.

Lemma registry_is_keyed_by_lowercased_filename_witness :
  (∃ w', organize_file ["s"; "b"; "kick.wav"] ["d"] false mixed_midrun
         = (Normal tt, w')
         ∧ history w'
           = [Organize ["s"; "a"; "Kick.WAV"];
              Copy ["s"; "a"; "Kick.WAV"] ["d"; "Drums"; "Kick"; "Kick.WAV"];
              Organize ["s"; "b"; "kick.wav"];
              Copy ["s"; "b"; "kick.wav"] ["d"; "kick_0.wav"]])
  ∧ (let w' := (organize_file ["s"; "b"; "kick.mp3"] ["d"] false
                  ready_midrun).2 in
     copies w' = copies ready_midrun
     ∨ copies w'
       = copies ready_midrun
         ++ [(["s"; "b"; "kick.mp3"], ["d"; "Drums"; "Kick"; "kick.mp3"])]).
Proof.
  split.
  - destruct (registry_is_keyed_by_lowercased_filename
                ["s"; "a"; "Kick.WAV"] ["s"; "b"; "kick.wav"] ["d"] false
                mixed_midrun) as (_ & H & _).
    destruct (H eq_refl) as (_ & _ & H').
    destruct (H' "B" 0) as (w' & E & Hh).
    + intros c. vm_compute. reflexivity.
    + reflexivity.
    + apply dirs_check_sound. vm_compute. reflexivity.
    + vm_compute. reflexivity.
    + apply (bool_decide_unpack _). vm_compute. exact I.
    + vm_compute. reflexivity.
    + unfold index_bound. lia.
    + intros j Hj. lia.
    + vm_compute. reflexivity.
    + exists w'. split; [exact E | exact Hh].
  - destruct (registry_is_keyed_by_lowercased_filename
                ["s"; "a"; "kick.wav"] ["s"; "b"; "kick.mp3"] ["d"] false
                ready_midrun) as (_ & _ & H).
    destruct H as [_ H].
    + intros Heq. discriminate Heq.
    + apply H. apply (bool_decide_unpack _). vm_compute. exact I.
Defined.

(** ** Part III. Further properties of the code *)

(** *** Strings and file names *)

Lemma tolower_not_upper (c : ascii) : ¬ upper_case (tolower c).
Proof.
  unfold upper_case.
  destruct c as [[] [] [] [] [] [] [] []]; vm_compute; intros [H1 H2];
    try (by apply H1); by apply H2.
Qed.

Lemma tolower_fixes (c : ascii) : tolower c = c ↔ ¬ upper_case c.
Proof.
  unfold upper_case.
  destruct c as [[] [] [] [] [] [] [] []]; vm_compute;
    (split; [intros E [H1 H2]; try discriminate E; try (by apply H1);
             by apply H2
            | intros H; try reflexivity; exfalso; apply H;
              split; intros E; discriminate E]).
Qed.

Lemma length_transform (f : ascii → ascii) (s : string) :
  String.length (transform f s) = String.length s.
Proof. induction s as [|c s IH]; simpl; [reflexivity | by rewrite IH]. Qed.

Lemma get_transform (f : ascii → ascii) (s : string) (i : nat) :
  String.get i (transform f s) = f <$> String.get i s.
Proof.
  revert i. induction s as [|c s IH]; intros i; simpl; [reflexivity|].
  destruct i as [|i]; [reflexivity | apply IH].
Qed.

Lemma transform_app (f : ascii → ascii) (a b : string) :
  transform f (a +:+ b) = transform f a +:+ transform f b.
Proof.
  induction a as [|c a IH]; [reflexivity|].
  rewrite append_cons. simpl. rewrite append_cons. by rewrite IH.
Qed.

Lemma to_lower_fixed_iff (s : string) :
  to_lower s = s ↔ ∀ i c, String.get i s = Some c → ¬ upper_case c.
Proof.
  unfold to_lower. induction s as [|a s IH]; simpl.
  - split; [intros _ i c H; discriminate H | reflexivity].
  - split.
    + intros E. injection E as Ea Es. intros [|i] c H.
      * injection H as <-. by apply tolower_fixes.
      * by apply (proj1 IH Es i).
    + intros H. f_equal.
      * apply tolower_fixes. by apply (H 0%nat).
      * apply IH. intros i c Hi. by apply (H (S i)).
Qed.

(** X1.  to_lower keeps the length of its argument and changes it
    character by character with ::tolower; its result holds no upper-case
    letter; it leaves a string as it is exactly when the string holds
    none; applying it twice is applying it once; and it distributes over
    concatenation. *)
Theorem to_lower_yields_lower_case (s : string) :
  String.length (to_lower s) = String.length s
  ∧ (∀ i, String.get i (to_lower s) = tolower <$> String.get i s)
  ∧ (∀ i c, String.get i (to_lower s) = Some c → ¬ upper_case c)
  ∧ (to_lower s = s ↔ ∀ i c, String.get i s = Some c → ¬ upper_case c)
  ∧ to_lower (to_lower s) = to_lower s
  ∧ ∀ t, to_lower (s +:+ t) = to_lower s +:+ to_lower t.
Proof.
  split; [apply length_transform|].
  split; [apply get_transform|].
  split.
  - intros i c. unfold to_lower. rewrite get_transform.
    destruct (String.get i s) as [a|]; simpl; [|done].
    intros [= <-]. apply tolower_not_upper.
  - split; [apply to_lower_fixed_iff|].
    split; [apply to_lower_idem | apply transform_app].
Qed.
Lemma tolower_period (c : ascii) :
  Ascii.eqb (tolower c) "."%char = Ascii.eqb c "."%char.
Proof. destruct c as [[] [] [] [] [] [] [] []]; reflexivity. Qed.

Lemma rfind_from_transform (pos : nat) (s : string) :
  rfind_from pos (transform tolower s) "."%char = rfind_from pos s "."%char.
Proof.
  revert pos. induction s as [|a s IH]; intros pos; simpl; [reflexivity|].
  by rewrite IH, tolower_period.
Qed.

Lemma substring_transform (f : ascii → ascii) (s : string) (i n : nat) :
  String.substring i n (transform f s) = transform f (String.substring i n s).
Proof.
  revert i n. induction s as [|a s IH]; intros i n; simpl.
  - destruct i, n; reflexivity.
  - destruct i as [|i]; [destruct n as [|n]; [reflexivity|]|]; simpl;
      by rewrite IH.
Qed.

Lemma eqb_transform_period (s : string) :
  String.eqb (transform tolower s) "." = String.eqb s "."
  ∧ String.eqb (transform tolower s) ".." = String.eqb s "..".
Proof.
  destruct s as [|a [|b [|c s]]]; simpl; by rewrite ?tolower_period.
Qed.

Lemma extension_start_to_lower (name : string) :
  extension_start (to_lower name) = extension_start name.
Proof.
  unfold extension_start, to_lower, rfind.
  destruct (eqb_transform_period name) as [-> ->].
  by rewrite rfind_from_transform.
Qed.

Lemma extension_of_to_lower (name : string) :
  extension_of (to_lower name) = to_lower (extension_of name).
Proof.
  unfold extension_of. rewrite extension_start_to_lower.
  destruct (extension_start name) as [i|]; [|reflexivity].
  unfold to_lower. by rewrite substring_transform, length_transform.
Qed.

(** X2.  Whether a path is taken for an audio file depends on its
    lowercased file name only: two paths whose file names agree up to
    letter case are both accepted or both skipped. *)
Theorem is_audio_file_ignores_case (p q : path) :
  to_lower (filename p) = to_lower (filename q) →
  is_audio_file p = is_audio_file q.
Proof.
  intros E. unfold is_audio_file, extension.
  by rewrite <- !extension_of_to_lower, E.
Qed.

Lemma is_audio_file_ignores_case_witness :
  is_audio_file ["s"; "Hat_Loop.MP3"] = is_audio_file ["d"; "hat_loop.mp3"].
Proof. apply is_audio_file_ignores_case. reflexivity. Defined.
(** The decimal numerals of std::to_string hold no period and no
    letter. *)
Lemma string_of_uint_clean (d : Decimal.uint) (pos : nat) :
  rfind_from pos (NilEmpty.string_of_uint d) "."%char = None
  ∧ to_lower (NilEmpty.string_of_uint d) = NilEmpty.string_of_uint d.
Proof.
  revert pos. unfold to_lower.
  induction d as [|d IH|d IH|d IH|d IH|d IH|d IH|d IH|d IH|d IH|d IH];
    intros pos; simpl; [done|..];
    destruct (IH (S pos)) as [-> ->]; done.
Qed.

Lemma to_string_clean (i : Z) (pos : nat) :
  rfind_from pos (to_string i) "."%char = None
  ∧ to_lower (to_string i) = to_string i.
Proof.
  unfold to_string, NilZero.string_of_int, NilZero.string_of_uint.
  destruct (Z.to_int i) as [d|d]; destruct d; try done;
    try apply (string_of_uint_clean (_ d)).
  all: unfold to_lower; simpl;
    match goal with
    | |- context [NilEmpty.string_of_uint ?u] =>
        destruct (string_of_uint_clean u (S (S pos))) as [-> E];
        unfold to_lower in E; by rewrite E
    end.
Qed.

Lemma to_string_inj (i j : Z) : to_string i = to_string j → i = j.
Proof.
  unfold to_string. intros E. apply DecimalZ.to_int_inj.
  assert (∀ z, Z.to_int z ≠ Decimal.Pos Decimal.Nil
               ∧ Z.to_int z ≠ Decimal.Neg Decimal.Nil) as Hn.
  { intros [|p|p]; simpl; split; try done; intros [= H];
      by apply DecimalPos.Unsigned.to_uint_nonnil in H. }
  destruct (Hn i) as [Hi1 Hi2], (Hn j) as [Hj1 Hj2].
  pose proof (NilZero.isi _ Hi1 Hi2) as Ei.
  pose proof (NilZero.isi _ Hj1 Hj2) as Ej.
  rewrite E in Ei. congruence.
Qed.
Lemma rfind_from_Some (pos : nat) (s : string) (c : ascii) (i : nat) :
  rfind_from pos s c = Some i →
  ∃ a b, s = a +:+ String c b ∧ i = (pos + String.length a)%nat
         ∧ rfind_from 0 b c = None.
Proof.
  revert pos. induction s as [|x s IH]; intros pos; simpl; [done|].
  destruct (rfind_from (S pos) s c) as [k|] eqn:E.
  - intros [= <-]. destruct (IH _ E) as (a & b & -> & -> & Hb).
    exists (String x a), b. rewrite append_cons. simpl.
    split; [done|]. split; [lia | done].
  - destruct (Ascii.eqb x c) eqn:Ex; [|done]. intros [= <-].
    apply Ascii.eqb_eq in Ex as ->. exists "", s. simpl.
    split; [done|]. split; [lia|]. by apply (rfind_from_None_pos (S pos)).
Qed.

Lemma rfind_from_app_clean (pos : nat) (a b : string) (c : ascii) :
  rfind_from 0 b c = None →
  rfind_from pos (a +:+ b) c = rfind_from pos a c.
Proof.
  intros Hb. revert pos. induction a as [|x a IH]; intros pos.
  - simpl. by apply (rfind_from_None_pos 0).
  - rewrite append_cons. simpl. by rewrite IH.
Qed.

Lemma append_assoc (a b c : string) : (a +:+ b) +:+ c = a +:+ (b +:+ c).
Proof.
  induction a as [|x a IH]; [done|]. rewrite !append_cons. by rewrite IH.
Qed.

Lemma append_nil_r (a : string) : a +:+ "" = a.
Proof. induction a as [|x a IH]; [done|]. rewrite append_cons. by rewrite IH. Qed.

Lemma suffix_clean (i : Z) : rfind_from 0 ("_" +:+ to_string i) "."%char = None.
Proof.
  change ("_" +:+ to_string i) with (String "_" (to_string i)). simpl.
  by destruct (to_string_clean i 1) as [-> _].
Qed.

Lemma to_string_length (i : Z) : (1 ≤ String.length (to_string i))%nat.
Proof.
  unfold to_string, NilZero.string_of_int, NilZero.string_of_uint.
  destruct (Z.to_int i) as [[]|[]]; simpl; lia.
Qed.

Lemma long_name (s : string) :
  (3 ≤ String.length s)%nat →
  String.eqb s "." || String.eqb s ".." = false.
Proof.
  destruct s as [|x [|y [|z s]]]; simpl; try lia. intros _.
  destruct (Ascii.eqb x "."); [|done]. by destruct (Ascii.eqb y ".").
Qed.

(** X3.  For every file name other than "..", the name with an index
    appended has the stem of the original followed by an underscore and
    the decimal index, and has the extension of the original unchanged;
    so it is taken for an audio file exactly when the original is. *)
Theorem indexed_name_keeps_stem_and_extension (name : string) (i : Z) :
  name ≠ ".." →
  stem_of (append_index_to_filename name i)
  = stem_of name +:+ "_" +:+ to_string i
  ∧ extension_of (append_index_to_filename name i) = extension_of name
  ∧ ∀ p q, is_audio_file (p // append_index_to_filename name i)
           = is_audio_file (q // name).
Proof.
  intros Hdd.
  cut (stem_of (append_index_to_filename name i)
       = stem_of name +:+ "_" +:+ to_string i
       ∧ extension_of (append_index_to_filename name i) = extension_of name).
  { intros [H1 H2]. split; [done|]. split; [done|]. intros p q.
    unfold is_audio_file, extension. by rewrite !filename_snoc, H2. }
  unfold append_index_to_filename.
  pose proof (suffix_clean i) as Hclean.
  pose proof (to_string_length i) as Hlen.
  destruct (rfind_from 0 name ".") as [[|k]|] eqn:Ek.
  - (* the only period leads the name *)
    assert (extension_start name = None) as E0.
    { unfold extension_start, rfind. rewrite Ek. by destruct (_ || _). }
    assert (extension_start (name +:+ "_" +:+ to_string i) = None) as E1.
    { unfold extension_start, rfind.
      rewrite (rfind_from_app_clean 0 name _ "." Hclean), Ek.
      by destruct (_ || _). }
    unfold stem_of, extension_of. rewrite E0, append_nil_r, E1. done.
  - (* a proper extension *)
    destruct (rfind_from_Some _ _ _ _ Ek) as (a & b & -> & Ea & Hb).
    simpl in Ea.
    assert (extension_start (a +:+ String "." b) = Some (String.length a))
      as E0.
    { unfold extension_start, rfind. rewrite Ek, <- Ea.
      replace (String.eqb _ "." || String.eqb _ "..") with false; [done|].
      symmetry. apply orb_false_iff. split; apply String.eqb_neq; [|done].
      intros E. rewrite E in Ek. discriminate Ek. }
    assert (stem_of (a +:+ String "." b) = a) as Est.
    { unfold stem_of. rewrite E0. apply substring_take. }
    assert (extension_of (a +:+ String "." b) = String "." b) as Eex.
    { unfold extension_of. rewrite E0, substring_skip, length_append.
      replace (_ + _ - _)%nat with (String.length (String "." b)) by lia.
      apply substring_all. }
    rewrite Est, Eex.
    set (stem' := a +:+ "_" +:+ to_string i).
    replace (a +:+ "_" +:+ to_string i +:+ String "." b)
      with (stem' +:+ String "." b)
      by (unfold stem'; by rewrite !append_assoc).
    assert (String.length stem' = S (String.length a
                                     + String.length (to_string i)))%nat
      as Hl.
    { unfold stem'. rewrite length_append.
      change ("_" +:+ to_string i) with (String "_" (to_string i)).
      simpl. lia. }
    assert (extension_start (stem' +:+ String "." b)
            = Some (String.length stem')) as E1.
    { unfold extension_start, rfind.
      rewrite (rfind_from_last 0 _ b "." Hb). simpl plus. rewrite Hl.
      rewrite long_name; [done|].
      rewrite length_append, Hl. simpl. lia. }
    unfold stem_of, extension_of. rewrite E1. split.
    + apply substring_take.
    + rewrite substring_skip, length_append.
      replace (_ + _ - _)%nat with (String.length (String "." b)) by lia.
      apply substring_all.
  - (* no period at all *)
    assert (extension_start name = None) as E0.
    { unfold extension_start, rfind. rewrite Ek. by destruct (_ || _). }
    assert (extension_start (name +:+ "_" +:+ to_string i) = None) as E1.
    { unfold extension_start, rfind.
      rewrite (rfind_from_app_clean 0 name _ "." Hclean), Ek.
      by destruct (_ || _). }
    unfold stem_of, extension_of. rewrite E0, append_nil_r, E1. done.
Qed.

Lemma indexed_name_keeps_stem_and_extension_witness :
  stem_of (append_index_to_filename "Deep.Kick.WAV" 12) = "Deep.Kick_12"
  ∧ extension_of (append_index_to_filename "Deep.Kick.WAV" 12) = ".WAV".
Proof.
  destruct (indexed_name_keeps_stem_and_extension "Deep.Kick.WAV" 12)
    as (H1 & H2 & _).
  - intros E. discriminate E.
  - split; [exact H1 | exact H2].
Defined.
Lemma append_cancel_r (a b e : string) : a +:+ e = b +:+ e → a = b.
Proof.
  revert b. induction a as [|x a IH]; intros [|y b] E.
  - done.
  - apply (f_equal String.length) in E. rewrite !length_append in E.
    simpl in E. lia.
  - apply (f_equal String.length) in E. rewrite !length_append in E.
    simpl in E. lia.
  - rewrite !append_cons in E. injection E as -> E. f_equal. by apply IH.
Qed.

Lemma to_lower_indexed_name (name : string) (i : Z) :
  to_lower (append_index_to_filename name i)
  = to_lower (stem_of name) +:+ "_" +:+ to_string i
    +:+ to_lower (extension_of name).
Proof.
  unfold append_index_to_filename.
  destruct (to_string_clean i 0) as [_ E]. rewrite <- E at 2.
  unfold to_lower. by rewrite !transform_app.
Qed.

Lemma to_lower_indexed_name_inj (name : string) (i j : Z) :
  to_lower (append_index_to_filename name i)
  = to_lower (append_index_to_filename name j) → i = j.
Proof.
  rewrite !to_lower_indexed_name. intros E.
  apply String.app_inj in E.
  apply (String.app_inj "_") in E.
  apply append_cancel_r in E. by apply to_string_inj.
Qed.

Lemma substring_split (s : string) (i : nat) :
  String.substring 0 i s +:+ String.substring i (String.length s - i) s = s.
Proof.
  revert i. induction s as [|x s IH]; intros [|i]; simpl; try done.
  - by rewrite substring_all.
  - rewrite append_cons. by rewrite IH.
Qed.

Lemma stem_extension_split (name : string) :
  stem_of name +:+ extension_of name = name.
Proof.
  unfold stem_of, extension_of.
  destruct (extension_start name) as [i|];
    [apply substring_split | apply append_nil_r].
Qed.

(** X4.  The names append_index_to_filename builds from one file name
    are pairwise different for different indices, also as canonical paths
    on a volume that ignores case, and none of them is the file name
    itself: the loop of organize_file never tries a path twice. *)
Theorem indexed_names_are_distinct (name : string) (i j : Z) :
  (append_index_to_filename name i = append_index_to_filename name j ↔ i = j)
  ∧ (∀ (w : world) (d : path),
       key w (d // append_index_to_filename name i)
       = key w (d // append_index_to_filename name j) ↔ i = j)
  ∧ append_index_to_filename name i ≠ name.
Proof.
  split; [|split].
  - split; [|by intros ->].
    intros E. apply (to_lower_indexed_name_inj name). by rewrite E.
  - intros w d. split; [|by intros ->].
    unfold key, path_append. rewrite !canon_app. intros E.
    apply app_inv_head in E. apply (to_lower_indexed_name_inj name).
    unfold canon in E. destruct (ignore_case w).
    + simpl in E. by injection E.
    + injection E as E. by rewrite E.
  - intros E. apply (f_equal String.length) in E.
    pose proof (f_equal String.length (stem_extension_split name)) as E'.
    unfold append_index_to_filename in E.
    rewrite length_append in E'. rewrite length_append, append_cons in E.
    simpl in E. rewrite !length_append in E. simpl in E. lia.
Qed.
(** *** Classification *)

Lemma existsb_found_iff (needles : list string) (s : string) :
  existsb (found s) needles = true ↔ matches needles s.
Proof.
  rewrite existsb_exists. unfold matches. split.
  - intros (n & Hn & Hf). exists n.
    split; [by apply list_elem_of_In | by apply found_iff].
  - intros (n & Hn & Hf). exists n.
    split; [by apply list_elem_of_In | by apply found_iff].
Qed.

Lemma first_match_complete (rs : list (list string * category)) (s : string) :
  (∃ earlier needles later,
     rs = earlier ++ (needles, first_match rs s) :: later
     ∧ matches needles s
     ∧ ∀ r, r ∈ earlier → ¬ matches r.1 s)
  ∨ (first_match rs s = Other_Other ∧ ∀ r, r ∈ rs → ¬ matches r.1 s).
Proof.
  induction rs as [|[ns c0] rs IH]; simpl.
  - right. split; [done|]. intros r Hr. by apply elem_of_nil in Hr.
  - destruct (existsb (found s) ns) eqn:E.
    + left. exists [], ns, rs. split; [done|].
      split; [by apply existsb_found_iff|].
      intros r Hr. by apply elem_of_nil in Hr.
    + assert (¬ matches ns s) as Hns.
      { intros H%existsb_found_iff. congruence. }
      destruct IH as [(earlier & needles & later & Hrs & Hm & He) | [Ho Hn]].
      * left. exists ((ns, c0) :: earlier), needles, later.
        split; [|split; [done|]].
        { simpl. f_equal. exact Hrs. }
        intros r [->|Hr]%elem_of_cons; [done | by apply He].
      * right. split; [done|].
        intros r [->|Hr]%elem_of_cons; [done | by apply Hn].
Qed.

Lemma first_match_sound (earlier later : list (list string * category))
    (needles : list string) (c : category) (s : string) :
  matches needles s → (∀ r, r ∈ earlier → ¬ matches r.1 s) →
  first_match (earlier ++ (needles, c) :: later) s = c.
Proof.
  intros Hm. induction earlier as [|[ns c0] earlier IH]; intros He; simpl.
  - apply existsb_found_iff in Hm. by rewrite Hm.
  - destruct (existsb (found s) ns) eqn:E.
    + apply existsb_found_iff in E. destruct (He (ns, c0)); [|done].
      apply elem_of_cons. by left.
    + apply IH. intros r Hr. apply He. apply elem_of_cons. by right.
Qed.

(** X5.  The if/else-if chain is exactly "first matching rule": a name
    is given category c if and only if either some needle of the rule of
    c occurs in the lowercased name and no needle of any earlier rule
    does, or c is Other/Other and no needle of any rule occurs. *)
Theorem classify_is_the_first_matching_rule (name : string) (c : category) :
  classify name = c ↔
  (∃ earlier needles later,
     rules = earlier ++ (needles, c) :: later
     ∧ matches needles (to_lower name)
     ∧ ∀ r, r ∈ earlier → ¬ matches r.1 (to_lower name))
  ∨ (c = Other_Other ∧ ∀ r, r ∈ rules → ¬ matches r.1 (to_lower name)).
Proof.
  unfold classify. rewrite category_of_first_match. split.
  - intros <-.
    destruct (first_match_complete rules (to_lower name))
      as [H | [Ho Hn]]; [by left | right]. by split.
  - intros [(earlier & needles & later & E & Hm & He) | [-> Hn]].
    + rewrite E. by apply first_match_sound.
    + apply first_match_none. intros needles c needle Hr Hin Ho.
      apply (Hn (needles, c) Hr). by exists needle.
Qed.
Lemma found_is_Some (pos : nat) (s needle : string) :
  found s needle = true ↔ is_Some (find_from pos s needle).
Proof. by rewrite found_iff, find_from_iff. Qed.

Lemma found_cons (x : ascii) (s needle : string) :
  found (String x s) needle
  = starts_with needle (String x s) || found s needle.
Proof.
  apply eq_true_iff_eq. rewrite orb_true_iff, (found_is_Some 0).
  simpl find_from. destruct (starts_with needle (String x s)).
  - split; [by left | by eexists].
  - rewrite <- (found_is_Some 1). split; [by right | by intros [|]].
Qed.

Lemma starts_with_before_period (needle s e : string) :
  free_of "." needle = true →
  starts_with needle (s +:+ String "." e) = starts_with needle s.
Proof.
  revert needle. induction s as [|x s IH]; intros [|a needle]; try done.
  - simpl. destruct (Ascii.eqb a "."); done.
  - rewrite append_cons. simpl. intros [_ H]%andb_true_iff.
    by rewrite IH.
Qed.

Lemma found_with_extension (needle s e : string) :
  free_of "." needle && negb (String.eqb needle "") = true →
  found (s +:+ String "." e) needle = found s needle || found e needle.
Proof.
  intros [Hfree Hne]%andb_true_iff.
  induction s as [|x s IH].
  - change ("" +:+ String "." e) with (String "." e). rewrite found_cons.
    rewrite <- (append_nil_r (String "." e)) at 1.
    change (String "." e +:+ "") with ("" +:+ String "." e +:+ "").
    destruct needle as [|a needle]; [done|].
    simpl in Hfree. apply andb_true_iff in Hfree as [Ha _].
    simpl. by destruct (Ascii.eqb a ".").
  - rewrite append_cons, !found_cons, IH.
    rewrite <- (starts_with_before_period needle (String x s) e Hfree).
    rewrite append_cons. by rewrite orb_assoc.
Qed.

Lemma category_of_with_extension (s e : string) :
  (∀ needle, needle ∈ needles_of_rules → found e needle = false) →
  category_of (s +:+ String "." e) = category_of s.
Proof.
  intros H. unfold category_of.
  rewrite !found_with_extension by reflexivity.
  rewrite !H by (vm_compute; set_solver).
  by rewrite !orb_false_r.
Qed.

(** X6.  For a file that organize_file accepts, the extension plays no
    part in the classification: the file name and its stem are given the
    same category. *)
Theorem extension_does_not_classify (source : path) :
  is_audio_file source = true →
  classify (filename source) = classify (stem source).
Proof.
  intros Ha.
  assert (extension_of (filename source) ≠ "") as Hne.
  { unfold is_audio_file, extension in Ha. intros E. by rewrite E in Ha. }
  destruct (extension_of_nonempty _ Hne) as (stem_ & e & En & _ & Ee & Es).
  unfold stem. rewrite Es. rewrite En at 1.
  unfold classify, to_lower. rewrite transform_app.
  change ("." +:+ e) with (String "." e). simpl transform.
  change (tolower ".") with "."%char.
  apply category_of_with_extension.
  unfold is_audio_file, extension in Ha. rewrite Ee in Ha.
  change ("." +:+ e) with (String "." e) in Ha. unfold to_lower in Ha.
  apply orb_true_iff in Ha as [Ha|Ha]; apply String.eqb_eq in Ha;
    simpl in Ha; injection Ha as Ha; rewrite Ha.
  - apply (proj1 (list.Forall_forall (λ n, found "wav" n = false) _)).
    vm_compute. repeat constructor.
  - apply (proj1 (list.Forall_forall (λ n, found "mp3" n = false) _)).
    vm_compute. repeat constructor.
Qed.

Lemma extension_does_not_classify_witness :
  classify "Hat_Loop.MP3" = classify "Hat_Loop".
Proof.
  apply (extension_does_not_classify ["s"; "Hat_Loop.MP3"]). reflexivity.
Defined.
(** *** The exit code of main *)

Lemma bind_normal {A B : Type} (m : M A) (f : A → M B) (w w' : world)
    (b : B) :
  (m ≫= f) w = (Normal b, w') →
  ∃ a w1, m w = (Normal a, w1) ∧ f a w1 = (Normal b, w').
Proof.
  intros H. by apply bind_inv in H as [H | [(? & _ & [=]) | [_ [=]]]].
Qed.

(** X7.  main returns 1 exactly when fs::exists answers false for the
    source folder; it has then printed the banner and "Source folder
    does not exist" and changed nothing else.  The only other value it
    returns is 0. *)
Theorem main_exit_code (fuel : nat) (source d : path) (print_info : bool)
    (w : world) :
  ((main fuel source d print_info w).1 = Normal 1 ↔
   fault w (Call_exists source) = None ∧ occupied w source = false)
  ∧ ((main fuel source d print_info w).1 = Normal 1 →
     (main fuel source d print_info w).2
     = with_console (console w ++ [Banner; Source_folder_does_not_exist]) w)
  ∧ (∀ code, (main fuel source d print_info w).1 = Normal code →
             code = 0 ∨ code = 1).
Proof.
  assert (∀ code w',
            main fuel source d print_info w = (Normal code, w') →
            (code = 1 ∧ fault w (Call_exists source) = None
             ∧ occupied w source = false
             ∧ w' = with_console
                      (console w ++ [Banner; Source_folder_does_not_exist]) w)
            ∨ code = 0) as Hinv.
  { intros code w' H. unfold main in H.
    apply bind_normal in H as ([] & w1 & [= <-] & H).
    apply bind_normal in H as (e & w1 & E & H).
    unfold fs_exists, guarded in E. cbn in E.
    destruct (fault w (Call_exists source)) eqn:Ef; [done|].
    injection E as <- <-.
    change (occupied (with_console (console w ++ [Banner]) w) source)
      with (occupied w source) in H.
    destruct (occupied w source) eqn:Eo; cbn [negb] in H.
    - right.
      do 11 (apply bind_normal in H as (? & ? & _ & H)).
      by injection H as <- _.
    - left. injection H as <- <-. cbn. by rewrite <- app_assoc. }
  destruct (main fuel source d print_info w) as [r w'] eqn:E. cbn [fst snd].
  split; [split|split].
  - intros ->. by destruct (Hinv 1 w' eq_refl) as [(_ & ? & ? & _) | [=]].
  - intros [Hf Ho]. unfold main in E.
    rewrite (bind_run _ _ w (with_console (console w ++ [Banner]) w) tt)
      in E by done.
    erewrite bind_run in E by (by apply fs_exists_run).
    change (occupied (with_console (console w ++ [Banner]) w) source)
      with (occupied w source) in E.
    rewrite Ho in E. cbn [negb] in E. by injection E as <- _.
  - intros ->. by destruct (Hinv 1 w' eq_refl) as [(_ & _ & _ & ?) | [=]].
  - intros code ->.
    destruct (Hinv code w' eq_refl) as [(-> & _) | ->]; [by right | by left].
Qed.
(** *** Failures of the walk itself *)

Lemma for_each_app (l1 l2 : list path) (body : path → M unit) (w : world) :
  for_each (l1 ++ l2) body w = (for_each l1 body ;; for_each l2 body) w.
Proof.
  revert w. induction l1 as [|x l1 IH]; intros w; simpl; [done|].
  unfold mbind, M_bind. destruct (body x w) as [[[]| |] w1]; [|done..].
  apply IH.
Qed.

Lemma bind_throw {A B : Type} (m : M A) (f : A → M B) (w w1 : world)
    (what : string) :
  m w = (Throw what, w1) → (m ≫= f) w = (Throw what, w1).
Proof. intros E. unfold mbind, M_bind. by rewrite E. Qed.

Lemma evolves_visit (fuel : nat) (d : path) (print_info : bool)
    (entry : path) :
  respects (evolves (targets d) d (length d + 3))
    (visit fuel d print_info entry).
Proof.
  unfold visit, visit_entry.
  apply respects_bind; [apply _ | apply respects_is_directory; apply _ |].
  intros [|]; [by apply evolves_process_directory
              | by apply evolves_organize_file].
Qed.

Lemma earlier_entries_return (d : path) (L fuel : nat) (source : path)
    (print_info : bool) (names : list string) (w : world) :
  (length d + 3 ≤ L)%nat →
  shallow L w →
  (L ≤ fuel + length source)%nat →
  (∀ b, b ∈ names → fault w (Call_is_directory (source // b)) = None) →
  ∃ w1,
    for_each (map (path_append source) names) (visit fuel d print_info) w
    = (Normal tt, w1)
    ∧ shallow L w1 ∧ fault w1 = fault w.
Proof.
  intros HL Hw Hfuel. revert w Hw.
  induction names as [|b names IH]; intros w Hw Hcalm.
  { exists w. by repeat split. }
  assert (∃ w2, visit fuel d print_info (source // b) w = (Normal tt, w2)
                ∧ shallow L w2 ∧ fault w2 = fault w) as (w2 & E2 & Hw2 & Hf2).
  { unfold visit, visit_entry.
    erewrite bind_run by (apply is_directory_run, Hcalm; by left).
    destruct (lookup_path w (source // b)) as [[data|entries]|] eqn:El.
    - destruct (organize_file_returns (source // b) d print_info w)
        as [w2 E2].
      exists w2. split; [done|].
      apply (evolves_organize_file d L) in E2; [|done].
      split; [by apply (ev_shallow _ _ _ _ _ E2) | apply (ev_fault _ _ _ _ _ E2)].
    - pose proof (is_dir_length L w (source // b) Hw
                    (ex_intro _ entries El)) as Hlen.
      unfold path_append in Hlen. rewrite length_app in Hlen. simpl in Hlen.
      destruct (process_directory_returns d L print_info HL fuel
                  (source // b) w Hw) as [w2 E2]; [lia | |].
      { unfold path_append. rewrite length_app. simpl. lia. }
      exists w2. split; [done|].
      apply (evolves_process_directory d L) in E2; [|done].
      split; [by apply (ev_shallow _ _ _ _ _ E2) | apply (ev_fault _ _ _ _ _ E2)].
    - destruct (organize_file_returns (source // b) d print_info w)
        as [w2 E2].
      exists w2. split; [done|].
      apply (evolves_organize_file d L) in E2; [|done].
      split; [by apply (ev_shallow _ _ _ _ _ E2) | apply (ev_fault _ _ _ _ _ E2)]. }
  destruct (IH w2 Hw2) as (w1 & E1 & Hw1 & Hf1).
  { intros b' Hb'. rewrite Hf2. apply Hcalm. by right. }
  exists w1. split; [|split; [done | congruence]].
  rewrite map_cons. cbn [for_each]. by erewrite bind_run by exact E2.
Qed.

(** X8.  The try block of process_directory encloses the whole loop.
    On a volume whose paths are at most L components long, with a
    destination root of at most L - 3 components and fuel for that
    depth: when the listing of the source directory succeeds,
    is_directory() throws for one of its entries and for none of the
    entries listed before it, then the entries listed before it are
    processed in turn and that returns normally, the error is printed,
    the entries listed after it are not visited at all, and
    process_directory returns normally. *)
Theorem unreadable_entry_ends_the_listing (L fuel : nat) (source d : path)
    (print_info : bool) (before after : list string) (name what : string)
    (w : world) :
  (length d + 3 ≤ L)%nat →
  shallow L w →
  (L ≤ fuel + length source)%nat →
  fault w (Call_directory_iterator source) = None →
  lookup_path w source = Some (Dir (before ++ name :: after)) →
  (∀ b, b ∈ before → fault w (Call_is_directory (source // b)) = None) →
  fault w (Call_is_directory (source // name)) = Some what →
  ∃ w1,
    for_each (map (path_append source) before) (visit fuel d print_info) w
    = (Normal tt, w1)
    ∧ process_directory (S fuel) source d print_info w
      = (Normal tt,
         with_console (console w1 ++ [Error_processing_file_system what]) w1).
Proof.
  intros HL Hw Hfuel Hit Hdir Hcalm Hst.
  destruct (earlier_entries_return d L fuel source print_info before w)
    as (w1 & Hbefore & _ & Hf); [done..|].
  exists w1. split; [done|].
  cbn [process_directory]. unfold try_catch, directory_iterator.
  rewrite (bind_run _ _ w w (map (path_append source)
                               (before ++ name :: after))).
  2:{ rewrite guarded_calm by done. by rewrite Hdir. }
  rewrite map_app, for_each_app.
  change (visit_entry _ d print_info) with (visit fuel d print_info).
  rewrite (bind_run _ _ w w1 tt Hbefore).
  cbn [map for_each].
  rewrite (bind_throw _ _ w1 w1 what); [done|].
  unfold visit, visit_entry. apply bind_throw.
  unfold is_directory, guarded. by rewrite Hf, Hst.
Qed.

Lemma unreadable_entry_ends_the_listing_witness :
  let w := start false refuse_status ready_store in
  ∃ w1,
    for_each [["s"; "a"]] (visit 3 ["d"] false) w = (Normal tt, w1)
    ∧ process_directory 4 ["s"] ["d"] false w
      = (Normal tt,
         with_console
           (console w1
              ++ [Error_processing_file_system "Input/output error"])
           w1).
Proof.
  apply (unreadable_entry_ends_the_listing 4 3 ["s"] ["d"] false ["a"]
           ["notes.txt"; "Hat_Loop.MP3"] "b").
  - simpl. lia.
  - by apply table_shallow.
  - simpl. lia.
  - reflexivity.
  - reflexivity.
  - intros b ->%list_elem_of_singleton. reflexivity.
  - reflexivity.
Defined.
(** *** The overwrite is not atomic *)

(** X9.  The overwrite of lines 179-180 is not atomic: when the
    candidate exists, the name is not registered, fs::remove succeeds and
    fs::copy_file is then refused, the file that was at the candidate is
    gone, nothing replaces it, the error is printed and the name is not
    registered. *)
Theorem refused_overwrite_loses_the_old_copy (source d : path)
    (print_info : bool) (w : world) (old what : string) :
  (∀ c, c ≠ Call_copy_file source (candidate source d) → fault w c = None) →
  fault w (Call_copy_file source (candidate source d)) = Some what →
  is_audio_file source = true →
  dirs_exist w (parent_path (candidate source d)) →
  lookup_path w (candidate source d) = Some (File old) →
  to_lower (filename source) ∉ processed_files w →
  ∃ w', organize_file source d print_info w = (Normal tt, w')
        ∧ lookup_path w' (candidate source d) = None
        ∧ processed_files w' = processed_files w
        ∧ copies w' = copies w
        ∧ history w'
          = history w ++ [Organize source; Remove (candidate source d)]
        ∧ console w'
          = console w
            ++ (if print_info then [Request source (candidate source d)]
                else [])
            ++ [Error_copying_file what].
Proof.
  intros Hcalm Hf Haudio Hdirs Hold Hnew.
  set (w1 := entered source (candidate source d) print_info w).
  destruct (entered_fields source (candidate source d) print_info w)
    as (Hci & Hfl & Hst & Hpf & Hh). fold w1 in Hci, Hfl, Hst, Hpf, Hh.
  pose proof (lookup_entered source (candidate source d) print_info w) as Hl1.
  fold w1 in Hl1.
  set (w2 := removed (candidate source d) w1).
  destruct (removed_fields (candidate source d) w1) as (Hci2 & Hfl2 & Hpf2 & Hh2).
  fold w2 in Hci2, Hfl2, Hpf2, Hh2.
  exists (with_console (console w2 ++ [Error_copying_file what]) w2).
  split.
  - rewrite organize_file_run. cbn zeta. rewrite Haudio. cbn [negb].
    unfold place.
    erewrite bind_run.
    2:{ apply create_parent_directories_run;
          [apply candidate_parent_nonempty | by apply Hcalm | done]. }
    erewrite bind_run by apply when_print_run.
    change (announce _ _ _) with w1.
    erewrite bind_run.
    2:{ apply fs_exists_run. rewrite Hfl. by apply Hcalm. }
    unfold occupied. rewrite Hl1, Hold. cbn [negb].
    assert ((p ← file_already_processed (candidate source d);
             if negb p
             then fs_remove (candidate source d) ;;
                  fs_copy_file source (candidate source d) ;;
                  when print_info (print_file_move_info source (candidate source d))
             else indexed_copy index_iterations 0 source d print_info) w1
            = (Throw what, w2)) as E.
    { unfold file_already_processed.
      unfold mbind at 1, M_bind at 1.
      rewrite candidate_filename, Hpf.
      rewrite bool_decide_eq_false_2 by done. cbn [negb].
      erewrite bind_run.
      2:{ apply (fs_remove_run _ old).
          - rewrite Hfl. by apply Hcalm.
          - by rewrite Hl1. }
      apply bind_throw. unfold fs_copy_file, guarded.
      change (removed (candidate source d) w1) with w2. by rewrite Hfl2, Hfl, Hf. }
    by rewrite (bind_throw _ _ w1 w2 what E).
  - split; [apply lookup_removed_here|].
    split.
    { change (processed_files w2 = processed_files w). by rewrite Hpf2, Hpf. }
    split.
    { change (copies w2 = copies w). unfold copies.
      rewrite Hh2, Hh, !omap_app. cbn [omap]. by rewrite !app_nil_r. }
    split.
    { change (history w2 = history w
                           ++ [Organize source; Remove (candidate source d)]).
      by rewrite Hh2, Hh, <- app_assoc. }
    change (console w1 ++ [Error_copying_file what]
            = console w
              ++ (if print_info then [Request source (candidate source d)]
                  else [])
              ++ [Error_copying_file what]).
    unfold w1, entered, announce.
    by destruct print_info; cbn; rewrite <- ?app_assoc.
Qed.

Lemma refused_overwrite_loses_the_old_copy_witness :
  ∃ w', organize_file ["s"; "a"; "kick.wav"] ["d"] false
          (start false refuse_overwrite stale_store) = (Normal tt, w')
        ∧ lookup_path w' ["d"; "Drums"; "Kick"; "kick.wav"] = None
        ∧ processed_files w' = ∅
        ∧ console w' = [Error_copying_file "No space left on device"].
Proof.
  destruct (refused_overwrite_loses_the_old_copy ["s"; "a"; "kick.wav"] ["d"]
              false (start false refuse_overwrite stale_store) "old"
              "No space left on device")
    as (w' & E & Hl & Hp & _ & _ & Hc).
  - intros c Hc. destruct c as [| |from to| | |]; try reflexivity.
    simpl. destruct (bool_decide (from = _)) eqn:E1; [|done].
    destruct (bool_decide (to = _)) eqn:E2; [|done].
    apply bool_decide_eq_true in E1 as ->.
    apply bool_decide_eq_true in E2 as ->. done.
  - reflexivity.
  - reflexivity.
  - apply dirs_check_sound. vm_compute. reflexivity.
  - reflexivity.
  - apply not_elem_of_empty.
  - exists w'. by split.
Defined.
(** *** What one call of organize_file does *)

Lemma history_create_parent_directories (p : path) (w w' : world)
    (r : outcome unit) :
  create_parent_directories p w = (r, w') → history w' = history w.
Proof.
  unfold create_parent_directories. intros H.
  apply bind_inv in H as [(b & w1 & E & H) | [(e & E & ->) | [E ->]]];
    apply history_fs_create_directories in E; [|done..].
  by injection H as _ <-.
Qed.

Lemma history_when_print (b : bool) (o : output) (w w' : world)
    (r : outcome unit) :
  when b (print o) w = (r, w') → history w' = history w.
Proof. rewrite when_print_run. intros [= <- <-]. by destruct b. Qed.

Lemma history_fs_copy_file (from to : path) (w w' : world)
    (r : outcome bool) :
  fs_copy_file from to w = (r, w') →
  history w' = history w ++ match r with
                            | Normal _ => [Copy from to]
                            | _ => []
                            end.
Proof.
  unfold fs_copy_file, guarded.
  destruct (fault w _); [intros [= <- <-]; by rewrite app_nil_r|].
  destruct (lookup_path w from) as [[data|?]|];
    try (intros [= <- <-]; by rewrite app_nil_r).
  destruct (lookup_path w to); [intros [= <- <-]; by rewrite app_nil_r|].
  destruct (lookup_path w (parent_path to)) as [[?|names]|];
    try (intros [= <- <-]; by rewrite app_nil_r).
  by intros [= <- <-].
Qed.

Lemma history_copy_and_print (from to : path) (print_info : bool)
    (w w' : world) (r : outcome unit) :
  (fs_copy_file from to ;;
   when print_info (print_file_move_info from to)) w = (r, w') →
  history w' = history w ∨ history w' = history w ++ [Copy from to].
Proof.
  intros H.
  apply bind_inv in H as [(b & w1 & E & H) | [(e & E & ->) | [E ->]]].
  - apply history_fs_copy_file in E. apply history_when_print in H.
    right. congruence.
  - apply history_fs_copy_file in E. rewrite app_nil_r in E. by left.
  - by apply halts_fs_copy_file in E.
Qed.

Lemma history_fs_remove (p : path) (w w' : world) (r : outcome bool) :
  fs_remove p w = (r, w') → history w' = history w ++ [Remove p].
Proof.
  unfold fs_remove, note. unfold mbind, M_bind, guarded. cbn.
  destruct (fault w _); [by intros [= <- <-]|].
  destruct (store w _) as [[?|names]|]; [|destruct names|];
    by intros [= <- <-].
Qed.

Lemma history_indexed_copy (n : nat) (i : Z) (source d : path)
    (print_info : bool) (w w' : world) (r : outcome unit) :
  indexed_copy n i source d print_info w = (r, w') →
  history w' = history w
  ∨ ∃ j, i ≤ j < i + Z.of_nat n
         ∧ history w' = history w ++ [Copy source (indexed_path source d j)].
Proof.
  revert i w. induction n as [|n IH]; intros i w H.
  { injection H as <- <-. by left. }
  cbn [indexed_copy] in H.
  apply bind_inv in H as [(e & w1 & E & H) | [(x & E & ->) | [E ->]]].
  - apply (respects_fs_exists eq) in E as <-. destruct e; cbn [negb] in H.
    + apply IH in H as [H | (j & Hj & H)]; [by left | right].
      exists j. split; [lia | done].
    + apply history_copy_and_print in H as [H | H]; [by left | right].
      exists i. split; [lia | done].
  - apply (respects_fs_exists eq) in E as <-. by left.
  - by apply halts_fs_exists in E.
Qed.

(** X10.  One call of organize_file issues at most one fs::remove and
    completes at most one copy: what it adds to the record of a run is
    nothing, a copy of its source to the candidate, a remove of the
    candidate, that remove followed by that copy, or a copy of its source
    to one indexed path below the destination root. *)
Theorem organize_file_effects (source d : path) (print_info : bool)
    (w : world) :
  ∃ h, history (organize_file source d print_info w).2
       = history w ++ Organize source :: h
       ∧ (h = []
          ∨ h = [Copy source (candidate source d)]
          ∨ h = [Remove (candidate source d)]
          ∨ h = [Remove (candidate source d);
                 Copy source (candidate source d)]
          ∨ ∃ i, 0 ≤ i < index_bound
                 ∧ h = [Copy source (indexed_path source d i)]).
Proof.
  rewrite organize_file_run. cbn zeta.
  set (w0 := with_history (history w ++ [Organize source]) w).
  destruct (negb (is_audio_file source)).
  { exists []. split; [done | by left]. }
  assert (∀ r w1,
            place source d (candidate source d) print_info w0 = (r, w1) →
            ∃ h, history w1 = history w0 ++ h
                 ∧ (h = []
                    ∨ h = [Copy source (candidate source d)]
                    ∨ h = [Remove (candidate source d)]
                    ∨ h = [Remove (candidate source d);
                           Copy source (candidate source d)]
                    ∨ ∃ i, 0 ≤ i < index_bound
                           ∧ h = [Copy source (indexed_path source d i)]))
    as Hplace.
  { clearbody w0. clear w. intros r w1 H.
    unfold place in H.
    apply bind_inv in H as [(a & w2 & E & H) | [(e & E & ->) | [E ->]]];
      apply history_create_parent_directories in E.
    2,3: exists []; split; [by rewrite app_nil_r | by left].
    rewrite <- E. clear E w0. rename w2 into w0.
    apply bind_inv in H as [(a' & w2 & E & H) | [(e & E & ->) | [E ->]]];
      apply history_when_print in E.
    2,3: exists []; split; [by rewrite app_nil_r | by left].
    rewrite <- E. clear E w0. rename w2 into w0.
    apply bind_inv in H as [(e & w2 & E & H) | [(e & E & ->) | [E ->]]];
      apply (respects_fs_exists eq) in E as <-.
    2,3: exists []; split; [by rewrite app_nil_r | by left].
    assert (∀ (m : M unit) r w1,
              (m ;; processed_files_insert (to_lower (filename source))) w0
              = (r, w1) →
              ∃ r' w2, m w0 = (r', w2) ∧ history w1 = history w2) as Hins.
    { intros m r' w2 Hm.
      apply bind_inv in Hm as [(? & w3 & E & Hm) | [(? & E & ->) | [E ->]]];
        [injection Hm as <- <-|..]; by eauto. }
    apply Hins in H as (r' & w2 & H & ->). clear Hins.
    destruct e; cbn [negb] in H.
    - apply bind_inv in H as [(p & w3 & [= <- <-] & H)
                             | [(? & [=] & _) | [[=] _]]].
      destruct (negb _).
      + apply bind_inv in H as [(b & w3 & E & H) | [(x & E & ->) | [E ->]]];
          apply history_fs_remove in E.
        * apply history_copy_and_print in H as [H | H]; rewrite H, E.
          -- eexists. split; [done|]. right. right. by left.
          -- eexists. split; [by rewrite <- app_assoc|].
             right. right. right. by left.
        * eexists. split; [done|]. right. right. by left.
        * eexists. split; [done|]. right. right. by left.
      + apply history_indexed_copy in H as [H | (j & Hj & H)]; rewrite H.
        * exists []. split; [by rewrite app_nil_r | by left].
        * eexists. split; [done|]. right. right. right. right.
          exists j. split; [|done]. rewrite index_iterations_bound in Hj. lia.
    - apply history_copy_and_print in H as [H | H]; rewrite H.
      + exists []. split; [by rewrite app_nil_r | by left].
      + eexists. split; [done|]. right. by left. }
  destruct (place _ _ _ _ _) as [[[]|what|] w1];
    destruct (Hplace _ _ eq_refl) as (h & Hh & Hs); exists h;
    (split; [|done]); cbn; rewrite Hh; unfold w0; cbn;
    by rewrite <- app_assoc.
Qed.
(** *** print_info changes the console only *)

Ltac same_worlds :=
  let H := fresh in
  intros [ci1 f1 s1 p1 c1 h1] [ci2 f2 s2 p2 c2 h2] H;
  unfold same_but_console in H; cbn in H;
  destruct H as (-> & -> & -> & -> & ->).

Lemma alike_ret {A : Type} (a : A) : alike (mret a) (mret a).
Proof. by intros w1 w2 H. Qed.

Lemma alike_bind {A B : Type} (m1 m2 : M A) (f1 f2 : A → M B) :
  alike m1 m2 → (∀ a, alike (f1 a) (f2 a)) → alike (m1 ≫= f1) (m2 ≫= f2).
Proof.
  intros Hm Hf w1 w2 H. unfold mbind, M_bind.
  destruct (Hm w1 w2 H) as [Hr Hw].
  destruct (m1 w1) as [r1 w1'], (m2 w2) as [r2 w2']. cbn in Hr, Hw.
  subst r2. destruct r1 as [a| |]; [by apply Hf | done..].
Qed.

Lemma alike_try_catch (m1 m2 : M unit) (h1 h2 : string → M unit) :
  alike m1 m2 → (∀ e, alike (h1 e) (h2 e)) →
  alike (try_catch m1 h1) (try_catch m2 h2).
Proof.
  intros Hm Hh w1 w2 H. unfold try_catch.
  destruct (Hm w1 w2 H) as [Hr Hw].
  destruct (m1 w1) as [r1 w1'], (m2 w2) as [r2 w2']. cbn in Hr, Hw.
  subst r2. destruct r1 as [a|e|]; [done | by apply Hh | done].
Qed.

Lemma alike_guarded {A : Type} (c : fs_call) (m1 m2 : M A) :
  alike m1 m2 → alike (guarded c m1) (guarded c m2).
Proof.
  intros Hm w1 w2 H. unfold guarded.
  destruct H as (Hci & Hf & H). rewrite Hf.
  destruct (fault w2 c); [by repeat split; try apply H|].
  apply Hm. by repeat split; try apply H.
Qed.

Lemma alike_for_each (entries : list path) (b1 b2 : path → M unit) :
  (∀ entry, alike (b1 entry) (b2 entry)) →
  alike (for_each entries b1) (for_each entries b2).
Proof.
  intros Hb. induction entries as [|x entries IH]; simpl.
  - apply alike_ret.
  - apply alike_bind; [apply Hb | by intros _].
Qed.

Lemma alike_print (b1 b2 : bool) (o1 o2 : output) :
  alike (when b1 (print o1)) (when b2 (print o2)).
Proof. same_worlds. by destruct b1, b2. Qed.

Lemma alike_error (o : output) : alike (print o) (print o).
Proof. by same_worlds. Qed.

Lemma alike_note (a : action) : alike (note a) (note a).
Proof. by same_worlds. Qed.

Lemma alike_fs_exists (p : path) : alike (fs_exists p) (fs_exists p).
Proof. apply alike_guarded. by same_worlds. Qed.

Lemma alike_is_directory (p : path) : alike (is_directory p) (is_directory p).
Proof. apply alike_guarded. by same_worlds. Qed.

Lemma alike_directory_iterator (p : path) :
  alike (directory_iterator p) (directory_iterator p).
Proof.
  apply alike_guarded. same_worlds. unfold lookup_path, key. cbn.
  by destruct (s2 _) as [[]|].
Qed.

Lemma alike_file_already_processed (p : path) :
  alike (file_already_processed p) (file_already_processed p).
Proof. by same_worlds. Qed.

Lemma alike_processed_files_insert (name : string) :
  alike (processed_files_insert name) (processed_files_insert name).
Proof. by same_worlds. Qed.

Lemma alike_make_directories (rest made : path) (created : bool) :
  alike (make_directories made rest created)
        (make_directories made rest created).
Proof.
  revert made created.
  induction rest as [|name rest IH]; intros made created; simpl.
  { apply alike_ret. }
  intros w1 w2 H.
  assert (∀ p, lookup_path w1 p = lookup_path w2 p) as Hl.
  { intros p. unfold lookup_path, key.
    destruct H as (-> & _ & -> & _). done. }
  rewrite !Hl.
  destruct (lookup_path w2 (made // name)) as [[?|?]|];
    [done | by apply IH |].
  destruct (lookup_path w2 made) as [[?|names]|]; [done| |done].
  apply IH. revert H. clear. revert w1 w2. by same_worlds.
Qed.

Lemma alike_fs_create_directories (p : path) :
  alike (fs_create_directories p) (fs_create_directories p).
Proof.
  apply alike_guarded. destruct p as [|n p]; [|apply alike_make_directories].
  by intros w1 w2 H.
Qed.

Lemma alike_fs_copy_file (from to : path) :
  alike (fs_copy_file from to) (fs_copy_file from to).
Proof.
  apply alike_guarded. same_worlds. unfold lookup_path, key. cbn.
  destruct (s2 (canon ci2 from)) as [[data|?]|]; [|done..].
  destruct (s2 (canon ci2 to)); [done|].
  by destruct (s2 (canon ci2 (parent_path to))) as [[?|names]|].
Qed.

Lemma alike_fs_remove (p : path) : alike (fs_remove p) (fs_remove p).
Proof.
  apply alike_bind; [apply alike_note | intros _].
  apply alike_guarded. same_worlds. unfold lookup_path, key. cbn.
  destruct (s2 (canon ci2 p)) as [[?|[|??]]|]; done.
Qed.

Lemma alike_copy_and_print (from to : path) (b1 b2 : bool) :
  alike (fs_copy_file from to ;; when b1 (print_file_move_info from to))
        (fs_copy_file from to ;; when b2 (print_file_move_info from to)).
Proof.
  apply alike_bind; [apply alike_fs_copy_file | intros _; apply alike_print].
Qed.

Lemma alike_indexed_copy (n : nat) (i : Z) (source d : path) (b1 b2 : bool) :
  alike (indexed_copy n i source d b1) (indexed_copy n i source d b2).
Proof.
  revert i. induction n as [|n IH]; intros i; cbn [indexed_copy].
  { apply alike_ret. }
  apply alike_bind; [apply alike_fs_exists|].
  intros [|]; cbn [negb]; [apply IH | apply alike_copy_and_print].
Qed.

Lemma alike_organize_file (source d : path) (b1 b2 : bool) :
  alike (organize_file source d b1) (organize_file source d b2).
Proof.
  unfold organize_file.
  apply alike_bind; [apply alike_note | intros _].
  destruct (negb (is_audio_file source)); [apply alike_ret|].
  apply alike_try_catch; [|intros e; apply alike_error].
  unfold place, create_parent_directories.
  apply alike_bind.
  { apply alike_bind; [apply alike_fs_create_directories|].
    intros _. apply alike_ret. }
  intros _. apply alike_bind; [apply alike_print | intros _].
  apply alike_bind; [apply alike_fs_exists | intros e].
  apply alike_bind; [|intros _; apply alike_processed_files_insert].
  destruct e; cbn [negb]; [|apply alike_copy_and_print].
  apply alike_bind; [apply alike_file_already_processed | intros p].
  destruct p; cbn [negb]; [apply alike_indexed_copy|].
  apply alike_bind; [apply alike_fs_remove | intros _].
  apply alike_copy_and_print.
Qed.

Lemma alike_process_directory (fuel : nat) (source d : path) (b1 b2 : bool) :
  alike (process_directory fuel source d b1)
        (process_directory fuel source d b2).
Proof.
  revert source. induction fuel as [|fuel IH]; intros source; simpl.
  { by intros w1 w2 H. }
  apply alike_try_catch; [|intros e; apply alike_error].
  apply alike_bind; [apply alike_directory_iterator | intros entries].
  apply alike_for_each. intros entry. unfold visit_entry.
  apply alike_bind; [apply alike_is_directory|].
  intros [|]; [apply IH | apply alike_organize_file].
Qed.

Lemma alike_main (fuel : nat) (source d : path) (b1 b2 : bool) :
  alike (main fuel source d b1) (main fuel source d b2).
Proof.
  unfold main.
  apply alike_bind; [apply alike_error | intros _].
  apply alike_bind; [apply alike_fs_exists | intros e].
  destruct e; cbn [negb].
  - do 8 (apply alike_bind; [apply alike_fs_create_directories | intros _]).
    apply alike_bind; [apply alike_process_directory | intros _].
    do 2 (apply alike_bind; [apply alike_error | intros _]).
    apply alike_ret.
  - apply alike_bind; [apply alike_error | intros _]. apply alike_ret.
Qed.

Lemma same_but_console_refl (w : world) : same_but_console w w.
Proof. by repeat split. Qed.

(** X11.  print_info changes what is printed and nothing else:
    organize_file, process_directory and main end with the same outcome,
    file system, registry and record of actions whether it is set or
    not. *)
Theorem print_info_changes_the_console_only (fuel : nat) (source d : path)
    (w : world) :
  ((organize_file source d true w).1 = (organize_file source d false w).1
   ∧ same_but_console (organize_file source d true w).2
       (organize_file source d false w).2)
  ∧ ((process_directory fuel source d true w).1
     = (process_directory fuel source d false w).1
     ∧ same_but_console (process_directory fuel source d true w).2
         (process_directory fuel source d false w).2)
  ∧ ((main fuel source d true w).1 = (main fuel source d false w).1
     ∧ same_but_console (main fuel source d true w).2
         (main fuel source d false w).2).
Proof.
  split; [|split].
  - apply alike_organize_file, same_but_console_refl.
  - apply alike_process_directory, same_but_console_refl.
  - apply alike_main, same_but_console_refl.
Qed.
(** *** The reports of print_file_move_info *)

#[global] Instance quiet_preorder : PreOrder quiet.
Proof.
  split; [by intros w|].
  intros w1 w2 w3 [H1 H2] [H3 H4]. split; congruence.
Qed.

#[global] Instance reports_preorder (print_info : bool) :
  PreOrder (reports print_info).
Proof.
  split.
  - intros w. exists []. by destruct print_info; rewrite !app_nil_r.
  - intros w1 w2 w3 (l1 & H1 & H2) (l2 & H3 & H4). exists (l1 ++ l2).
    rewrite H3, H1, H4, H2.
    by destruct print_info; rewrite <- ?app_assoc, ?app_nil_r.
Qed.

Lemma quiet_reports (print_info : bool) (w w' : world) :
  quiet w w' → reports print_info w w'.
Proof.
  intros [H1 H2]. exists []. rewrite H1, H2.
  by destruct print_info; rewrite !app_nil_r.
Qed.

Lemma respects_quiet_reports {A : Type} (print_info : bool) (m : M A) :
  respects quiet m → respects (reports print_info) m.
Proof. intros H w r w' E. by eapply quiet_reports, H. Qed.

Lemma quiet_print (o : output) :
  (∀ s t, o ≠ Moved s t) → respects quiet (print o).
Proof.
  intros Ho w r w' [= <- <-]. split; [done|].
  unfold moves. cbn. rewrite omap_app. cbn.
  destruct o; try by rewrite app_nil_r. by destruct (Ho source destination).
Qed.

Lemma quiet_note (a : action) :
  (∀ s t, a ≠ Copy s t) → respects quiet (note a).
Proof.
  intros Ha w r w' [= <- <-]. split; [|done].
  unfold copies. cbn. rewrite omap_app. cbn.
  destruct a; try by rewrite app_nil_r. by destruct (Ha from to).
Qed.

Lemma make_directories_store (rest made : path) (created : bool)
    (w w' : world) (r : outcome bool) :
  make_directories made rest created w = (r, w') →
  ∃ s, w' = with_store s w.
Proof.
  revert made created w.
  induction rest as [|name rest IH]; intros made created w; simpl.
  { intros [= <- <-]. exists (store w). by destruct w. }
  assert (w = with_store (store w) w) as Hw by by destruct w.
  destruct (lookup_path w (made // name)) as [[?|?]|];
    [intros [= <- <-]; by eauto | apply IH |].
  destruct (lookup_path w made) as [[?|names]|];
    try (intros [= <- <-]; by eauto).
  intros (s & ->)%IH. by eexists.
Qed.

Lemma quiet_fs_create_directories (p : path) :
  respects quiet (fs_create_directories p).
Proof.
  intros w r w'. unfold fs_create_directories, guarded.
  destruct (fault w _); [by intros [= <- <-]|].
  destruct p as [|n p]; [by intros [= <- <-]|].
  by intros (s & ->)%make_directories_store.
Qed.

Lemma quiet_fs_remove (p : path) : respects quiet (fs_remove p).
Proof.
  apply respects_bind; [apply _ | by apply quiet_note | intros _].
  intros w r w'. unfold guarded.
  destruct (fault w _); [by intros [= <- <-]|].
  destruct (lookup_path w p) as [[?|names]|]; [|destruct names|];
    by intros [= <- <-].
Qed.

Lemma reports_copy_and_print (from to : path) (print_info : bool) :
  respects (reports print_info)
    (fs_copy_file from to ;;
     when print_info (print_file_move_info from to)).
Proof.
  intros w r w' H.
  apply bind_inv in H as [(b & w1 & E & H) | [(e & E & ->) | [E ->]]].
  - pose proof (history_fs_copy_file _ _ _ _ _ E) as Hh.
    assert (console w1 = console w) as Hc.
    { revert E. unfold fs_copy_file, guarded.
      destruct (fault w _); [done|].
      destruct (lookup_path w from) as [[data|?]|]; [|done..].
      destruct (lookup_path w to); [done|].
      destruct (lookup_path w (parent_path to)) as [[?|names]|]; [done| |done].
      by intros [= _ <-]. }
    unfold print_file_move_info in H. rewrite when_print_run in H.
    injection H as _ <-.
    exists [(from, to)]. split.
    + unfold copies, announce. destruct print_info; cbn;
        by rewrite Hh, omap_app.
    + unfold moves, announce. destruct print_info; cbn.
      * by rewrite Hc, omap_app.
      * by rewrite Hc, app_nil_r.
  - apply quiet_reports. split.
    + unfold copies. apply history_fs_copy_file in E.
      by rewrite E, app_nil_r.
    + revert E. unfold fs_copy_file, guarded.
      destruct (fault w _); [by intros [= _ <-]|].
      destruct (lookup_path w from) as [[data|?]|]; [|by intros [= _ <-]..].
      destruct (lookup_path w to); [by intros [= _ <-]|].
      destruct (lookup_path w (parent_path to)) as [[?|names]|];
        [by intros [= _ <-] | done | by intros [= _ <-]].
  - by apply halts_fs_copy_file in E.
Qed.

Lemma reports_indexed_copy (n : nat) (i : Z) (source d : path)
    (print_info : bool) :
  respects (reports print_info) (indexed_copy n i source d print_info).
Proof.
  revert i. induction n as [|n IH]; intros i; cbn [indexed_copy].
  { apply respects_ret. apply _. }
  apply respects_bind; [apply _ | apply respects_fs_exists; apply _ |].
  intros [|]; cbn [negb]; [apply IH | apply reports_copy_and_print].
Qed.

Lemma reports_organize_file (source d : path) (print_info : bool) :
  respects (reports print_info) (organize_file source d print_info).
Proof.
  unfold organize_file.
  apply respects_bind; [apply _ | | intros _].
  { by apply respects_quiet_reports, quiet_note. }
  destruct (negb (is_audio_file source)); [apply respects_ret; apply _|].
  apply respects_try_catch; [apply _ | |].
  2:{ intros e. by apply respects_quiet_reports, quiet_print. }
  unfold place, create_parent_directories.
  apply respects_bind; [apply _ | | intros _].
  { apply respects_bind; [apply _ | | intros _; apply respects_ret; apply _].
    apply respects_quiet_reports, quiet_fs_create_directories. }
  apply respects_bind; [apply _ | | intros _].
  { apply respects_when; [apply _|].
    by apply respects_quiet_reports, quiet_print. }
  apply respects_bind; [apply _ | apply respects_fs_exists; apply _ |].
  intros e. apply respects_bind; [apply _ | | intros _].
  2:{ intros w r w' [= <- <-]. by exists []; destruct print_info;
        rewrite !app_nil_r. }
  destruct e; cbn [negb]; [|apply reports_copy_and_print].
  apply respects_bind;
    [apply _ | apply respects_file_already_processed; apply _ |].
  intros p. destruct p; cbn [negb]; [apply reports_indexed_copy|].
  apply respects_bind; [apply _ | | intros _; apply reports_copy_and_print].
  apply respects_quiet_reports, quiet_fs_remove.
Qed.

Lemma reports_process_directory (fuel : nat) (source d : path)
    (print_info : bool) :
  respects (reports print_info) (process_directory fuel source d print_info).
Proof.
  revert source. induction fuel as [|fuel IH]; intros source; simpl.
  { intros w r w' [= <- <-]. reflexivity. }
  apply respects_try_catch; [apply _ | |].
  2:{ intros e. by apply respects_quiet_reports, quiet_print. }
  apply respects_bind;
    [apply _ | apply respects_directory_iterator; apply _ | intros entries].
  apply respects_for_each; [apply _|]. intros entry. unfold visit_entry.
  apply respects_bind; [apply _ | apply respects_is_directory; apply _ |].
  intros [|]; [apply IH | apply reports_organize_file].
Qed.

Lemma reports_main (fuel : nat) (source d : path) (print_info : bool) :
  respects (reports print_info) (main fuel source d print_info).
Proof.
  unfold main.
  assert (∀ o, (∀ s t, o ≠ Moved s t) →
               respects (reports print_info) (print o)) as Hpr.
  { intros o Ho. by apply respects_quiet_reports, quiet_print. }
  apply respects_bind; [apply _ | by apply Hpr | intros _].
  apply respects_bind; [apply _ | apply respects_fs_exists; apply _ |].
  intros e. destruct e; cbn [negb].
  - do 8 (apply respects_bind;
          [apply _
          | apply respects_quiet_reports, quiet_fs_create_directories
          | intros _]).
    apply respects_bind; [apply _ | apply reports_process_directory|].
    intros _.
    do 2 (apply respects_bind; [apply _ | by apply Hpr | intros _]).
    apply respects_ret. apply _.
  - apply respects_bind; [apply _ | by apply Hpr | intros _].
    apply respects_ret. apply _.
Qed.

(** X12.  With print_info set, the "Moved" reports that organize_file,
    process_directory and main add to the console are, in order, exactly
    the copies they complete; without it they add none.  So after a run
    of main with print_info the reports list all copies of the run. *)
Theorem moves_are_the_copies (fuel : nat) (source d : path)
    (print_info : bool) (w : world) :
  reports print_info w (organize_file source d print_info w).2
  ∧ reports print_info w (process_directory fuel source d print_info w).2
  ∧ reports print_info w (main fuel source d print_info w).2
  ∧ ∀ ci flt s,
      moves (main fuel source d print_info (start ci flt s)).2
      = if print_info
        then copies (main fuel source d print_info (start ci flt s)).2
        else [].
Proof.
  split; [|split; [|split]].
  - eapply reports_organize_file, surjective_pairing.
  - eapply reports_process_directory, surjective_pairing.
  - eapply reports_main, surjective_pairing.
  - intros ci flt s.
    destruct (reports_main fuel source d print_info (start ci flt s) _ _
                (surjective_pairing _)) as (l & H1 & H2).
    rewrite H2, H1. by destruct print_info.
Qed.
(** *** Creating the folders *)

Lemma with_store_id (w : world) : with_store (store w) w = w.
Proof. by destruct w. Qed.

Lemma prefix_cons_cases (l : path) (name : string) (rest : path) :
  l `prefix_of` name :: rest →
  l = [] ∨ ∃ l', l = name :: l' ∧ l' `prefix_of` rest.
Proof.
  intros Hl. destruct l as [|x l]; [by left | right].
  pose proof (prefix_cons_inv_1 _ _ _ _ Hl) as ->.
  apply prefix_cons_inv_2 in Hl. by eauto.
Qed.

Lemma key_snoc_ne (w : world) (made : path) (name : string) :
  key w (made // name) ≠ key w made.
Proof. apply key_length_ne. unfold path_append. rewrite length_app. simpl. lia. Qed.

Lemma make_directories_creates (rest made : path) (created : bool)
    (w : world) :
  is_dir w made →
  (∀ l data, l `prefix_of` rest →
             lookup_path w (made ++ l) ≠ Some (File data)) →
  ∃ b s,
    make_directories made rest created w = (Normal b, with_store s w)
    ∧ (∀ l, l `prefix_of` rest →
            ∃ names, s (key w (made ++ l)) = Some (Dir names))
    ∧ (∀ k, (∀ l, l `prefix_of` rest → k ≠ key w (made ++ l)) →
            s k = store w k)
    ∧ (∀ k names, store w k = Some (Dir names) →
                  ∃ names', s k = Some (Dir names'))
    ∧ (∀ k data, s k = Some (File data) → store w k = Some (File data)).
Proof.
  revert made created w.
  induction rest as [|name rest IH]; intros made created w Hmade Hfree.
  { exists created, (store w). rewrite with_store_id.
    split; [done|]. split; [|by eauto].
    intros l ->%prefix_nil_inv. rewrite app_nil_r. exact Hmade. }
  cbn [make_directories].
  destruct (lookup_path w (made // name)) as [[data|names]|] eqn:Eq.
  - destruct (Hfree [name] data); [|done].
    by apply prefix_cons, prefix_nil.
  - destruct (IH (made // name) false w) as (b & s & E & Hd & Hfr & Hp & Hn).
    { by exists names. }
    { intros l data Hl. unfold path_append. rewrite <- app_assoc.
      apply Hfree. by apply prefix_cons. }
    exists b, s. split; [done|]. split; [|split; [|done]].
    + intros l [->|(l' & -> & Hl')]%prefix_cons_cases.
      * rewrite app_nil_r. destruct Hmade as [ns Hns]. by apply (Hp _ ns).
      * rewrite (cons_middle name made l'), app_assoc. by apply Hd.
    + intros k Hk. apply Hfr. intros l Hl.
      unfold path_append. rewrite <- app_assoc. apply Hk.
      by apply prefix_cons.
  - destruct Hmade as [names Hnames]. rewrite Hnames.
    set (w1 := link w (made // name) (Dir []) names).
    assert (∀ k, store w1 k
                 = if decide (k = key w (made // name)) then Some (Dir [])
                   else if decide (k = key w made)
                        then Some (Dir (names ++ [name]))
                        else store w k) as Hw1.
    { intros k. unfold w1, link. cbn.
      rewrite parent_path_snoc, filename_snoc.
      destruct (decide (k = _)) as [->|Hk1]; [by rewrite fn_lookup_insert|].
      rewrite fn_lookup_insert_ne by done.
      destruct (decide (k = _)) as [->|Hk2]; [by rewrite fn_lookup_insert|].
      by rewrite fn_lookup_insert_ne. }
    pose proof (key_snoc_ne w made name) as Hne.
    destruct (IH (made // name) true w1) as (b & s & E & Hd & Hfr & Hp & Hn).
    { exists []. unfold lookup_path. change (key w1) with (key w).
      rewrite Hw1. by rewrite decide_True. }
    { intros l data Hl. unfold lookup_path. change (key w1) with (key w).
      rewrite Hw1. destruct (decide _); [done|]. destruct (decide _); [done|].
      unfold path_append. rewrite <- app_assoc.
      apply Hfree. by apply prefix_cons. }
    exists b, s. split; [exact E|]. change (key w1) with (key w) in *.
    split; [|split; [|split]].
    + intros l [->|(l' & -> & Hl')]%prefix_cons_cases.
      * rewrite app_nil_r. apply (Hp _ (names ++ [name])).
        rewrite Hw1, decide_False, decide_True; done.
      * rewrite (cons_middle name made l'), app_assoc. by apply Hd.
    + intros k Hk. rewrite Hfr.
      * rewrite Hw1, decide_False, decide_False; [done| |].
        -- specialize (Hk [] (prefix_nil _)). by rewrite app_nil_r in Hk.
        -- apply (Hk [name]). by apply prefix_cons, prefix_nil.
      * intros l Hl. unfold path_append. rewrite <- app_assoc. apply Hk.
        by apply prefix_cons.
    + intros k ns Hk.
      assert (∃ ns', store w1 k = Some (Dir ns')) as [ns' Hk'].
      { rewrite Hw1. destruct (decide _); [by eauto|].
        destruct (decide _); by eauto. }
      by apply (Hp _ ns').
    + intros k data Hk. apply Hn in Hk. rewrite Hw1 in Hk.
      destruct (decide _); [done|]. by destruct (decide _).
Qed.
Lemma way_check_sound (w : world) (p : path) :
  way_check w p = true →
  ∀ q data, q `prefix_of` p → lookup_path w q ≠ Some (File data).
Proof.
  unfold way_check. rewrite forallb_forall. intros H q data Hq E.
  specialize (H q (prefixes_complete p q Hq)). by rewrite E in H.
Qed.

Lemma fs_create_directories_creates (p : path) (w : world) :
  p ≠ [] →
  fault w (Call_create_directories p) = None →
  is_dir w [] →
  (∀ q data, q `prefix_of` p → lookup_path w q ≠ Some (File data)) →
  ∃ b s,
    fs_create_directories p w = (Normal b, with_store s w)
    ∧ dirs_exist (with_store s w) p
    ∧ (∀ k, (∀ q, q `prefix_of` p → k ≠ key w q) → s k = store w k)
    ∧ (∀ q, is_dir w q → is_dir (with_store s w) q)
    ∧ (∀ q data, lookup_path (with_store s w) q = Some (File data) ↔
                 lookup_path w q = Some (File data)).
Proof.
  intros Hne Hf Hroot Hfree.
  destruct (make_directories_creates p [] false w Hroot Hfree)
    as (b & s & E & Hd & Hfr & Hp & Hn).
  cbn [app] in Hd, Hfr.
  exists b, s. unfold fs_create_directories. rewrite guarded_calm by done.
  split; [by destruct p|]. split; [|split; [exact Hfr|split]].
  - intros q Hq. by apply Hd.
  - intros q [names Hq]. by apply (Hp _ names).
  - intros q data. split; [apply Hn|]. intros Hq.
    change (s (key w q) = Some (File data)). rewrite Hfr; [done|].
    intros q' Hq' E'. apply (Hfree q' data Hq').
    unfold lookup_path. by rewrite <- E'.
Qed.

(** X13.  For a file path that has a parent (at least two components:
    the parent path is not empty), when the working directory exists, no
    regular file lies on the way to the parent and the call is not
    refused, create_parent_directories returns normally; afterwards
    every directory on the way to the parent of the file exists, only
    paths on that way have changed, directories are still directories and
    the regular files are the same as before.  (For a bare file name the
    parent path is empty and fs::create_directories is an error; the
    property says nothing about that case.) *)
Theorem create_parent_directories_makes_the_folders (file_path : path)
    (w : world) :
  parent_path file_path ≠ [] →
  fault w (Call_create_directories (parent_path file_path)) = None →
  is_dir w [] →
  (∀ q data, q `prefix_of` parent_path file_path →
             lookup_path w q ≠ Some (File data)) →
  ∃ s,
    create_parent_directories file_path w = (Normal tt, with_store s w)
    ∧ dirs_exist (with_store s w) (parent_path file_path)
    ∧ (∀ k, (∀ q, q `prefix_of` parent_path file_path → k ≠ key w q) →
            s k = store w k)
    ∧ (∀ q, is_dir w q → is_dir (with_store s w) q)
    ∧ (∀ q data, lookup_path (with_store s w) q = Some (File data) ↔
                 lookup_path w q = Some (File data)).
Proof.
  intros Hne Hf Hroot Hfree.
  destruct (fs_create_directories_creates _ w Hne Hf Hroot Hfree)
    as (b & s & E & H).
  exists s. split; [|exact H].
  unfold create_parent_directories. by erewrite bind_run by exact E.
Qed.

Lemma create_parent_directories_makes_the_folders_witness :
  let w := start false no_fault fresh_store in
  ∃ s, create_parent_directories ["d"; "Drums"; "Kick"; "kick.wav"] w
       = (Normal tt, with_store s w)
       ∧ dirs_exist (with_store s w) ["d"; "Drums"; "Kick"]
       ∧ lookup_path w ["d"] = None.
Proof.
  destruct (create_parent_directories_makes_the_folders
              ["d"; "Drums"; "Kick"; "kick.wav"]
              (start false no_fault fresh_store))
    as (s & E & Hd & _).
  - discriminate.
  - reflexivity.
  - by exists ["s"].
  - by apply way_check_sound.
  - exists s. split; [exact E|]. split; [exact Hd | reflexivity].
Defined.
Lemma lookup_copied (source to : path) (data : string) (names : list string)
    (print_info : bool) (w : world) (q : path) :
  lookup_path (copied source to data names print_info w) q
  = if decide (key w q = key w to) then Some (File data)
    else if decide (key w q = key w (parent_path to))
         then Some (Dir (names ++ [filename to]))
         else lookup_path w q.
Proof.
  destruct (copied_fields source to data names print_info w)
    as (Hci & _ & Hst & _).
  unfold lookup_path, key. rewrite Hst, Hci.
  destruct (decide _) as [->|H1]; [by rewrite fn_lookup_insert|].
  rewrite fn_lookup_insert_ne by done.
  destruct (decide _) as [->|H2]; [by rewrite fn_lookup_insert|].
  by rewrite fn_lookup_insert_ne.
Qed.

Lemma is_dir_copied (source to : path) (data : string) (names : list string)
    (print_info : bool) (w : world) (q : path) :
  lookup_path w to = None → is_dir w q →
  is_dir (copied source to data names print_info w) q.
Proof.
  intros Hto [ns Hq]. unfold is_dir. rewrite lookup_copied.
  destruct (decide _) as [E|_].
  { unfold lookup_path in Hq, Hto. rewrite E in Hq. congruence. }
  destruct (decide _); by eauto.
Qed.

Lemma candidate_parent_length (source d q : path) :
  q `prefix_of` parent_path (candidate source d) →
  length q ≠ length (candidate source d).
Proof.
  intros Hq%prefix_length. unfold candidate in *.
  rewrite parent_path_snoc in Hq. unfold path_append in *.
  rewrite !length_app in *. simpl in *. lia.
Qed.

(** X14.  organize_file does not rely on main having made the category
    folders: when the folder of an audio file is missing (with no regular
    file in its way), the candidate is free and no call is refused, the
    folder is made, the file is copied to its candidate, the source is
    left as it is and the name is registered. *)
Theorem organize_file_makes_its_folder (source d : path) (print_info : bool)
    (w : world) (data : string) :
  calm w →
  is_audio_file source = true →
  lookup_path w source = Some (File data) →
  is_dir w [] →
  (∀ q data', q `prefix_of` parent_path (candidate source d) →
              lookup_path w q ≠ Some (File data')) →
  lookup_path w (candidate source d) = None →
  ∃ w', organize_file source d print_info w = (Normal tt, w')
        ∧ lookup_path w' (candidate source d) = Some (File data)
        ∧ dirs_exist w' (parent_path (candidate source d))
        ∧ lookup_path w' source = Some (File data)
        ∧ processed_files w'
          = {[to_lower (filename source)]} ∪ processed_files w
        ∧ copies w' = copies w ++ [(source, candidate source d)].
Proof.
  intros Hcalm Haudio Hsrc Hroot Hfree Hnone.
  set (w0 := with_history (history w ++ [Organize source]) w).
  destruct (fs_create_directories_creates
              (parent_path (candidate source d)) w0)
    as (b & s & E0 & Hd & Hfr & Hp & Hfile);
    [apply candidate_parent_nonempty | by apply Hcalm | done | done |].
  assert (create_parent_directories (candidate source d) w0
          = (Normal tt, with_store s w0)) as E.
  { unfold create_parent_directories. by erewrite bind_run by exact E0. }
  change (∀ k, (∀ q, q `prefix_of` parent_path (candidate source d) →
                     k ≠ key w q) → s k = store w k) in Hfr.
  set (w1 := with_store s w).
  assert (organize_file source d print_info w
          = organize_file source d print_info w1) as ->.
  { rewrite !organize_file_run. cbn zeta. rewrite Haudio. cbn [negb].
    unfold place. fold w0. erewrite bind_run by exact E.
    erewrite (bind_run (create_parent_directories _)).
    2:{ apply create_parent_directories_run;
          [apply candidate_parent_nonempty | by apply Hcalm | exact Hd]. }
    reflexivity. }
  assert (lookup_path w1 source = Some (File data)) as Hsrc1
    by by apply Hfile.
  assert (lookup_path w1 (candidate source d) = None) as Hnone1.
  { change (s (key w (candidate source d)) = None). rewrite Hfr; [done|].
    intros q Hq. by apply key_length_ne, not_eq_sym, candidate_parent_length. }
  destruct (Hd (parent_path (candidate source d))) as [names Hnames];
    [done|].
  change (lookup_path w1 (parent_path (candidate source d))
          = Some (Dir names)) in Hnames.
  exists (registered source
            (copied source (candidate source d) data names print_info
               (entered source (candidate source d) print_info w1))).
  split.
  { apply organize_file_fresh; done. }
  set (w2 := entered source (candidate source d) print_info w1).
  destruct (entered_fields source (candidate source d) print_info w1)
    as (Hci & Hf & Hst & Hpf & Hh). fold w2 in Hci, Hf, Hst, Hpf, Hh.
  pose proof (lookup_entered source (candidate source d) print_info w1)
    as Hl. fold w2 in Hl.
  destruct (copied_fields source (candidate source d) data names
              print_info w2) as (_ & _ & _ & Hpf' & Hh').
  split; [apply lookup_copied_here|].
  split.
  { intros q Hq. apply (is_dir_copied _ _ _ _ _ w2); [by rewrite Hl|].
    destruct (Hd q Hq) as [ns Hns]. exists ns. by rewrite Hl. }
  split.
  { change (lookup_path (copied source (candidate source d) data names
                           print_info w2) source = Some (File data)).
    rewrite lookup_copied_other; [by rewrite Hl | |].
    - intros Ek. rewrite <- Hl in Hnone1, Hsrc1. unfold lookup_path in *.
      rewrite Ek in Hsrc1. congruence.
    - intros Ek. rewrite <- Hl in Hnames, Hsrc1. unfold lookup_path in *.
      rewrite Ek in Hsrc1. congruence. }
  split.
  { unfold registered. cbn [processed_files with_processed_files].
    by rewrite Hpf', Hpf. }
  change (copies (copied source (candidate source d) data names print_info w2)
          = copies w ++ [(source, candidate source d)]).
  rewrite (copies_snoc w2 _ (Copy source (candidate source d)) Hh').
  f_equal. rewrite (copies_snoc w1 w2 (Organize source) Hh).
  by rewrite app_nil_r.
Qed.

Lemma organize_file_makes_its_folder_witness :
  ∃ w', organize_file ["s"; "a"; "kick.wav"] ["d"] false
          (start false no_fault fresh_store) = (Normal tt, w')
        ∧ lookup_path w' ["d"; "Drums"; "Kick"; "kick.wav"] = Some (File "A")
        ∧ dirs_exist w' ["d"; "Drums"; "Kick"].
Proof.
  destruct (organize_file_makes_its_folder ["s"; "a"; "kick.wav"] ["d"]
              false (start false no_fault fresh_store) "A")
    as (w' & E & Hl & Hd & _).
  - intros c. reflexivity.
  - reflexivity.
  - reflexivity.
  - by exists ["s"].
  - by apply way_check_sound.
  - reflexivity.
  - exists w'. split; [exact E|]. split; [exact Hl | exact Hd].
Defined.
(** *** The walk as a pass over the files *)

Lemma audio_files_cons (p : path) (files : list path) :
  audio_files (p :: files)
  = if is_audio_file p then p :: audio_files files else audio_files files.
Proof. reflexivity. Qed.

Lemma for_each_organize_file_returns (files : list path) (d : path)
    (print_info : bool) (w : world) :
  ∃ w', for_each files (λ q, organize_file q d print_info) w = (Normal tt, w')
        ∧ evolves (targets d) d (length d + 3) w w'.
Proof.
  revert w. induction files as [|q files IH]; intros w; simpl.
  { exists w. split; [done | reflexivity]. }
  destruct (organize_file_returns q d print_info w) as [w1 E1].
  destruct (IH w1) as (w' & E & He). exists w'. split.
  - by erewrite bind_run by exact E1.
  - transitivity w1; [|done]. eapply evolves_organize_file; [|exact E1]. lia.
Qed.

Section Pass.
Variables (root d : path) (print_info : bool).

Lemma walk_is_a_pass :
  (∀ t p w fuel,
     root `prefix_of` p → apart w root d → listing_calm w →
     mounted w p t → (height t ≤ fuel)%nat →
     visit fuel d print_info p w
     = for_each (files_of p t) (λ q, organize_file q d print_info) w)
  ∧ (∀ f p w fuel,
       root `prefix_of` p → apart w root d → listing_calm w →
       mounted_all w p f → (height_all f ≤ fuel)%nat →
       for_each (map (path_append p) (names_of f)) (visit fuel d print_info) w
       = for_each (files_in p f) (λ q, organize_file q d print_info) w).
Proof.
  apply tree_forest_mutind.
  - (* a file *)
    intros data p w fuel Hp Ha Hc Hm _. simpl in Hm.
    unfold visit, visit_entry.
    erewrite bind_run; [|apply is_directory_run, Hc].
    rewrite Hm. simpl.
    destruct (organize_file_returns p d print_info w) as [w' E].
    rewrite E. unfold mbind, M_bind. by rewrite E.
  - (* a directory *)
    intros f IH p w fuel Hp Ha Hc [Hm1 Hm2] Hh. simpl in Hh.
    destruct fuel as [|fuel]; [lia|].
    unfold visit, visit_entry.
    erewrite bind_run; [|apply is_directory_run, Hc].
    rewrite Hm1. simpl. unfold try_catch.
    erewrite bind_run.
    2:{ unfold directory_iterator. rewrite guarded_calm by apply Hc.
        by rewrite Hm1. }
    fold (visit fuel d print_info).
    rewrite (IH p w fuel Hp Ha Hc Hm2) by lia.
    by destruct (for_each_organize_file_returns (files_in p f) d print_info w)
      as (w' & -> & _).
  - (* no entry *)
    done.
  - (* one more entry *)
    intros name t IHt rest IHr p w fuel Hp Ha Hc [Hm1 Hm2] Hh.
    simpl in Hh. simpl. rewrite for_each_app.
    destruct (for_each_organize_file_returns (files_of (p // name) t) d
                print_info w) as (w1 & E1 & He1).
    rewrite (bind_run _ _ w w1 tt).
    2:{ rewrite IHt; [done | by apply prefix_app_r | done | done | done | lia]. }
    rewrite (bind_run _ _ w w1 tt E1).
    apply IHr; [done | | | | lia].
    + unfold apart, key. rewrite (ev_case _ _ _ _ _ He1). exact Ha.
    + intros q. rewrite (ev_fault _ _ _ _ _ He1). apply Hc.
    + by apply (mounted_evolves _ _ _ root w w1 He1 Ha).
Qed.
End Pass.

Lemma process_directory_pass (source d : path) (print_info : bool)
    (entries : forest) (w : world) (fuel : nat) :
  mounted w source (Folder entries) → apart w source d → listing_calm w →
  (height (Folder entries) ≤ fuel)%nat →
  process_directory fuel source d print_info w
  = for_each (files_of source (Folder entries))
      (λ q, organize_file q d print_info) w.
Proof.
  intros Hm Ha Hc Hh.
  rewrite <- (proj1 (walk_is_a_pass source d print_info) (Folder entries)
                source w fuel); try done.
  unfold visit, visit_entry.
  erewrite bind_run; [|apply is_directory_run, Hc].
  destruct Hm as [Hm _]. by rewrite Hm.
Qed.

(** X15.  When the source root holds a finite directory tree, lies
    apart from the destination root and can be listed, process_directory
    does what calling organize_file on each file of the tree, in the
    order of the listings, does; and it returns normally. *)
Theorem process_directory_is_a_pass_over_the_files (source d : path)
    (print_info : bool) (entries : forest) (w : world) (fuel : nat) :
  mounted w source (Folder entries) → apart w source d → listing_calm w →
  (height (Folder entries) ≤ fuel)%nat →
  process_directory fuel source d print_info w
  = for_each (files_of source (Folder entries))
      (λ q, organize_file q d print_info) w
  ∧ ∃ w', process_directory fuel source d print_info w = (Normal tt, w').
Proof.
  intros Hm Ha Hc Hh.
  rewrite (process_directory_pass source d print_info entries w fuel)
    by done.
  split; [done|].
  destruct (for_each_organize_file_returns (files_of source (Folder entries))
              d print_info w) as (w' & E & _).
  by exists w'.
Qed.

Lemma process_directory_is_a_pass_over_the_files_witness :
  process_directory 3 ["s"] ["d"] false (start false no_fault tidy_store)
  = for_each [ ["s"; "drums"; "Kick_01.wav"];
               ["s"; "drums"; "snare_loop.wav"];
               ["s"; "readme.txt"]; ["s"; "Vox_Chop.MP3"] ]
      (λ q, organize_file q ["d"] false) (start false no_fault tidy_store).
Proof.
  apply (process_directory_is_a_pass_over_the_files ["s"] ["d"] false
           tidy_tree (start false no_fault tidy_store) 3).
  - simpl. repeat split; reflexivity.
  - intros [H|H]; apply prefix_cons_inv_1 in H; discriminate H.
  - intros p. split; reflexivity.
  - simpl. lia.
Defined.


(** *** A run without collisions *)

Lemma fresh_state_fields (source to : path) (data : string)
    (names : list string) (print_info : bool) (w : world) :
  let w1 := registered source
              (copied source to data names print_info
                 (entered source to print_info w)) in
  ignore_case w1 = ignore_case w
  ∧ fault w1 = fault w
  ∧ (∀ q, lookup_path w1 q
          = if decide (key w q = key w to) then Some (File data)
            else if decide (key w q = key w (parent_path to))
                 then Some (Dir (names ++ [filename to]))
                 else lookup_path w q)
  ∧ processed_files w1 = {[to_lower (filename source)]} ∪ processed_files w
  ∧ copies w1 = copies w ++ [(source, to)]
  ∧ console w1
    = console w ++ (if print_info then [Request source to; Moved source to]
                    else []).
Proof.
  intros w1. split; [by destruct print_info|]. split; [by destruct print_info|].
  split.
  { intros q.
    change (lookup_path w1 q)
      with (lookup_path (copied source to data names print_info
                           (entered source to print_info w)) q).
    rewrite lookup_copied, lookup_entered.
    by destruct print_info. }
  split; [by destruct print_info|]. split.
  - unfold copies. destruct print_info; cbn; rewrite !omap_app; cbn;
      by rewrite app_nil_r.
  - destruct print_info; cbn; by rewrite <- ?app_assoc, ?app_nil_r.
Qed.

Lemma candidate_parent (source d : path) :
  parent_path (candidate source d)
  = d // group (classify (filename source))
      // subgroup (classify (filename source)).
Proof. unfold candidate. by rewrite parent_path_snoc. Qed.

Lemma candidate_near (w : world) (source d p : path) :
  ¬ near (key w d) (key w p) →
  key w p ≠ key w (candidate source d)
  ∧ key w p ≠ key w (parent_path (candidate source d)).
Proof.
  intros Hn. split; intros E; apply Hn; right; rewrite E;
    apply canon_prefix.
  - apply below_prefix, candidate_below.
  - apply below_parent, candidate_below.
Qed.
Lemma elem_of_audio_files (p : path) (files : list path) :
  p ∈ audio_files files ↔ p ∈ files ∧ is_audio_file p = true.
Proof.
  unfold audio_files. by rewrite !list_elem_of_In, filter_In.
Qed.

Lemma placement_log_cons (d : path) (print_info : bool) (p : path)
    (files : list path) :
  placement_log d print_info (p :: files)
  = (if is_audio_file p && print_info
     then [Request p (candidate p d); Moved p (candidate p d)] else [])
    ++ placement_log d print_info files.
Proof.
  unfold placement_log. rewrite audio_files_cons.
  by destruct (is_audio_file p), print_info.
Qed.

Lemma pass_without_collisions (d : path) (print_info : bool)
    (files : list path) (w : world) :
  calm w →
  (∀ c, dirs_exist w (d // group c // subgroup c)) →
  (∀ p, p ∈ files → ∃ data, lookup_path w p = Some (File data)) →
  (∀ p, p ∈ files → ¬ near (key w d) (key w p)) →
  (∀ p, p ∈ audio_files files → lookup_path w (candidate p d) = None) →
  NoDup (map (λ p, key w (candidate p d)) (audio_files files)) →
  ∃ w',
    for_each files (λ q, organize_file q d print_info) w = (Normal tt, w')
    ∧ ignore_case w' = ignore_case w
    ∧ fault w' = fault w
    ∧ (∀ p, p ∈ audio_files files →
            lookup_path w' (candidate p d) = lookup_path w p)
    ∧ (∀ k, (∀ p, p ∈ audio_files files →
                  k ≠ key w (candidate p d)
                  ∧ k ≠ key w (parent_path (candidate p d))) →
            store w' k = store w k)
    ∧ copies w' = copies w ++ map (λ p, (p, candidate p d)) (audio_files files)
    ∧ processed_files w'
      = list_to_set (map (λ p, to_lower (filename p)) (audio_files files))
        ∪ processed_files w
    ∧ console w' = console w ++ placement_log d print_info files
    ∧ ∀ c, dirs_exist w' (d // group c // subgroup c).
Proof.
  revert w. induction files as [|p files IH];
    intros w Hcalm Hdirs Hsrc Hnear Hfree Hnd.
  { exists w. cbn. rewrite !app_nil_r, union_empty_l_L.
    repeat split; try done.
    - intros p Hp. by apply elem_of_nil in Hp.
    - unfold placement_log. cbn. by destruct print_info; rewrite app_nil_r. }
  cbn [for_each]. rewrite audio_files_cons in Hfree, Hnd |- *.
  rewrite placement_log_cons.
  destruct (is_audio_file p) eqn:Ea.
  - (* an audio file: the candidate is free *)
    destruct (Hsrc p) as [data Hp]; [by left|].
    destruct (Hdirs (classify (filename p))
                (parent_path (candidate p d))) as [names Hnames].
    { by rewrite candidate_parent. }
    set (w1 := registered p
                 (copied p (candidate p d) data names print_info
                    (entered p (candidate p d) print_info w))).
    destruct (fresh_state_fields p (candidate p d) data names print_info w)
      as (Hci & Hf & Hl & Hpf & Hc & Hco). fold w1 in Hci, Hf, Hl, Hpf, Hc, Hco.
    assert (key w1 = key w) as Hk by (unfold key; by rewrite Hci).
    assert (lookup_path w (candidate p d) = None) as Hnone
      by (apply Hfree; by left).
    rewrite map_cons in Hnd. apply list.NoDup_cons in Hnd as [Hnotin Hnd].
    assert (∀ q, q ∈ audio_files files →
                 key w (candidate q d) ≠ key w (candidate p d)
                 ∧ key w (candidate q d)
                   ≠ key w (parent_path (candidate p d))) as Hother.
    { intros q Hq. split.
      - intros E. apply Hnotin. rewrite <- E.
        apply (list_elem_of_fmap_2 (λ p, key w (candidate p d))), Hq.
      - apply key_length_ne. rewrite candidate_parent.
        unfold candidate, path_append. rewrite !length_app. simpl. lia. }
    assert (∀ q, ¬ near (key w d) (key w q) →
                 lookup_path w1 q = lookup_path w q) as Hkeep.
    { intros q Hq. rewrite Hl.
      destruct (candidate_near w p d q Hq) as [H1 H2].
      by rewrite !decide_False. }
    destruct (IH w1)
      as (w' & E & Hci' & Hf' & Hl' & Hfr' & Hc' & Hpf' & Hco' & Hd').
    + intros c. rewrite Hf. apply Hcalm.
    + intros c q Hq. destruct (Hdirs c q Hq) as [ns Hns].
      unfold is_dir. rewrite Hl. destruct (decide _); [|destruct (decide _)].
      * unfold lookup_path in Hns, Hnone. rewrite e in Hns. congruence.
      * by eauto.
      * by eauto.
    + intros q Hq. rewrite Hkeep; [|apply Hnear; by right].
      apply Hsrc. by right.
    + intros q Hq. rewrite Hk. apply Hnear. by right.
    + intros q Hq. rewrite Hl. destruct (Hother q Hq) as [H1 H2].
      rewrite !decide_False by done. apply Hfree. by right.
    + by rewrite Hk.
    + exists w'. erewrite bind_run.
      2:{ apply organize_file_fresh; [done | done | | done | done | done].
          rewrite candidate_parent. apply Hdirs. }
      fold w1. split; [exact E|].
      split; [congruence|]. split; [congruence|].
      rewrite Hk in Hfr'.
      split; [|split; [|split; [|split; [|split; [|done]]]]].
      * intros q [->|Hq]%elem_of_cons.
        -- assert (key w' = key w) as Hk'
             by (unfold key; by rewrite Hci', Hci).
           unfold lookup_path at 1. rewrite Hk', Hfr'.
           ++ rewrite <- Hk.
              change (lookup_path w1 (candidate p d) = lookup_path w p).
              rewrite Hl, decide_True by done. by rewrite Hp.
           ++ intros q Hq. destruct (Hother q Hq) as [H1 H2].
              split; [done|]. apply key_length_ne.
              rewrite candidate_parent.
              unfold candidate, path_append. rewrite !length_app. simpl. lia.
        -- rewrite Hl' by done. apply Hkeep, Hnear.
           apply elem_of_audio_files in Hq as [Hq _]. by right.
      * intros k Hkk. rewrite Hfr'.
        -- destruct (Hkk p) as [H1 H2]; [by left|].
           assert (store w1 k
                   = <[key w (candidate p d) := Some (File data)]>
                       (<[key w (parent_path (candidate p d))
                          := Some (Dir (names ++ [filename (candidate p d)]))]>
                          (store w)) k) as ->.
           { unfold w1, registered, copied, entered, announce, link.
             by destruct print_info. }
           by rewrite !fn_lookup_insert_ne.
        -- intros q Hq. apply Hkk. by right.
      * rewrite Hc', Hc. cbn [map]. by rewrite <- app_assoc.
      * rewrite Hpf', Hpf, map_cons. cbn [list_to_set].
        by rewrite (assoc_L (∪)), (comm_L (∪) (list_to_set _)).
      * rewrite Hco', Hco, <- app_assoc. cbn [andb]. done.
  - (* not an audio file: nothing happens *)
    set (w1 := with_history (history w ++ [Organize p]) w).
    destruct (IH w1)
      as (w' & E & Hci' & Hf' & Hl' & Hfr' & Hc' & Hpf' & Hco' & Hd').
    + exact Hcalm.
    + exact Hdirs.
    + intros q Hq. apply Hsrc. by right.
    + intros q Hq. apply Hnear. by right.
    + exact Hfree.
    + exact Hnd.
    + exists w'. erewrite bind_run.
      2:{ rewrite organize_file_run. cbn zeta. by rewrite Ea. }
      fold w1. split; [exact E|]. cbn [andb app].
      split; [done|]. split; [done|]. split; [done|]. split; [done|].
      split; [|done]. rewrite Hc'. f_equal. unfold copies, w1. cbn.
      rewrite omap_app. cbn. by rewrite app_nil_r.
Qed.
Lemma mounted_files (w : world) :
  (∀ t p q, mounted w p t → q ∈ files_of p t →
            ∃ data, lookup_path w q = Some (File data))
  ∧ (∀ f p q, mounted_all w p f → q ∈ files_in p f →
              ∃ data, lookup_path w q = Some (File data)).
Proof.
  apply tree_forest_mutind.
  - intros data p q Hm ->%list_elem_of_singleton. by exists data.
  - intros f IH p q [_ Hm] Hq. by apply (IH p).
  - intros p q _ Hq. by apply elem_of_nil in Hq.
  - intros name t IHt rest IHr p q [Hm1 Hm2] [Hq|Hq]%elem_of_app;
      [by apply (IHt (p // name)) | by apply (IHr p)].
Qed.

Lemma mounted_same (w w' : world) (root : path) :
  (∀ p, root `prefix_of` p → lookup_path w' p = lookup_path w p) →
  (∀ t p, root `prefix_of` p → mounted w p t → mounted w' p t)
  ∧ (∀ f p, root `prefix_of` p → mounted_all w p f → mounted_all w' p f).
Proof.
  intros Hl. apply tree_forest_mutind.
  - intros data p Hp. simpl. by rewrite Hl.
  - intros f IH p Hp [H1 H2]. simpl. rewrite Hl by done. auto.
  - done.
  - intros name t IHt rest IHr p Hp [H1 H2]. simpl. split; [|auto].
    apply IHt; [|done]. by apply prefix_app_r.
Qed.

Lemma calm_listing (w : world) : calm w → listing_calm w.
Proof. intros H p. split; apply H. Qed.

(** X17.  A walk without collisions.  Let a finite tree be mounted at
    the source root, with fuel for its height, and let neither of the
    source and destination roots lie inside or equal the other.  When
    no call is refused, the eight category folders exist under the
    destination root, and the candidates of the audio files of the tree
    are free and pairwise different as paths of the volume, then
    process_directory returns normally; it has copied every audio file
    to its candidate (which then holds what the source holds), in the
    order of the walk, touched nothing but the candidates and their
    folders, added the lowercased names to the registry and printed,
    with print_info, a Request and a Moved line per file and no
    error. *)
Theorem run_without_collisions (source d : path) (print_info : bool)
    (entries : forest) (w : world) (fuel : nat) :
  calm w →
  mounted w source (Folder entries) →
  apart w source d →
  (height (Folder entries) ≤ fuel)%nat →
  (∀ c, dirs_exist w (d // group c // subgroup c)) →
  (∀ p, p ∈ audio_files (files_of source (Folder entries)) →
        lookup_path w (candidate p d) = None) →
  NoDup (map (λ p, key w (candidate p d))
           (audio_files (files_of source (Folder entries)))) →
  ∃ w',
    process_directory fuel source d print_info w = (Normal tt, w')
    ∧ (∀ p, p ∈ audio_files (files_of source (Folder entries)) →
            lookup_path w' (candidate p d) = lookup_path w p)
    ∧ (∀ k, (∀ p, p ∈ audio_files (files_of source (Folder entries)) →
                  k ≠ key w (candidate p d)
                  ∧ k ≠ key w (parent_path (candidate p d))) →
            store w' k = store w k)
    ∧ copies w'
      = copies w ++ map (λ p, (p, candidate p d))
                      (audio_files (files_of source (Folder entries)))
    ∧ processed_files w'
      = list_to_set (map (λ p, to_lower (filename p))
                       (audio_files (files_of source (Folder entries))))
        ∪ processed_files w
    ∧ console w'
      = console w
        ++ placement_log d print_info (files_of source (Folder entries)).
Proof.
  intros Hcalm Hm Ha Hh Hdirs Hfree Hnd.
  rewrite (process_directory_pass source d print_info entries w fuel);
    [|done | done | by apply calm_listing | done].
  destruct (pass_without_collisions d print_info
              (files_of source (Folder entries)) w)
    as (w' & E & _ & _ & H1 & H2 & H3 & H4 & H5 & _); try done.
  - intros p Hp. by apply (proj1 (mounted_files w) (Folder entries) source).
  - intros p Hp. apply (apart_below w source d p); [done|].
    apply canon_prefix. by apply (proj1 files_prefix (Folder entries)).
  - by exists w'.
Qed.

Lemma run_without_collisions_witness :
  ∃ w', process_directory 3 ["s"] ["d"] true
          (start false no_fault tidy_store) = (Normal tt, w')
        ∧ lookup_path w' ["d"; "Drums"; "Snare"; "snare_loop.wav"]
          = Some (File "S")
        ∧ console w'
          = [Request ["s"; "drums"; "Kick_01.wav"]
               ["d"; "Drums"; "Kick"; "Kick_01.wav"];
             Moved ["s"; "drums"; "Kick_01.wav"]
               ["d"; "Drums"; "Kick"; "Kick_01.wav"];
             Request ["s"; "drums"; "snare_loop.wav"]
               ["d"; "Drums"; "Snare"; "snare_loop.wav"];
             Moved ["s"; "drums"; "snare_loop.wav"]
               ["d"; "Drums"; "Snare"; "snare_loop.wav"];
             Request ["s"; "Vox_Chop.MP3"]
               ["d"; "Other"; "Other"; "Vox_Chop.MP3"];
             Moved ["s"; "Vox_Chop.MP3"]
               ["d"; "Other"; "Other"; "Vox_Chop.MP3"]].
Proof.
  destruct (run_without_collisions ["s"] ["d"] true tidy_tree
              (start false no_fault tidy_store) 3)
    as (w' & E & Hl & _ & _ & _ & Hc).
  - intros c. reflexivity.
  - simpl. repeat split; reflexivity.
  - intros [H|H]; apply prefix_cons_inv_1 in H; discriminate H.
  - simpl. lia.
  - intros c. apply dirs_check_sound. by destruct c.
  - apply (proj1 (list.Forall_forall
                    (λ p, lookup_path (start false no_fault tidy_store)
                            (candidate p ["d"]) = None)
                    (audio_files (files_of ["s"] (Folder tidy_tree))))).
    repeat constructor.
  - apply (bool_decide_unpack _). vm_compute. exact I.
  - exists w'. split; [exact E|]. split; [|exact Hc].
    apply (Hl ["s"; "drums"; "snare_loop.wav"]).
    apply elem_of_audio_files. split; [|reflexivity].
    apply list_elem_of_In. simpl. tauto.
Defined.
(** *** main on a fresh destination *)

Lemma main_run (fuel : nat) (source d : path) (print_info : bool)
    (w : world) :
  fault w (Call_exists source) = None → occupied w source = true →
  main fuel source d print_info w
  = after_creating (map (folder d) categories)
      (main_after_folders fuel source d print_info)
      (with_console (console w ++ [Banner]) w).
Proof.
  intros Hf Ho. unfold main.
  rewrite (bind_run _ _ w (with_console (console w ++ [Banner]) w) tt)
    by done.
  erewrite bind_run by (by apply fs_exists_run).
  change (occupied (with_console _ w) source) with (occupied w source).
  by rewrite Ho.
Qed.

Lemma folder_nonempty (d p : path) :
  p ∈ map (folder d) categories → p ≠ [].
Proof.
  intros (c & -> & _)%list_elem_of_fmap H.
  unfold folder, path_append in H. by apply app_eq_nil in H as [_ ?].
Qed.

Lemma after_creating_run {A : Type} (ps : list path) (k : M A) (w : world) :
  (∀ p, p ∈ ps → p ≠ []) →
  calm w → is_dir w [] →
  (∀ p q data, p ∈ ps → q `prefix_of` p →
               lookup_path w q ≠ Some (File data)) →
  ∃ s,
    after_creating ps k w = k (with_store s w)
    ∧ (∀ p, p ∈ ps → dirs_exist (with_store s w) p)
    ∧ (∀ k', (∀ p q, p ∈ ps → q `prefix_of` p → k' ≠ key w q) →
             s k' = store w k')
    ∧ (∀ q, is_dir w q → is_dir (with_store s w) q)
    ∧ (∀ q data, lookup_path (with_store s w) q = Some (File data) ↔
                 lookup_path w q = Some (File data)).
Proof.
  intros Hne.
  revert w. induction ps as [|p ps IH]; intros w Hcalm Hroot Hfree.
  { exists (store w). rewrite with_store_id. split; [done|].
    split; [|done]. intros p Hp. by apply elem_of_nil in Hp. }
  destruct (fs_create_directories_creates p w)
    as (b & s1 & E1 & Hd1 & Hfr1 & Hp1 & Hfile1).
  { apply Hne. by left. }
  { apply Hcalm. }
  { done. }
  { intros q data. apply Hfree. by left. }
  destruct (IH (λ p' Hp', Hne p' (list_elem_of_further _ _ _ Hp'))
              (with_store s1 w)) as (s & E & Hd & Hfr & Hp & Hfile).
  { exact Hcalm. }
  { by apply Hp1. }
  { intros p' q data Hp' Hq. rewrite Hfile1. apply (Hfree p'); [by right|done]. }
  exists s. cbn [after_creating]. erewrite bind_run by exact E1.
  split; [exact E|]. split; [|split; [|split]].
  - intros p' [->|Hp']%elem_of_cons; [|by apply Hd].
    intros q Hq. apply Hp. by apply Hd1.
  - intros k' Hk'. rewrite Hfr.
    + apply Hfr1. intros q Hq. apply (Hk' p); [by left | done].
    + intros p' q Hp' Hq. apply (Hk' p'); [by right | done].
  - intros q Hq. by apply Hp, Hp1.
  - intros q data. by rewrite Hfile, Hfile1.
Qed.

Lemma folder_in_categories (d : path) (c : category) :
  folder d c ∈ map (folder d) categories.
Proof.
  apply (list_elem_of_fmap_2 (folder d)).
  apply list_elem_of_In. destruct c; simpl; tauto.
Qed.

Lemma categories_folder (d p : path) :
  p ∈ map (folder d) categories → ∃ c, p = folder d c.
Proof. intros (c & -> & _)%list_elem_of_fmap. by exists c. Qed.

Lemma folder_near (w : world) (d q : path) (c : category) :
  q `prefix_of` folder d c →
  near (key w d) (key w q) ∧ (length q ≤ length d + 2)%nat.
Proof.
  intros Hq. split.
  - assert (d `prefix_of` folder d c) as Hd.
    { unfold folder, path_append. rewrite <- app_assoc. by apply prefix_app_r. }
    destruct (prefix_weak_total _ _ _ Hq Hd) as [H|H];
      [left | right]; by apply canon_prefix.
  - apply prefix_length in Hq. unfold folder, path_append in Hq.
    rewrite !length_app in Hq. simpl in Hq. lia.
Qed.
(** X18.  main on a destination it has to make.  Let a finite tree be
    mounted at the source root, with fuel for its height, and let
    neither of the source and destination roots lie inside or equal the
    other.  When the working directory exists, no regular file lies on
    the way to a category folder, no call is refused and the candidates
    of the audio files of the tree are free and pairwise different as
    paths of the volume, main returns 0; afterwards the eight folders
    exist, every audio file of the source tree has been copied to its
    candidate, in the order of the walk, every path at or below the
    source root holds what it held, and the console shows the banner,
    the reports of the copies and the two closing lines. *)
Theorem main_on_a_fresh_destination (source d : path) (print_info : bool)
    (entries : forest) (w : world) (fuel : nat) :
  calm w →
  mounted w source (Folder entries) →
  apart w source d →
  (height (Folder entries) ≤ fuel)%nat →
  is_dir w [] →
  (∀ c q data, q `prefix_of` d // group c // subgroup c →
               lookup_path w q ≠ Some (File data)) →
  (∀ p, p ∈ audio_files (files_of source (Folder entries)) →
        lookup_path w (candidate p d) = None) →
  NoDup (map (λ p, key w (candidate p d))
           (audio_files (files_of source (Folder entries)))) →
  ∃ w',
    main fuel source d print_info w = (Normal 0, w')
    ∧ (∀ p, p ∈ audio_files (files_of source (Folder entries)) →
            lookup_path w' (candidate p d) = lookup_path w p)
    ∧ (∀ p, source `prefix_of` p → lookup_path w' p = lookup_path w p)
    ∧ (∀ c, dirs_exist w' (d // group c // subgroup c))
    ∧ copies w'
      = copies w ++ map (λ p, (p, candidate p d))
                      (audio_files (files_of source (Folder entries)))
    ∧ console w'
      = console w
        ++ [Banner]
        ++ placement_log d print_info (files_of source (Folder entries))
        ++ [Splice_Files_organized_successfully; Press_Enter_to_exit].
Proof.
  intros Hcalm Hm Ha Hh Hroot Hway Hfree Hnd.
  set (files := files_of source (Folder entries)) in *.
  rewrite main_run; [|by apply Hcalm|].
  2:{ destruct Hm as [Hm _]. unfold occupied. by rewrite Hm. }
  set (w0 := with_console (console w ++ [Banner]) w).
  destruct (after_creating_run (map (folder d) categories)
              (main_after_folders fuel source d print_info) w0)
    as (s & -> & Hd & Hfr & Hp & Hfile).
  { apply folder_nonempty. }
  { exact Hcalm. }
  { exact Hroot. }
  { intros p q data (c & ->)%categories_folder. apply Hway. }
  set (w1 := with_store s w0).
  assert (∀ k, (¬ near (key w d) k ∨ (length d + 2 < length k)%nat) →
               store w1 k = store w k) as Hsame.
  { intros k Hk. change (s k = store w k). apply Hfr.
    intros p q (c & ->)%categories_folder Hq ->.
    destruct (folder_near w d q c Hq) as [Hn Hlen].
    destruct Hk as [Hk|Hk]; [done|].
    unfold key in Hk. rewrite length_canon in Hk. lia. }
  assert (∀ p, source `prefix_of` p → lookup_path w1 p = lookup_path w p)
    as Hsrc.
  { intros p Hp'. apply Hsame. left.
    apply (apart_below w source d p); [done | by apply canon_prefix]. }
  assert (∀ p, lookup_path w1 (candidate p d) = lookup_path w (candidate p d))
    as Hcand.
  { intros p. apply Hsame. right. unfold key.
    rewrite length_canon, candidate_length. lia. }
  destruct (pass_without_collisions d print_info files w1)
    as (w2 & E & Hci & _ & Hl & Hfr2 & Hc & _ & Hco & Hd2).
  { exact Hcalm. }
  { intros c. apply Hd, folder_in_categories. }
  { intros p Hp'. rewrite Hsrc.
    - by apply (proj1 (mounted_files w) (Folder entries) source).
    - by apply (proj1 files_prefix (Folder entries)). }
  { intros p Hp'. apply (apart_below w source d p); [done|].
    apply canon_prefix. by apply (proj1 files_prefix (Folder entries)). }
  { intros p Hp'. rewrite Hcand. by apply Hfree. }
  { exact Hnd. }
  assert (key w2 = key w) as Hk2 by (unfold key; by rewrite Hci).
  exists (with_console
            (console w2 ++ [Splice_Files_organized_successfully;
                            Press_Enter_to_exit]) w2).
  split; [|split; [|split; [|split; [|split]]]].
  - unfold main_after_folders. erewrite bind_run.
    2:{ rewrite (process_directory_pass source d print_info entries w1 fuel);
          [exact E | | done | by apply calm_listing | done].
        by apply (proj1 (mounted_same w w1 source Hsrc) (Folder entries)). }
    unfold mbind, M_bind, print. cbn. by rewrite <- app_assoc.
  - intros p Hp'. change (lookup_path w2 (candidate p d) = lookup_path w p).
    rewrite Hl by done. apply Hsrc.
    apply elem_of_audio_files in Hp' as [Hp' _].
    by apply (proj1 files_prefix (Folder entries)).
  - intros p Hp'. change (lookup_path w2 p = lookup_path w p).
    rewrite <- Hsrc by done. unfold lookup_path. rewrite Hk2.
    change (key w1 p) with (key w p). apply Hfr2.
    intros q Hq. apply (candidate_near w1 q d p).
    apply (apart_below w source d p); [done | by apply canon_prefix].
  - exact Hd2.
  - change (copies w2 = copies w ++ map (λ p, (p, candidate p d))
                                      (audio_files files)).
    by rewrite Hc.
  - cbn. rewrite Hco. cbn. by rewrite <- !app_assoc.
Qed.

Lemma main_on_a_fresh_destination_witness :
  ∃ w', main 3 ["s"] ["d"] false (start false no_fault bare_store)
        = (Normal 0, w')
        ∧ lookup_path w' ["d"; "Drums"; "Kick"; "Kick_01.wav"]
          = Some (File "K")
        ∧ lookup_path w' ["d"; "Other"; "Other"; "Vox_Chop.MP3"]
          = Some (File "V")
        ∧ console w' = [Banner; Splice_Files_organized_successfully;
                        Press_Enter_to_exit].
Proof.
  destruct (main_on_a_fresh_destination ["s"] ["d"] false tidy_tree
              (start false no_fault bare_store) 3)
    as (w' & E & Hl & _ & _ & _ & Hc).
  - intros c. reflexivity.
  - simpl. repeat split; reflexivity.
  - intros [H|H]; apply prefix_cons_inv_1 in H; discriminate H.
  - simpl. lia.
  - by exists ["s"].
  - intros c. apply way_check_sound. by destruct c.
  - apply (proj1 (list.Forall_forall
                    (λ p, lookup_path (start false no_fault bare_store)
                            (candidate p ["d"]) = None)
                    (audio_files (files_of ["s"] (Folder tidy_tree))))).
    repeat constructor.
  - apply (bool_decide_unpack _). vm_compute. exact I.
  - exists w'. split; [exact E|]. split; [|split; [|exact Hc]].
    + apply (Hl ["s"; "drums"; "Kick_01.wav"]).
      apply elem_of_audio_files. split; [|reflexivity].
      apply list_elem_of_In. simpl. tauto.
    + apply (Hl ["s"; "Vox_Chop.MP3"]).
      apply elem_of_audio_files. split; [|reflexivity].
      apply list_elem_of_In. simpl. tauto.
Defined.

(** *** main on a source that is no directory *)


(** *** Files of the same name in one run *)

Lemma indexed_near (w : world) (source d p : path) (i : Z) :
  ¬ near (key w d) (key w p) →
  key w p ≠ key w (indexed_path source d i) ∧ key w p ≠ key w d.
Proof.
  intros Hn. split; intros E; apply Hn; right; rewrite E; [|done].
  apply canon_prefix. unfold indexed_path, path_append. by apply prefix_app_r.
Qed.

Lemma indexed_path_keys (w : world) (source d : path) (i j : Z) :
  key w (indexed_path source d i) = key w (indexed_path source d j) → i = j.
Proof.
  unfold indexed_path, key, path_append. rewrite !canon_app. intros E.
  apply app_inv_head in E.
  apply (to_lower_indexed_name_inj (filename source)).
  unfold canon in E. destruct (ignore_case w).
  - simpl in E. by injection E.
  - injection E as E. by rewrite E.
Qed.

Lemma indexed_path_same_name (p q d : path) (i : Z) :
  filename p = filename q → indexed_path p d i = indexed_path q d i.
Proof. unfold indexed_path. by intros ->. Qed.

Lemma candidate_same_name (p q d : path) :
  filename p = filename q → candidate p d = candidate q d.
Proof. unfold candidate. by intros ->. Qed.

Lemma duplicates_go_to_the_root (d first : path) (print_info : bool)
    (rest : list path) (i0 : nat) (w : world) :
  calm w →
  is_audio_file first = true →
  dirs_exist w (parent_path (candidate first d)) →
  occupied w (candidate first d) = true →
  to_lower (filename first) ∈ processed_files w →
  (∀ j, 0 ≤ j < Z.of_nat i0 → occupied w (indexed_path first d j) = true) →
  (∀ j, Z.of_nat i0 ≤ j < Z.of_nat (i0 + length rest) →
        lookup_path w (indexed_path first d j) = None) →
  (Z.of_nat (i0 + length rest) ≤ index_bound) →
  (∀ q, q ∈ rest → filename q = filename first) →
  (∀ q, q ∈ rest → ∃ data, lookup_path w q = Some (File data)) →
  (∀ q, q ∈ rest → ¬ near (key w d) (key w q)) →
  ∃ w',
    for_each rest (λ q, organize_file q d print_info) w = (Normal tt, w')
    ∧ ignore_case w' = ignore_case w
    ∧ (∀ i q, rest !! i = Some q →
              lookup_path w' (indexed_path first d (Z.of_nat (i0 + i)))
              = lookup_path w q)
    ∧ (∀ k, (∀ j, Z.of_nat i0 ≤ j < Z.of_nat (i0 + length rest) →
                  k ≠ key w (indexed_path first d j)) →
            k ≠ key w d → store w' k = store w k)
    ∧ copies w'
      = copies w
        ++ imap (λ i q, (q, indexed_path first d (Z.of_nat (i0 + i)))) rest.
Proof.
  revert i0 w. induction rest as [|q rest IH];
    intros i0 w Hcalm Ha Hdirs Hocc Hreg Htaken Hfree Hbound Hname Hsrc Hnear.
  { exists w. cbn. rewrite app_nil_r. by repeat split. }
  cbn [for_each length] in *.
  assert (filename q = filename first) as Hq by (apply Hname; by left).
  destruct (Hsrc q) as [data Hdata]; [by left|].
  destruct (Hdirs d) as [names Hnames].
  { apply below_parent, candidate_below. }
  set (n := Z.of_nat i0).
  set (to := indexed_path first d n).
  set (w1 := registered q
               (copied q to data names print_info
                  (entered q (candidate first d) print_info w))).
  assert (organize_file q d print_info w = (Normal tt, w1)) as E1.
  { unfold w1, to. rewrite <- (candidate_same_name q first d Hq).
    rewrite <- (indexed_path_same_name q first d n Hq).
    apply organize_file_indexed.
    - done.
    - unfold is_audio_file, extension in *. by rewrite Hq.
    - by rewrite (candidate_same_name q first d Hq).
    - done.
    - by rewrite (candidate_same_name q first d Hq).
    - by rewrite Hq.
    - unfold n. lia.
    - intros j Hj. rewrite (indexed_path_same_name q first d j Hq).
      apply Htaken. unfold n in Hj. lia.
    - rewrite (indexed_path_same_name q first d n Hq). apply Hfree.
      unfold n. lia.
    - done. }
  assert (lookup_path w to = None) as Hto by (apply Hfree; unfold n; lia).
  assert (ignore_case w1 = ignore_case w) as Hci by by destruct print_info.
  assert (key w1 = key w) as Hk by (unfold key; by rewrite Hci).
  assert (parent_path to = d) as Hpar by apply parent_path_snoc.
  assert (∀ p, lookup_path w1 p
               = if decide (key w p = key w to) then Some (File data)
                 else if decide (key w p = key w d)
                      then Some (Dir (names ++ [filename to]))
                      else lookup_path w p) as Hl.
  { intros p.
    change (lookup_path w1 p)
      with (lookup_path (copied q to data names print_info
                           (entered q (candidate first d) print_info w)) p).
    rewrite lookup_copied, lookup_entered, Hpar. by destruct print_info. }
  assert (key w (candidate first d) ≠ key w to
          ∧ key w (candidate first d) ≠ key w d) as [Hc1 Hc2].
  { split; apply key_length_ne; unfold to;
      rewrite candidate_length, ?indexed_path_length; lia. }
  assert (fault w1 = fault w) as Hf by by destruct print_info.
  destruct (IH (S i0) w1) as (w' & E & Hci' & Hl' & Hfr' & Hc').
  - intros c. rewrite Hf. apply Hcalm.
  - exact Ha.
  - intros p Hp. apply (is_dir_copied _ _ _ _ _ _ p).
    + by rewrite lookup_entered.
    + destruct (Hdirs p Hp) as [ns Hns]. exists ns.
      by rewrite lookup_entered.
  - unfold occupied in *. rewrite Hl, !decide_False by done. exact Hocc.
  - unfold w1, registered. cbn. apply elem_of_union. right.
    by destruct print_info.
  - intros j Hj. unfold occupied. rewrite Hl.
    destruct (decide _) as [_|Hne]; [done|].
    rewrite decide_False.
    + apply Htaken. destruct (decide (j = n)) as [->|]; [done|].
      unfold n. lia.
    + apply key_length_ne. rewrite indexed_path_length. lia.
  - intros j Hj. rewrite Hl, !decide_False.
    + apply Hfree. lia.
    + apply key_length_ne. rewrite indexed_path_length. lia.
    + intros Ej%indexed_path_keys. unfold n in Ej. lia.
  - lia.
  - intros q' Hq'. apply Hname. by right.
  - intros q' Hq'.
    destruct (indexed_near w first d q' n) as [H1 H2];
      [apply Hnear; by right|].
    rewrite Hl, !decide_False by done. apply Hsrc. by right.
  - intros q' Hq'. rewrite Hk. apply Hnear. by right.
  - exists w'. erewrite bind_run by exact E1.
    split; [exact E|]. split; [congruence|].
    assert (key w' = key w) as Hk' by (unfold key; by rewrite Hci', Hci).
    rewrite Hk in Hfr'.
    split; [|split].
    + intros [|i] q' Hi; cbn in Hi.
      * injection Hi as <-. rewrite Nat.add_0_r.
        unfold lookup_path at 1. rewrite Hk', Hfr'.
        -- rewrite <- Hk.
           change (lookup_path w1 to = lookup_path w q).
           by rewrite Hl, decide_True, Hdata.
        -- intros j Hj Ej%indexed_path_keys. lia.
        -- apply key_length_ne. rewrite indexed_path_length. lia.
      * replace (i0 + S i)%nat with (S i0 + i)%nat by lia.
        rewrite (Hl' i q' Hi).
        destruct (indexed_near w first d q' n) as [H1 H2].
        { apply Hnear. right. by eapply list_elem_of_lookup_2. }
        by rewrite Hl, !decide_False.
    + intros k Hk1 Hk2. rewrite Hfr'.
      * assert (store w1
                = <[key w to := Some (File data)]>
                    (<[key w (parent_path to)
                       := Some (Dir (names ++ [filename to]))]> (store w)))
          as ->.
        { unfold w1, registered, copied, entered, announce, link.
          by destruct print_info. }
        rewrite Hpar, !fn_lookup_insert_ne; [done | done |].
        apply not_eq_sym, Hk1. unfold n. lia.
      * intros j Hj. apply Hk1. lia.
      * done.
    + rewrite Hc'.
      assert (copies w1 = copies w ++ [(q, to)]) as ->.
      { unfold copies, w1, registered, copied, entered, announce, link.
        destruct print_info; cbn; rewrite !omap_app; cbn;
          by rewrite app_nil_r. }
      rewrite <- app_assoc. f_equal. cbn [imap app]. f_equal.
      * unfold to, n. by rewrite Nat.add_0_r.
      * apply imap_ext. intros i x _. cbn. do 3 f_equal. lia.
Qed.

(** X20.  Files of the same name in one run.  Let a finite tree be
    mounted at the source root, with fuel for its height, and let
    neither of the source and destination roots lie inside or equal the
    other.  When all n files of the tree have the same audio file name
    (n - 1 being at most 999999), the category folder of that name
    exists, the candidate and the indexed paths 0 ... n-2 are free and no
    call is refused, process_directory returns normally; the first file
    in the order of the walk has been copied to the candidate and the
    i-th of the others (counting from 0) to stem_i + extension directly
    under the destination root. *)
Theorem same_named_files_get_indexed_names (source d : path)
    (print_info : bool) (entries : forest) (w : world) (fuel : nat)
    (first : path) (rest : list path) :
  calm w →
  mounted w source (Folder entries) →
  apart w source d →
  (height (Folder entries) ≤ fuel)%nat →
  files_of source (Folder entries) = first :: rest →
  (∀ q, q ∈ rest → filename q = filename first) →
  is_audio_file first = true →
  dirs_exist w (parent_path (candidate first d)) →
  lookup_path w (candidate first d) = None →
  (∀ j, 0 ≤ j < Z.of_nat (length rest) →
        lookup_path w (indexed_path first d j) = None) →
  Z.of_nat (length rest) ≤ index_bound →
  ∃ w',
    process_directory fuel source d print_info w = (Normal tt, w')
    ∧ lookup_path w' (candidate first d) = lookup_path w first
    ∧ (∀ i q, rest !! i = Some q →
              lookup_path w' (indexed_path first d (Z.of_nat i))
              = lookup_path w q)
    ∧ copies w'
      = copies w
        ++ (first, candidate first d)
           :: imap (λ i q, (q, indexed_path first d (Z.of_nat i))) rest.
Proof.
  intros Hcalm Hm Ha Hh Hfiles Hname Haudio Hdirs Hnone Hfree Hbound.
  rewrite (process_directory_pass source d print_info entries w fuel);
    [|done | done | by apply calm_listing | done].
  rewrite Hfiles. cbn [for_each].
  assert (∀ q, q ∈ first :: rest →
               (∃ data, lookup_path w q = Some (File data))
               ∧ ¬ near (key w d) (key w q)) as Hsrc.
  { intros q Hq. rewrite <- Hfiles in Hq. split.
    - by apply (proj1 (mounted_files w) (Folder entries) source).
    - apply (apart_below w source d q); [done|].
      apply canon_prefix. by apply (proj1 files_prefix (Folder entries)). }
  destruct (Hsrc first) as [[data Hdata] Hnear]; [by left|].
  destruct (Hdirs (parent_path (candidate first d))) as [names Hnames];
    [done|].
  set (w1 := registered first
               (copied first (candidate first d) data names print_info
                  (entered first (candidate first d) print_info w))).
  destruct (fresh_state_fields first (candidate first d) data names
              print_info w) as (Hci & Hf & Hl & Hpf & Hc & _).
  fold w1 in Hci, Hf, Hl, Hpf, Hc.
  assert (key w1 = key w) as Hk by (unfold key; by rewrite Hci).
  assert (∀ p, key w p ≠ key w (candidate first d) →
               key w p ≠ key w (parent_path (candidate first d)) →
               lookup_path w1 p = lookup_path w p) as Hkeep.
  { intros p H1 H2. by rewrite Hl, !decide_False. }
  assert (∀ j, key w (indexed_path first d j) ≠ key w (candidate first d)
               ∧ key w (indexed_path first d j)
                 ≠ key w (parent_path (candidate first d))) as Hix.
  { intros j. split; apply key_length_ne;
      rewrite indexed_path_length, ?candidate_parent, ?candidate_length;
      unfold path_append; rewrite ?length_app; simpl; lia. }
  destruct (duplicates_go_to_the_root d first print_info rest 0 w1)
    as (w' & E & Hci' & Hl' & Hfr' & Hc').
  - intros c. rewrite Hf. apply Hcalm.
  - exact Haudio.
  - intros p Hp. destruct (Hdirs p Hp) as [ns Hns].
    unfold is_dir. rewrite Hl. destruct (decide _) as [Ek|_].
    { unfold lookup_path in Hns, Hnone. rewrite Ek in Hns. congruence. }
    destruct (decide _); by eauto.
  - unfold occupied. by rewrite Hl, decide_True.
  - rewrite Hpf. apply elem_of_union. left. by apply elem_of_singleton.
  - intros j Hj. lia.
  - intros j Hj. destruct (Hix j) as [H1 H2]. rewrite Hkeep by done.
    apply Hfree. cbn in Hj. lia.
  - cbn. lia.
  - exact Hname.
  - intros q Hq. destruct (Hsrc q) as [[dq Hdq] Hnq]; [by right|].
    exists dq. destruct (candidate_near w first d q Hnq) as [H1 H2].
    by rewrite Hkeep.
  - intros q Hq. rewrite Hk. apply Hsrc. by right.
  - exists w'. erewrite bind_run.
    2:{ by apply organize_file_fresh. }
    fold w1. split; [exact E|].
    assert (key w' = key w) as Hk' by (unfold key; by rewrite Hci', Hci).
    rewrite Hk in Hfr'.
    split; [|split].
    + unfold lookup_path at 1. rewrite Hk', Hfr'.
      * rewrite <- Hk.
        change (lookup_path w1 (candidate first d) = lookup_path w first).
        by rewrite Hl, decide_True, Hdata.
      * intros j Hj E'. by destruct (Hix j) as [H1 _].
      * apply key_length_ne. rewrite candidate_length. lia.
    + intros i q Hi. pose proof (Hl' i q Hi) as Hli.
      cbn [Nat.add] in Hli. rewrite Hli.
      destruct (Hsrc q) as [_ Hnq]; [right; by eapply list_elem_of_lookup_2|].
      destruct (candidate_near w first d q Hnq) as [H1 H2].
      by apply Hkeep.
    + rewrite Hc', Hc, <- app_assoc. done.
Qed.

Lemma same_named_files_get_indexed_names_witness :
  ∃ w', process_directory 3 ["s"] ["d"] false
          (start false no_fault triplets_store) = (Normal tt, w')
        ∧ lookup_path w' ["d"; "Drums"; "Kick"; "kick.wav"]
          = Some (File "1")
        ∧ lookup_path w' ["d"; "kick_0.wav"] = Some (File "2")
        ∧ lookup_path w' ["d"; "kick_1.wav"] = Some (File "3").
Proof.
  destruct (same_named_files_get_indexed_names ["s"] ["d"] false
              triplets_tree (start false no_fault triplets_store) 3
              ["s"; "a"; "kick.wav"]
              [["s"; "b"; "kick.wav"]; ["s"; "c"; "kick.wav"]])
    as (w' & E & H1 & H2 & _).
  - intros c. reflexivity.
  - simpl. repeat split; reflexivity.
  - intros [H|H]; apply prefix_cons_inv_1 in H; discriminate H.
  - simpl. lia.
  - reflexivity.
  - intros q Hq. apply list_elem_of_In in Hq. simpl in Hq.
    destruct Hq as [<-|[<-|[]]]; reflexivity.
  - reflexivity.
  - apply dirs_check_sound. reflexivity.
  - reflexivity.
  - intros j Hj. simpl in Hj.
    assert (j = 0 ∨ j = 1) as [->| ->] by lia; reflexivity.
  - unfold index_bound. simpl. lia.
  - exists w'. split; [exact E|]. split; [exact H1|]. split.
    + exact (H2 0%nat _ eq_refl).
    + exact (H2 1%nat _ eq_refl).
Defined.
(** *** A folder in the place of the file *)

(** X21.  A non-empty directory in the place of the candidate is not
    replaced: when the name is not registered, fs::remove throws, the
    error is printed, the file system and the registry stay as they were
    and nothing is copied. *)
Theorem folder_in_the_way_is_kept (source d : path) (print_info : bool)
    (w : world) (name : string) (names : list string) :
  calm w →
  is_audio_file source = true →
  dirs_exist w (parent_path (candidate source d)) →
  lookup_path w (candidate source d) = Some (Dir (name :: names)) →
  to_lower (filename source) ∉ processed_files w →
  ∃ w' what,
    organize_file source d print_info w = (Normal tt, w')
    ∧ store w' = store w
    ∧ processed_files w' = processed_files w
    ∧ copies w' = copies w
    ∧ history w'
      = history w ++ [Organize source; Remove (candidate source d)]
    ∧ console w'
      = console w
        ++ (if print_info then [Request source (candidate source d)]
            else [])
        ++ [Error_copying_file what].
Proof.
  intros Hcalm Haudio Hdirs Hdir Hnew.
  set (w1 := entered source (candidate source d) print_info w).
  destruct (entered_fields source (candidate source d) print_info w)
    as (Hci & Hfl & Hst & Hpf & Hh). fold w1 in Hci, Hfl, Hst, Hpf, Hh.
  pose proof (lookup_entered source (candidate source d) print_info w) as Hl1.
  fold w1 in Hl1.
  set (w2 := with_history (history w1 ++ [Remove (candidate source d)]) w1).
  exists (with_console
            (console w2 ++ [Error_copying_file "Directory not empty"]) w2),
    "Directory not empty".
  split.
  - rewrite organize_file_run. cbn zeta. rewrite Haudio. cbn [negb].
    unfold place.
    erewrite bind_run.
    2:{ apply create_parent_directories_run;
          [apply candidate_parent_nonempty | by apply Hcalm | done]. }
    erewrite bind_run by apply when_print_run.
    change (announce _ _ _) with w1.
    erewrite bind_run.
    2:{ apply fs_exists_run. rewrite Hfl. by apply Hcalm. }
    unfold occupied. rewrite Hl1, Hdir. cbn [negb].
    assert ((p ← file_already_processed (candidate source d);
             if negb p
             then fs_remove (candidate source d) ;;
                  fs_copy_file source (candidate source d) ;;
                  when print_info
                    (print_file_move_info source (candidate source d))
             else indexed_copy index_iterations 0 source d print_info) w1
            = (Throw "Directory not empty", w2)) as E.
    { unfold file_already_processed.
      unfold mbind at 1, M_bind at 1.
      rewrite candidate_filename, Hpf.
      rewrite bool_decide_eq_false_2 by done. cbn [negb].
      apply bind_throw. unfold fs_remove.
      rewrite (bind_run _ _ w1 w2 tt) by done.
      rewrite guarded_calm by (change (fault w2) with (fault w1);
                               rewrite Hfl; apply Hcalm).
      change (lookup_path w2 (candidate source d))
        with (lookup_path w1 (candidate source d)).
      by rewrite Hl1, Hdir. }
    by rewrite (bind_throw _ _ w1 w2 _ E).
  - split; [exact Hst|]. split; [exact Hpf|].
    split.
    { change (copies w2 = copies w). unfold copies, w2. cbn [history with_history].
      rewrite Hh, !omap_app. cbn [omap]. by rewrite !app_nil_r. }
    split.
    { change (history w1 ++ [Remove (candidate source d)]
              = history w ++ [Organize source; Remove (candidate source d)]).
      by rewrite Hh, <- app_assoc. }
    change (console w1 ++ [Error_copying_file "Directory not empty"]
            = console w
              ++ (if print_info then [Request source (candidate source d)]
                  else [])
              ++ [Error_copying_file "Directory not empty"]).
    unfold w1, entered, announce.
    by destruct print_info; cbn; rewrite <- ?app_assoc.
Qed.

Lemma folder_in_the_way_is_kept_witness :
  ∃ w' what,
    organize_file ["s"; "a"; "kick.wav"] ["d"] false
      (start false no_fault blocked_store) = (Normal tt, w')
    ∧ store w' = blocked_store
    ∧ console w' = [Error_copying_file what].
Proof.
  destruct (folder_in_the_way_is_kept ["s"; "a"; "kick.wav"] ["d"] false
              (start false no_fault blocked_store) "take1.txt" [])
    as (w' & what & E & Hs & _ & _ & _ & Hc).
  - intros c. reflexivity.
  - reflexivity.
  - apply dirs_check_sound. reflexivity.
  - reflexivity.
  - apply not_elem_of_empty.
  - exists w', what. split; [exact E|]. split; [exact Hs | exact Hc].
Defined.
